(** * ohmymem-core: the memory-file storage engine

    A shallow embedding of
      - internal/domain/memory_service.go (validation, entry preparation),
      - internal/domain (SectionType, Entry, AppendInput, sentinel errors),
      - internal/infrastructure/persistence/memory_repository.go
        (section locator, entry codec, document mutator, storage engine),
    together with the parts of the Go standard library they rely on
    (package strings, package regexp, time.Format, the os file calls).

    Go strings are byte sequences; they are embedded as [string], one
    [ascii] per byte.  Go [int] offsets are embedded as [Z] (the sentinel
    [-1] of [strings.Index] included); string lengths stay far below 2^63,
    so no wrap-around arises. *)

From Stdlib Require Import ZArith Lia List Bool Ascii String.
From Stdlib Require Import DecimalString Permutation.
Import ListNotations.

Local Open Scope string_scope.
Local Open Scope Z_scope.

(* ================================================================== *)
(** ** Package [strings] *)
(* ================================================================== *)

Module GoStrings.

(** [len(s)] *)
Definition len (s : string) : Z := Z.of_nat (String.length s).

Fixpoint take (n : nat) (s : string) : string :=
  match n, s with
  | S n', String c s' => String c (take n' s')
  | _, _ => EmptyString
  end.

Fixpoint drop (n : nat) (s : string) : string :=
  match n, s with
  | S n', String _ s' => drop n' s'
  | _, _ => s
  end.

(** [s[lo:hi]]; [None] stands for the run-time panic Go raises when the
    bounds are out of range. *)
Definition slice (s : string) (lo hi : Z) : option string :=
  if (0 <=? lo) && (lo <=? hi) && (hi <=? len s)
  then Some (take (Z.to_nat (hi - lo)) (drop (Z.to_nat lo) s))
  else None.

(** [s[lo:]] *)
Definition slice_from (s : string) (lo : Z) : option string :=
  slice s lo (len s).

(** [s[:hi]] *)
Definition slice_to (s : string) (hi : Z) : option string :=
  slice s 0 hi.

(** [strings.HasPrefix(s, p)] *)
Definition HasPrefix (s p : string) : bool := String.prefix p s.

(** [strings.TrimPrefix(s, p)] *)
Definition TrimPrefix (s p : string) : string :=
  if HasPrefix s p then drop (String.length p) s else s.

(** Offset of the first occurrence of [sub] in [s], if any. *)
Fixpoint index_nat (s sub : string) : option nat :=
  if String.prefix sub s then Some 0%nat
  else match s with
       | EmptyString => None
       | String _ s' => option_map S (index_nat s' sub)
       end.

(** [strings.Index(s, sub)] *)
Definition Index (s sub : string) : Z :=
  match index_nat s sub with
  | Some n => Z.of_nat n
  | None => -1
  end.

(** [strings.Contains(s, sub)] is [Index(s, sub) >= 0]. *)
Definition Contains (s sub : string) : bool := 0 <=? Index s sub.

(** [strings.Split(s, sep)] for a one-byte separator, the only way the
    source calls it ([sep = "\n"]).  The result is never empty. *)
Fixpoint Split (s : string) (sep : ascii) : list string :=
  match s with
  | EmptyString => [EmptyString]
  | String c s' =>
      if Ascii.eqb c sep then EmptyString :: Split s' sep
      else match Split s' sep with
           | l :: ls => String c l :: ls
           | [] => [String c EmptyString]
           end
  end.

(** The byte [n] as a one-byte string. *)
Definition byte (n : nat) : string := String (ascii_of_nat n) EmptyString.

Definition bytes (ns : list nat) : string :=
  fold_right (fun n s => String (ascii_of_nat n) s) EmptyString ns.

(** UTF-8 encodings of the code points for which [unicode.IsSpace] holds:
    TAB, LF, VT, FF, CR, SPACE, U+0085, U+00A0, U+1680, U+2000..U+200A,
    U+2028, U+2029, U+202F, U+205F, U+3000.  Every other byte sequence
    decodes to a non-space rune (an invalid byte decodes to U+FFFD). *)
Definition spaceEncodings : list string :=
  map bytes
    [ [9]; [10]; [11]; [12]; [13]; [32];
      [194; 133]; [194; 160]; [225; 154; 128];
      [226; 128; 128]; [226; 128; 129]; [226; 128; 130]; [226; 128; 131];
      [226; 128; 132]; [226; 128; 133]; [226; 128; 134]; [226; 128; 135];
      [226; 128; 136]; [226; 128; 137]; [226; 128; 138];
      [226; 128; 168]; [226; 128; 169]; [226; 128; 175];
      [226; 129; 159]; [227; 128; 128] ]%nat.

(** Length of the white-space rune [s] starts with, if it starts with one. *)
Definition leadingSpace (s : string) : option nat :=
  option_map String.length (find (fun e => String.prefix e s) spaceEncodings).

Fixpoint rev_string (acc s : string) : string :=
  match s with
  | EmptyString => acc
  | String c s' => rev_string (String c acc) s'
  end.

Definition reverse (s : string) : string := rev_string EmptyString s.

(** Length of the white-space rune [s] ends with, given [r = reverse s]. *)
Definition trailingSpace (r : string) : option nat :=
  option_map String.length
    (find (fun e => String.prefix (reverse e) r) spaceEncodings).

(** Strip leading white space; [fuel] bounds the number of runes. *)
Fixpoint trimLeft (fuel : nat) (s : string) : string :=
  match fuel with
  | O => s
  | S fuel' =>
      match leadingSpace s with
      | Some n => trimLeft fuel' (drop n s)
      | None => s
      end
  end.

Fixpoint trimRightRev (fuel : nat) (r : string) : string :=
  match fuel with
  | O => r
  | S fuel' =>
      match trailingSpace r with
      | Some n => trimRightRev fuel' (drop n r)
      | None => r
      end
  end.

(** [strings.TrimSpace(s)]: every white-space rune has at least one byte,
    so [length s] rounds are enough on either side. *)
Definition TrimSpace (s : string) : string :=
  let l := trimLeft (String.length s) s in
  reverse (trimRightRev (String.length l) (reverse l)).

(** [strings.ToUpper] on a string of at most one byte, as [capitalize]
    applies it to [s[:1]]: an ASCII lower-case letter is raised, any
    other ASCII byte is kept, a byte above 0x7F is no valid UTF-8 and is
    replaced by the encoding of U+FFFD. *)
Definition ToUpper1 (s : string) : string :=
  match s with
  | String c EmptyString =>
      let n := nat_of_ascii c in
      if ((97 <=? n) && (n <=? 122))%nat then byte (n - 32)
      else if (n <? 128)%nat then s
      else bytes [239; 191; 189]%nat
  | _ => s
  end.

(** [strings.Trim(s, cutset)] for a cutset of ASCII bytes: drop every
    leading and every trailing byte that occurs in [cutset]. *)
Definition inCutset (cutset : string) (c : ascii) : bool :=
  existsb (Ascii.eqb c) (list_ascii_of_string cutset).

Fixpoint trimLeftCut (cutset s : string) : string :=
  match s with
  | String c s' => if inCutset cutset c then trimLeftCut cutset s' else s
  | EmptyString => s
  end.

Definition Trim (s cutset : string) : string :=
  reverse (trimLeftCut cutset (reverse (trimLeftCut cutset s))).

End GoStrings.

Import GoStrings.

(* ================================================================== *)
(** ** Package [regexp]

    Go's [regexp] returns the leftmost match and, among the matches that
    start there, the one a backtracking matcher finds first
    (leftmost-first).  [run] is that backtracking matcher, written with a
    success continuation; the syntax tree covers the operators the two
    patterns of the repository use.  The patterns only repeat
    one-character classes, and every literal following a repetition is
    ASCII, so matching byte by byte and matching rune by rune agree. *)
(* ================================================================== *)

Module Regexp.

Inductive regex : Type :=
| Lit (s : string)                         (* literal text *)
| Plus (greedy : bool) (cls : ascii -> bool) (* [..]+ and [..]+? *)
| Group (n : nat) (r : regex)              (* capturing group number n *)
| Opt (r : regex)                          (* (?:r)? , greedy *)
| Seq (r1 r2 : regex)
| BeginLine                                (* ^ under (?m) *)
| EndLine                                  (* $ under (?m) *)
| BeginText                                (* ^ without (?m) *)
| EndText.                                 (* $ without (?m) *)

Definition caps := list (nat * string).

(** What a match attempt yields: the text left after the match, and the
    groups that took part. *)
Definition outcome : Type := string * caps.

Definition nl : ascii := "010"%char.

Fixpoint strip (p s : string) : option (option ascii * string) :=
  match p, s with
  | EmptyString, _ => Some (None, s)
  | String a p', String b s' =>
      if Ascii.eqb a b
      then match strip p' s' with
           | Some (None, r) => Some (Some b, r)
           | other => other
           end
      else None
  | String _ _, EmptyString => None
  end.

Section Matcher.

Context {R : Type}.

(** Zero or more bytes of [cls], longest first. *)
Fixpoint starGreedy (cls : ascii -> bool) (prev : option ascii) (s : string)
    (k : option ascii -> string -> option R) : option R :=
  match s with
  | String c s' =>
      if cls c
      then match starGreedy cls (Some c) s' k with
           | Some r => Some r
           | None => k prev s
           end
      else k prev s
  | EmptyString => k prev s
  end.

(** Zero or more bytes of [cls], shortest first. *)
Fixpoint starLazy (cls : ascii -> bool) (prev : option ascii) (s : string)
    (k : option ascii -> string -> option R) : option R :=
  match k prev s with
  | Some r => Some r
  | None =>
      match s with
      | String c s' => if cls c then starLazy cls (Some c) s' k else None
      | EmptyString => None
      end
  end.

Definition plus (greedy : bool) (cls : ascii -> bool) (s : string)
    (k : option ascii -> string -> option R) : option R :=
  match s with
  | String c s' =>
      if cls c
      then (if greedy then starGreedy else starLazy) cls (Some c) s' k
      else None
  | EmptyString => None
  end.

(** [run r prev s c k]: match [r] at the front of [s], the byte before
    it being [prev] ([None] at the start of the text), then go on with
    [k]; alternatives are tried in priority order. *)
Fixpoint run (r : regex) (prev : option ascii) (s : string) (c : caps)
    (k : option ascii -> string -> caps -> option R) : option R :=
  match r with
  | Lit p =>
      match strip p s with
      | Some (Some b, s') => k (Some b) s' c
      | Some (None, s') => k prev s' c
      | None => None
      end
  | Plus g cls => plus g cls s (fun prev' s' => k prev' s' c)
  | Group n r1 =>
      run r1 prev s c
        (fun prev' s' c' =>
           k prev' s' ((n, take (String.length s - String.length s') s) :: c'))
  | Opt r1 =>
      match run r1 prev s c k with
      | Some x => Some x
      | None => k prev s c
      end
  | Seq r1 r2 => run r1 prev s c (fun prev' s' c' => run r2 prev' s' c' k)
  | BeginLine =>
      match prev with
      | None => k prev s c
      | Some b => if Ascii.eqb b nl then k prev s c else None
      end
  | EndLine =>
      match s with
      | EmptyString => k prev s c
      | String b _ => if Ascii.eqb b nl then k prev s c else None
      end
  | BeginText => match prev with None => k prev s c | Some _ => None end
  | EndText => match s with EmptyString => k prev s c | String _ _ => None end
  end.

End Matcher.

Fixpoint lookup (n : nat) (c : caps) : string :=
  match c with
  | [] => EmptyString
  | (m, v) :: c' => if Nat.eqb n m then v else lookup n c'
  end.

(** The submatch slice of a match that starts at [s]: index 0 is the
    whole match, index [i] group [i]; a group that took no part is the
    empty string. *)
Definition submatches (ngroups : nat) (s : string) (o : outcome) : list string :=
  let '(rest, c) := o in
  take (String.length s - String.length rest) s
    :: map (fun i => lookup i c) (seq 1 ngroups).

(** One match attempt at the front of [s]. *)
Definition matchHere (r : regex) (prev : option ascii) (s : string)
    : option outcome :=
  run r prev s [] (fun _ s' c => Some (s', c)).

Record Regexp := MustCompile { prog : regex; numSubexp : nat }.

Fixpoint findFrom (re : Regexp) (prev : option ascii) (s : string)
    : option (list string) :=
  match matchHere (prog re) prev s with
  | Some o => Some (submatches (numSubexp re) s o)
  | None =>
      match s with
      | String c s' => findFrom re (Some c) s'
      | EmptyString => None
      end
  end.

(** [re.FindStringSubmatch(s)]; [None] is the nil slice. *)
Definition FindStringSubmatch (re : Regexp) (s : string) : option (list string) :=
  findFrom re None s.

(** Successive non-overlapping matches, from left to right.  [skip]
    counts the bytes of [s] still covered by the match before. *)
Fixpoint findAllFrom (re : Regexp) (prev : option ascii) (s : string)
    (skip : nat) : list (list string) :=
  match skip with
  | S skip' =>
      match s with
      | String c s' => findAllFrom re (Some c) s' skip'
      | EmptyString => []
      end
  | O =>
      match matchHere (prog re) prev s with
      | Some o =>
          let width := (String.length s - String.length (fst o))%nat in
          submatches (numSubexp re) s o ::
            match s with
            | String c s' => findAllFrom re (Some c) s' (width - 1)
            | EmptyString => []
            end
      | None =>
          match s with
          | String c s' => findAllFrom re (Some c) s' 0
          | EmptyString => []
          end
      end
  end.

(** [re.FindAllStringSubmatch(s, -1)]; the empty list is the nil slice. *)
Definition FindAllStringSubmatch (re : Regexp) (s : string) : list (list string) :=
  findAllFrom re None s 0.

(** Character classes of the two patterns. *)
Definition between (lo hi c : ascii) : bool :=
  ((nat_of_ascii lo <=? nat_of_ascii c) && (nat_of_ascii c <=? nat_of_ascii hi))%nat.

(** [[a-f0-9-]] *)
Definition clsHexDash (c : ascii) : bool :=
  between "a" "f" c || between "0" "9" c || Ascii.eqb c "-".

(** [[^\]]] *)
Definition clsNotRBracket (c : ascii) : bool := negb (Ascii.eqb c "]").

(** [[^\n]] and, without the s flag, [.] *)
Definition clsNotNewline (c : ascii) : bool := negb (Ascii.eqb c nl).

End Regexp.
Import Regexp.

(* ================================================================== *)
(** ** Package [time]: civil time and [Format(time.RFC3339)] *)
(* ================================================================== *)

Module GoTime.

(** A [time.Time] as the fields [Format] prints; sub-second precision is
    dropped by the RFC3339 layout and is left out. *)
Record Time := mkTime {
  year : Z; month : Z; day : Z;
  hour : Z; minute : Z; second : Z;
  zoneMinutes : Z   (* offset east of UTC, in minutes *)
}.

(** The zero value [time.Time{}]: January 1, year 1, 00:00:00 UTC. *)
Definition zeroTime : Time := mkTime 1 1 1 0 0 0 0.

Definition IsZero (t : Time) : bool :=
  (year t =? 1) && (month t =? 1) && (day t =? 1) && (hour t =? 0)
  && (minute t =? 0) && (second t =? 0) && (zoneMinutes t =? 0).

Definition digits (x : Z) : string :=
  NilEmpty.string_of_uint (N.to_uint (Z.to_N x)).

Fixpoint zeros (n : nat) : string :=
  match n with
  | O => EmptyString
  | S n' => String "0" (zeros n')
  end.

(** [appendInt]: decimal, zero-padded to [width], with a sign when
    negative. *)
Definition appendInt (x : Z) (width : nat) : string :=
  let d := digits (Z.abs x) in
  (if x <? 0 then "-" else "") ++ zeros (width - String.length d) ++ d.

(** The layout element [Z07:00]. *)
Definition formatZone (off : Z) : string :=
  if off =? 0 then "Z"
  else (if off <? 0 then "-" else "+")
       ++ appendInt (Z.abs off / 60) 2 ++ ":" ++ appendInt (Z.abs off mod 60) 2.

(** [t.Format(time.RFC3339)], layout [2006-01-02T15:04:05Z07:00]. *)
Definition FormatRFC3339 (t : Time) : string :=
  appendInt (year t) 4 ++ "-" ++ appendInt (month t) 2 ++ "-"
  ++ appendInt (day t) 2 ++ "T" ++ appendInt (hour t) 2 ++ ":"
  ++ appendInt (minute t) 2 ++ ":" ++ appendInt (second t) 2
  ++ formatZone (zoneMinutes t).

End GoTime.

Import GoTime.

(* ================================================================== *)
(** ** Errors, the file system and the effect monad *)
(* ================================================================== *)

Module Runtime.

(** Go [error] values. *)
Inductive error : Type :=
| Sentinel (text : string)            (* errors.New(text) *)
| Errorf (before : string) (cause : error) (after : string)
                                      (* fmt.Errorf with one %w verb *)
| ErrorfPlain (text : string)         (* fmt.Errorf without %w *)
| OSError (call : string)             (* a failed system call *)
| ContextCanceled.                    (* ctx.Err() *)

(** [errors.Is(e, target)] for a sentinel target. *)
Fixpoint Is (e : error) (target : string) : bool :=
  match e with
  | Sentinel t => String.eqb t target
  | Errorf _ cause _ => Is cause target
  | _ => false
  end.

(** Outcome of a call: a value, a returned error, or a run-time panic. *)
Inductive Result (A : Type) : Type :=
| Ok (a : A)
| Err (e : error)
| Panic.
Arguments Ok {A} a.
Arguments Err {A} e.
Arguments Panic {A}.

(** What the environment does to the next system call. *)
Inductive fault : Type :=
| Pass                          (* the call succeeds *)
| Fail                          (* the call fails and changes nothing *)
| FailPartial (residue : string) (* WriteFile: fails after writing residue *)
| Cancel.                       (* lock wait: ctx.Done() fires first *)

Inductive Level := LevelDebug | LevelWarn | LevelError.

Record LogRecord := mkLog {
  logLevel : Level;
  logMsg : string;
  logAttrs : list (string * string)
}.

Definition Files := string -> option string.

(** The world a call runs in: the files by path, the clock, the faults
    the coming system calls will meet (none once the list is used up),
    the log written so far, and the successive contents of the file
    system, newest first. *)
Record World := mkWorld {
  files : Files;
  clock : Time;
  faults : list fault;
  logged : list LogRecord;
  history : list Files
}.

Definition M (A : Type) : Type := World -> Result A * World.

Definition ret {A} (a : A) : M A := fun w => (Ok a, w).
Definition fail {A} (e : error) : M A := fun w => (Err e, w).
Definition panic {A} : M A := fun w => (Panic, w).

Definition bind {A B} (m : M A) (f : A -> M B) : M B :=
  fun w =>
    match m w with
    | (Ok a, w') => f a w'
    | (Err e, w') => (Err e, w')
    | (Panic, w') => (Panic, w')
    end.

(** A partial pure operation (a slice): [None] panics. *)
Definition orPanic {A} (o : option A) : M A :=
  match o with Some a => ret a | None => panic end.

(** [defer cleanup(); body]: [cleanup] runs whatever [body] yields. *)
Definition defer {A} (cleanup : World -> World) (body : M A) : M A :=
  fun w => let '(r, w') := body w in (r, cleanup w').

Definition slog (l : Level) (msg : string) (attrs : list (string * string))
    : World -> World :=
  fun w => mkWorld (files w) (clock w) (faults w)
                   (logged w ++ [mkLog l msg attrs]) (history w).

Definition nextFault (w : World) : fault * World :=
  match faults w with
  | [] => (Pass, w)
  | f :: fs => (f, mkWorld (files w) (clock w) fs (logged w) (history w))
  end.

Definition setFiles (fs : Files) (w : World) : World :=
  mkWorld fs (clock w) (faults w) (logged w) (fs :: history w).

Definition update (fs : Files) (path : string) (v : option string) : Files :=
  fun q => if String.eqb q path then v else fs q.

(** [os.MkdirAll(path, 0755)] *)
Definition MkdirAll (path : string) : M unit :=
  fun w => let '(f, w1) := nextFault w in
    match f with
    | Pass => (Ok tt, w1)
    | _ => (Err (OSError "mkdir"), w1)
    end.

(** [os.ReadFile(path)]: the content, or [inr true] when the file does not
    exist ([os.IsNotExist]), or [inr false] for another error. *)
Definition ReadFile (path : string) : World -> (string + bool) * World :=
  fun w => let '(f, w1) := nextFault w in
    match f with
    | Pass => match files w1 path with
              | Some data => (inl data, w1)
              | None => (inr true, w1)
              end
    | _ => (inr false, w1)
    end.

(** [os.WriteFile(path, data, 0644)] *)
Definition WriteFile (path data : string) : M unit :=
  fun w => let '(f, w1) := nextFault w in
    match f with
    | Pass => (Ok tt, setFiles (update (files w1) path (Some data)) w1)
    | FailPartial residue =>
        (Err (OSError "write"), setFiles (update (files w1) path (Some residue)) w1)
    | _ => (Err (OSError "open"), w1)
    end.

(** [os.Rename(oldpath, newpath)]: atomic; a failure changes nothing. *)
Definition Rename (oldpath newpath : string) : M unit :=
  fun w => let '(f, w1) := nextFault w in
    match f, files w1 oldpath with
    | Pass, Some data =>
        (Ok tt, setFiles (update (update (files w1) newpath (Some data)) oldpath None) w1)
    | _, _ => (Err (OSError "rename"), w1)
    end.

Definition passes (f : fault) : bool :=
  match f with Pass => true | _ => false end.

(** [os.Remove(path)] with its result dropped, as every call in the
    source drops it: the file is gone when the call goes through; a
    call that fails, or that finds no file, changes nothing. *)
Definition Remove (path : string) : World -> World :=
  fun w => let '(f, w1) := nextFault w in
    match f, files w1 path with
    | Pass, Some _ => setFiles (update (files w1) path None) w1
    | _, _ => w1
    end.

Inductive Context := Background | WithCancel.

(** [flock.Lock()] raced against [ctx.Done()]. *)
Inductive LockOutcome := Locked | LockError | Canceled.

Definition lockOrCancel (ctx : Context) : World -> LockOutcome * World :=
  fun w => let '(f, w1) := nextFault w in
    match f, ctx with
    | Pass, _ => (Locked, w1)
    | Cancel, WithCancel => (Canceled, w1)
    | Cancel, Background => (Locked, w1)
    | _, _ => (LockError, w1)
    end.

(** [flock.Unlock()] *)
Definition Unlock : M unit :=
  fun w => let '(f, w1) := nextFault w in
    match f with
    | Pass => (Ok tt, w1)
    | _ => (Err (OSError "unlock"), w1)
    end.

(** [filepath.Join] on clean, non-empty elements. *)
Definition Join (elems : list string) : string := String.concat "/" elems.

End Runtime.

Import Runtime.

Declare Scope go_scope.
Notation "x <- m ;; k" := (bind m (fun x => k))
  (at level 61, m at next level, right associativity) : go_scope.
Notation "m ;;; k" := (bind m (fun _ => k))
  (at level 61, right associativity) : go_scope.

(* ================================================================== *)
(** ** Package [domain] *)
(* ================================================================== *)

Module Domain.

Local Open Scope go_scope.

(** *** errors.go *)
Definition ErrInvalidCategory : error := Sentinel "invalid category".
Definition ErrInvalidTag : error := Sentinel "invalid tag".
Definition ErrInvalidContent : error := Sentinel "invalid content".
Definition ErrInvalidRationale : error := Sentinel "invalid rationale".
Definition ErrForbiddenContent : error := Sentinel "forbidden content".
Definition ErrListItem : error := Sentinel "list item not allowed".

(** *** SectionType *)
Definition SectionType := string.

Definition SectionConstraints : SectionType := "constraints".
Definition SectionDecisions : SectionType := "decisions".
Definition SectionPatterns : SectionType := "patterns".
Definition SectionAntiPatterns : SectionType := "anti-patterns".
Definition SectionNote : SectionType := "note".

Definition ValidSections : list SectionType :=
  [SectionConstraints; SectionDecisions; SectionPatterns;
   SectionAntiPatterns; SectionNote].

Definition IsValid (s : SectionType) : bool :=
  if String.eqb s SectionConstraints then true
  else if String.eqb s SectionDecisions then true
  else if String.eqb s SectionPatterns then true
  else if String.eqb s SectionAntiPatterns then true
  else if String.eqb s SectionNote then true
  else false.

(** *** Entry, Section, AppendInput *)
Record Entry := mkEntry {
  ID : string;
  Tag : string;
  TagName : string;
  Content : string;
  Rationale : string;
  CreatedAt : Time
}.

Record Section := mkSection {
  Type_ : SectionType;
  Entries : list Entry
}.

(** The fields [Tag], [Content] and [Rationale] of [AppendInput] carry
    the prefix [In], the plain names being those of [Entry]. *)
Record AppendInput := mkInput {
  Category : string;
  InTag : string;
  InContent : string;
  InRationale : string
}.

(** *** The storage interface (ports.go) *)
Record MemoryRepository := {
  GetSection : Context -> SectionType -> M Section;
  AppendEntry : Context -> SectionType -> Entry -> M unit;
  ReadAll : Context -> M string;
  FilePath : string
}.

(** [TimeProvider], with the two implementations the repository has:
    [adapters.SystemClock], which reads the system time, and the
    [testClock] of the repository tests, which keeps the time it was
    given, or 2024-01-15T10:30:00Z when given the zero time. *)
Inductive TimeProvider : Type :=
| SystemClock
| TestClock (currentTime : Time).

Definition Now (tp : TimeProvider) (w : World) : Time :=
  match tp with
  | SystemClock => clock w
  | TestClock t => if IsZero t then mkTime 2024 1 15 10 30 0 0 else t
  end.

(** *** memory_service.go *)

Definition dquote : string := String "034"%char EmptyString.

(** The verb [%q] on the forbidden tokens: double quotes around the text,
    line feed and carriage return written as escapes. *)
Fixpoint escape (s : string) : string :=
  match s with
  | EmptyString => EmptyString
  | String c s' =>
      (if Ascii.eqb c "010" then "\n"
       else if Ascii.eqb c "013" then "\r"
       else String c EmptyString) ++ escape s'
  end.

Definition quote (s : string) : string := dquote ++ escape s ++ dquote.

Definition LF : string := String "010"%char EmptyString.
Definition CR : string := String "013"%char EmptyString.

Definition forbidden : list string := [LF; CR; "###"; "```"; "<"; ">"].

(** [ValidateContent]: [None] is the nil error. *)
Definition ValidateContent (content : string) : option error :=
  match find (fun char => Contains content char) forbidden with
  | Some char =>
      Some (Errorf "" ErrForbiddenContent (": contains " ++ quote char))
  | None =>
      let trimmed := TrimSpace content in
      if HasPrefix trimmed "- " || HasPrefix trimmed "* "
      then Some (Errorf "" ErrListItem ": content cannot be a list item")
      else None
  end.

Definition withCategory (input : AppendInput) (c : string) : AppendInput :=
  mkInput c (InTag input) (InContent input) (InRationale input).

(** [ValidateInput]: the receiver takes [input] by value, so the default
    category is set on a copy the caller never sees. *)
Definition ValidateInput (input : AppendInput) : option error :=
  let input := if String.eqb (Category input) "" then withCategory input "note"
               else input in
  let sectionType : SectionType := Category input in
  if negb (IsValid sectionType) then
    Some (Errorf "" ErrInvalidCategory
            (": " ++ Category input
             ++ " (must be constraints, decisions, patterns, anti-patterns or note)"))
  else if len (InTag input) =? 0 then
    Some (Errorf "" ErrInvalidTag ": tag cannot be empty")
  else if 50 <? len (InTag input) then
    Some (Errorf "" ErrInvalidTag
            (": tag must be 50 characters or less (got "
             ++ digits (len (InTag input)) ++ ")"))
  else if len (InContent input) =? 0 then
    Some (Errorf "" ErrInvalidContent ": content cannot be empty")
  else if 2000 <? len (InContent input) then
    Some (Errorf "" ErrInvalidContent
            (": content must be 2000 characters or less (got "
             ++ digits (len (InContent input)) ++ ")"))
  else match ValidateContent (InContent input) with
       | Some err => Some err
       | None =>
           if 500 <? len (InRationale input) then
             Some (Errorf "" ErrInvalidRationale
                     (": rationale must be 500 characters or less (got "
                      ++ digits (len (InRationale input)) ++ ")"))
           else None
       end.

(** [PrepareEntry] *)
Definition PrepareEntry (input : AppendInput) (id : string) (now : Time) : Entry :=
  let tag := InTag input in
  let tag := if negb (HasPrefix tag "[") then "[" ++ tag ++ "]" else tag in
  let tagName := Trim tag "[]" in
  mkEntry id tag tagName (InContent input) (InRationale input) now.

Record MemoryService := NewMemoryService { repo : MemoryRepository }.

Definition ReadSection (s : MemoryService) (ctx : Context) (t : SectionType)
    : M Section :=
  GetSection (repo s) ctx t.

Definition GetMemoryPath (s : MemoryService) : string := FilePath (repo s).

Definition ReadMemory (s : MemoryService) (ctx : Context) : M string :=
  ReadAll (repo s) ctx.

(** [AppendMemory]: the category goes to the repository as the caller
    gave it. *)
Definition AppendMemory (s : MemoryService) (ctx : Context)
    (input : AppendInput) (id : string) (now : Time) : M unit :=
  let entry := PrepareEntry input id now in
  AppendEntry (repo s) ctx (Category input) entry.

End Domain.

Import Domain.

(* ================================================================== *)
(** ** Package [persistence]: memory_repository.go *)
(* ================================================================== *)

Module Persistence.

Local Open Scope go_scope.

Definition DirName : string := ".ohmymem".
Definition FileName : string := "memory.md".

Record MarkdownMemoryRepository := mkRepo {
  basePath : string;
  timeProvider : TimeProvider;
  lockFilePath : string
}.

Definition NewMemoryRepository (basePath : string) (timeProvider : TimeProvider)
    : MarkdownMemoryRepository :=
  mkRepo basePath timeProvider (Join [basePath; DirName; ".memory.lock"]).

Definition FilePath (r : MarkdownMemoryRepository) : string :=
  Join [basePath r; DirName; FileName].

Definition DirPath (r : MarkdownMemoryRepository) : string :=
  Join [basePath r; DirName].

Definition EnsureDir (r : MarkdownMemoryRepository) : M unit :=
  MkdirAll (DirPath r).

Arguments FilePath : simpl never.
Arguments DirPath : simpl never.

(** [acquireLock]: on success the unlock function is returned.  The
    [fl.Unlock()] of the cancelled branch, whose result is dropped, does
    not touch the files and is left out. *)
Definition acquireLock (r : MarkdownMemoryRepository) (ctx : Context)
    : M (M unit) :=
  EnsureDir r ;;;
  (fun w =>
     match lockOrCancel ctx w with
     | (Canceled, w1) => (Err ContextCanceled, w1)
     | (LockError, w1) =>
         (Err (Errorf "failed to acquire lock: " (OSError "flock") ""), w1)
     | (Locked, w1) => (Ok Unlock, w1)
     end).

Definition readFile (r : MarkdownMemoryRepository) : M string :=
  EnsureDir r ;;;
  (fun w =>
     match ReadFile (FilePath r) w with
     | (inl data, w1) => (Ok data, w1)
     | (inr true, w1) => (Ok "", w1)
     | (inr false, w1) =>
         (Err (Errorf "failed to read memory file: " (OSError "read") ""), w1)
     end).

Definition atomicWrite (r : MarkdownMemoryRepository) (content : string)
    : M unit :=
  let tmpPath := FilePath r ++ ".tmp" in
  fun w =>
    match WriteFile tmpPath content w with
    | (Err err, w1) =>
        (Err (Errorf "failed to write temp file: " err ""), Remove tmpPath w1)
    | (Panic, w1) => (Panic, w1)
    | (Ok _, w1) =>
        match Rename tmpPath (FilePath r) w1 with
        | (Err err, w2) =>
            (Err (Errorf "failed to rename temp file: " err ""), Remove tmpPath w2)
        | (Panic, w2) => (Panic, w2)
        | (Ok _, w2) => (Ok tt, w2)
        end
    end.

Definition ReadAll (r : MarkdownMemoryRepository) (ctx : Context) : M string :=
  readFile r.

(** *** Helper functions *)

(** The format string of [createInitialContent] applied to [now]. *)
Definition initialDocument (now : string) : string :=
"---
schema_version: " ++ dquote ++ "0.1" ++ dquote ++ "
entry_format: " ++ dquote ++ "anchored" ++ dquote ++ "
created_at: " ++ dquote ++ now ++ dquote ++ "
---

## Constraints

## Decisions

## Patterns

## Anti-Patterns
".

Definition createInitialContent (r : MarkdownMemoryRepository) : M string :=
  fun w =>
    let now := FormatRFC3339 (Now (timeProvider r) w) in
    (Ok (initialDocument now), w).

Definition capitalize (s : string) : string :=
  if String.eqb s "" then s
  else ToUpper1 (take 1 s) ++ drop 1 s.

Definition findSectionStart (content section : string) : Z :=
  let header := "## " ++ section in
  Index content header.

(** [findSectionEnd]; [None] when [content[start+3:]] panics. *)
Definition findSectionEnd (content : string) (start : Z) : option Z :=
  match slice_from content (start + 3) with
  | None => None
  | Some remaining =>
      let lines := Split remaining nl in
      match find (fun line => HasPrefix line "## ") lines with
      | Some line =>
          let pos := Index remaining line in
          Some (start + 3 + pos)
      | None => Some (len content)
      end
  end.

(** [extractSection]; [None] when a slice panics. *)
Definition extractSection (content sectionType : string) : option string :=
  let section := capitalize sectionType in
  let start := findSectionStart content section in
  if start =? -1 then Some ""
  else
    match findSectionEnd content start with
    | None => None
    | Some end_ =>
        if end_ =? -1 then Some ""
        else
          match slice content start end_ with
          | None => None
          | Some sectionContent =>
              let header := "## " ++ section ++ LF in
              Some (TrimPrefix sectionContent header)
          end
    end.

(** *** V1 parser (anchored format) *)

Notation "r1 +++ r2" := (Seq r1 r2) (at level 60, right associativity).

(** [(?m)^<!-- entry-id: ([a-f0-9-]+), tag: \[([^\]]+)\], time: ([^\n]+) -->\n]
    [^\* \*\*\[([^\]]+)\]\*\* (.+?)(?: \(\*Rationale:(.+?)\*\))?\n]
    [^<!-- entry-end -->$] *)
Definition anchoredEntryRegex : Regexp :=
  MustCompile
    (BeginLine +++ Lit "<!-- entry-id: " +++ Group 1 (Plus true clsHexDash)
     +++ Lit ", tag: [" +++ Group 2 (Plus true clsNotRBracket)
     +++ Lit "], time: " +++ Group 3 (Plus true clsNotNewline)
     +++ Lit " -->" +++ Lit LF
     +++ BeginLine +++ Lit "* **[" +++ Group 4 (Plus true clsNotRBracket)
     +++ Lit "]** " +++ Group 5 (Plus false clsNotNewline)
     +++ Opt (Lit " (*Rationale:" +++ Group 6 (Plus false clsNotNewline)
              +++ Lit "*)")
     +++ Lit LF
     +++ BeginLine +++ Lit "<!-- entry-end -->" +++ EndLine)
    6.

Definition at_ (m : list string) (i : nat) : string := nth i m "".

(** [parseV1Anchored]: the entries, or the error of a block without any
    anchored entry. *)
Definition parseV1Anchored (block : string) : Result (list Entry) :=
  match FindAllStringSubmatch anchoredEntryRegex block with
  | [] => Err (ErrorfPlain "no anchored entries found")
  | matches =>
      Ok (fold_left
            (fun entries m =>
               if (List.length m <? 6)%nat then entries
               else
                 let tag := at_ m 2 in
                 app entries [mkEntry (at_ m 1) ("[" ++ tag ++ "]") tag
                                      (at_ m 3) (at_ m 4) zeroTime])
            matches [])
  end.

(** *** Legacy parser (inline format) *)

(** [^\* \*\*\[([^\]]+)\]\*\* (.+?)(?: \(\*Rationale:(.+?)\*\))?$] *)
Definition legacyEntryRegex : Regexp :=
  MustCompile
    (BeginText +++ Lit "* **[" +++ Group 1 (Plus true clsNotRBracket)
     +++ Lit "]** " +++ Group 2 (Plus false clsNotNewline)
     +++ Opt (Lit " (*Rationale:" +++ Group 3 (Plus false clsNotNewline)
              +++ Lit "*)")
     +++ EndText)
    3.

Definition parseLegacyInline (block : string) : list Entry :=
  let lines := Split block nl in
  fold_left
    (fun entries line =>
       let line := TrimSpace line in
       if HasPrefix line "* **[" then
         match FindStringSubmatch legacyEntryRegex line with
         | Some m =>
             app entries [mkEntry "" ("[" ++ at_ m 1 ++ "]") (at_ m 1)
                                  (at_ m 2) (at_ m 3) zeroTime]
         | None => entries
         end
       else entries)
    lines [].

(** *** Renderer *)

Definition renderEntry (entry : Entry) : string :=
  let buf := "<!-- entry-id: " ++ ID entry ++ ", tag: " ++ Tag entry
             ++ ", time: " ++ FormatRFC3339 (CreatedAt entry) ++ " -->" ++ LF in
  let buf := buf ++ "* **[" ++ TagName entry ++ "]** " ++ Content entry in
  let buf := if negb (String.eqb (Rationale entry) "")
             then buf ++ " (*Rationale: " ++ Rationale entry ++ "*)"
             else buf in
  buf ++ LF ++ "<!-- entry-end -->".

(** *** GetSection *)

Definition GetSection (r : MarkdownMemoryRepository) (ctx : Context)
    (sectionType : SectionType) : M Section :=
  content <- readFile r ;;
  if String.eqb content "" then ret (mkSection sectionType [])
  else
    sectionBlock <- orPanic (extractSection content sectionType) ;;
    if String.eqb sectionBlock "" then ret (mkSection sectionType [])
    else
      match parseV1Anchored sectionBlock with
      | Ok entries => ret (mkSection sectionType entries)
      | _ =>
          let legacyEntries := parseLegacyInline sectionBlock in
          if (0 <? List.length legacyEntries)%nat then
            fun w =>
              (Ok (mkSection sectionType legacyEntries),
               slog LevelWarn "legacy format detected"
                    [("section", sectionType)] w)
          else ret (mkSection sectionType [])
      end.

(** *** AppendEntry *)

(** The deferred call: unlock, and log when unlocking fails. *)
Definition deferredUnlock (unlock : M unit) : World -> World :=
  fun w =>
    match unlock w with
    | (Ok _, w1) => w1
    | (_, w1) => slog LevelError "failed to unlock file" [("error", "unlock")] w1
    end.

Definition AppendEntry (r : MarkdownMemoryRepository) (ctx : Context)
    (sectionType : SectionType) (entry : Entry) : M unit :=
  unlock <- acquireLock r ctx ;;
  defer (deferredUnlock unlock)
    (content <- readFile r ;;
     content <- (if String.eqb content "" then createInitialContent r
                 else ret content) ;;
     let renderedEntry := renderEntry entry in
     let section := capitalize sectionType in
     let sectionStart := findSectionStart content section in
     if sectionStart =? -1 then
       fail (ErrorfPlain ("section not found: " ++ section))
     else
       sectionEnd <- orPanic (findSectionEnd content sectionStart) ;;
       part1 <- orPanic (slice_to content sectionStart) ;;
       part2 <- orPanic (slice content sectionStart sectionEnd) ;;
       part3 <- orPanic (slice_from content sectionEnd) ;;
       let newContent := part1 ++ part2 ++ renderedEntry ++ LF ++ part3 in
       (fun w =>
          match atomicWrite r newContent w with
          | (Err err, w1) =>
              (Err (Errorf "failed to write memory file: " err ""), w1)
          | (Panic, w1) => (Panic, w1)
          | (Ok _, w1) =>
              (Ok tt,
               slog LevelDebug "entry appended successfully"
                    [("section", sectionType); ("tag", Tag entry);
                     ("id", ID entry)] w1)
          end)).

(** The repository behind the storage interface. *)
Definition asRepository (r : MarkdownMemoryRepository) : MemoryRepository :=
  {| Domain.GetSection := GetSection r;
     Domain.AppendEntry := AppendEntry r;
     Domain.ReadAll := ReadAll r;
     Domain.FilePath := FilePath r |}.

End Persistence.

Import Persistence.

(* ================================================================== *)
(** ** Vocabulary of the statements *)
(* ================================================================== *)

Module Vocabulary.

(** *** Worlds and runs *)

(** [frame w w1]: files, clock and history are those of [w]; only the
    pending faults and the log may differ. *)
Definition frame (w w1 : World) : Prop :=
  files w1 = files w /\ clock w1 = clock w /\ history w1 = history w.

(** The text [readFile] yields in a world whose reads go through. *)
Definition stored (r : MarkdownMemoryRepository) (w : World) : string :=
  match files w (FilePath r) with
  | Some data => data
  | None => ""
  end.

Definition readError (e : error) : Prop :=
  e = OSError "mkdir" \/
  e = Errorf "failed to read memory file: " (OSError "read") "".

Definition lockError (e : error) : Prop :=
  e = OSError "mkdir" \/ e = ContextCanceled \/
  e = Errorf "failed to acquire lock: " (OSError "flock") "".

Definition writeFailure (e : error) : Prop :=
  exists cause, e = Errorf "failed to write memory file: " cause "".

(** The document [AppendEntry] works on: the stored text or, when there
    is none, the synthesized one. *)
Definition workingDocument (r : MarkdownMemoryRepository) (w : World) : string :=
  if String.eqb (stored r w) ""
  then initialDocument (FormatRFC3339 (Now (timeProvider r) w))
  else stored r w.

Definition spliced (D : string) (end_ : Z) (entry : Entry) : string :=
  take (Z.to_nat end_) D ++ renderEntry entry ++ LF ++ drop (Z.to_nat end_) D.

(** The states the real path may show during a run of
    [atomicWrite r content] from [w] that ends in [res]. *)
Definition untorn (r : MarkdownMemoryRepository) (content : string) (w : World)
    (res : Result unit) (fs : Files) : Prop :=
  fs (FilePath r) = files w (FilePath r) \/
  (res = Ok tt /\ fs (FilePath r) = Some content).

(** The fault the [k]-th system call of a run from [w] meets, counting
    from 0: the [k]-th pending fault, [Pass] once the list is used up. *)
Definition meets (w : World) (k : nat) : fault := nth k (faults w) Pass.

(** The world after [n] system calls that changed no file. *)
Definition afterCalls (n : nat) (w : World) : World :=
  mkWorld (files w) (clock w) (skipn n (faults w)) (logged w) (history w).

(** The system calls of a run of [AppendEntry] that reaches the write
    phase, in order: mkdir and flock in [acquireLock], mkdir and read in
    [readFile], then, in [atomicWrite], the write of the temporary file,
    call 4, and the rename, call 5.  The removal of the temporary file
    is call 5 after a failed write and call 6 after a failed rename. *)
Definition removalCall (w : World) : nat :=
  if passes (meets w 4) then 6%nat else 5%nat.

(** What the failed step of the atomic write leaves at the temporary
    path: a failed write the bytes it got out, or what was there when it
    got none out; a failed rename the complete new document. *)
Definition leftBehind (r : MarkdownMemoryRepository) (newContent : string)
    (w : World) : option string :=
  match meets w 4 with
  | Pass => Some newContent
  | FailPartial residue => Some residue
  | _ => files w (FilePath r ++ ".tmp")
  end.

(** The service in front of the Markdown repository, as [NewServer]
    wires it. *)
Definition service (r : MarkdownMemoryRepository) : MemoryService :=
  NewMemoryService (asRepository r).

(** *** The synthesized document *)

(** No byte of [s] is [c]. *)
Fixpoint noChar (c : ascii) (s : string) : bool :=
  match s with
  | EmptyString => true
  | String d s' => negb (Ascii.eqb d c) && noChar c s'
  end.

Definition hash : ascii := "#"%char.


(** The front matter, up to the first heading. *)
Definition frontMatter (now : string) : string :=
"---
schema_version: " ++ dquote ++ "0.1" ++ dquote ++ "
entry_format: " ++ dquote ++ "anchored" ++ dquote ++ "
created_at: " ++ dquote ++ now ++ dquote ++ "
---

".

(** The four headings. *)
Definition headings : string :=
"## Constraints

## Decisions

## Patterns

## Anti-Patterns
".

(** *** Validation *)

(** The category check of [ValidateInput], the empty category standing
    for [note]. *)
Definition categoryOk (input : AppendInput) : Prop :=
  IsValid (if String.eqb (Category input) "" then "note" else Category input) = true.

(** The number of characters of a UTF-8 text, as
    [utf8.RuneCountInString] counts them on well-formed text: the bytes
    other than the continuation bytes [10xxxxxx]. *)
Definition isContinuation (c : ascii) : bool :=
  match c with Ascii _ _ _ _ _ _ b6 b7 => b7 && negb b6 end.

Fixpoint characters (s : string) : Z :=
  match s with
  | EmptyString => 0
  | String c s' => (if isContinuation c then 0 else 1) + characters s'
  end.

(** Text of bytes below 128 only. *)
Fixpoint isASCII (s : string) : bool :=
  match s with
  | EmptyString => true
  | String (Ascii _ _ _ _ _ _ _ b7) s' => negb b7 && isASCII s'
  end.

(** The checks [ValidateInput] runs before it looks at the content:
    category and tag. *)
Definition headerOk (input : AppendInput) : Prop :=
  categoryOk input /\ 1 <= len (InTag input) <= 50.

(** *** The section end *)

(** The section end as the specification words it: scan the lines after
    the heading line, and give the offset of the first that begins with
    [## ], or the length of the document. *)
Fixpoint scanLines (lines : list string) (offset : Z) : option Z :=
  match lines with
  | [] => None
  | line :: rest =>
      if HasPrefix line "## " then Some offset
      else scanLines rest (offset + len line + 1)
  end.

Definition specSectionEnd (content : string) (start : Z) : Z :=
  match Split (drop (Z.to_nat start) content) nl with
  | heading :: rest =>
      match scanLines rest (start + len heading + 1) with
      | Some offset => offset
      | None => len content
      end
  | [] => len content
  end.

End Vocabulary.

Import Vocabulary.

(* ================================================================== *)
(** ** Concrete inputs *)
(* ================================================================== *)

Module Samples.

Definition stamp : Time := mkTime 2024 1 15 10 30 0 0.

Definition repository : MarkdownMemoryRepository :=
  NewMemoryRepository "/project" SystemClock.

(** A world without files, without pending faults, the clock at [stamp]. *)
Definition emptyWorld : World := mkWorld (fun _ => None) stamp [] [] [].

(** A world whose memory file holds [doc]. *)
Definition worldWith (doc : string) (fs : list fault) : World :=
  mkWorld (fun p => if String.eqb p (FilePath repository) then Some doc else None)
          stamp fs [] [].

Definition apiEntry : Entry :=
  mkEntry "018d0c5e-7b3a-7000-8000-0123456789ab" "[API]" "API"
          "Use RESTful conventions" "" stamp.

Definition dbEntry : Entry :=
  mkEntry "018d0c5e-7b3a-7000-8000-0123456789ac" "[DB]" "DB"
          "Use PostgreSQL as primary database" "ACID compliance" stamp.

(** An input whose content mentions a heading; [ValidateContent] only
    forbids three hashes in a row. *)
Definition refInput : AppendInput :=
  mkInput "constraints" "Ref" "see ## Decisions" "".

Definition refId : string := "018d0c5e-7b3a-7000-8000-0123456789ad".

(** A section in the legacy inline format. *)
Definition legacyDocument : string :=
"## Constraints

## Decisions
* **[DB]** Use PostgreSQL as primary database (*Rationale: ACID compliance*)
* **[API]** Use RESTful conventions

## Patterns

## Anti-Patterns
".

(** A Constraints section whose one entry mentions another heading. *)
Definition crossReference : string :=
"## Constraints
see ## Decisions
## Decisions
".

End Samples.

Import Samples.

Module Witnesses.

(** A fault at the fifth system call of [AppendEntry], the write of the
    temporary file, which leaves three bytes behind. *)
Definition writeFails : list fault := [Pass; Pass; Pass; Pass; FailPartial "---"].

(** The same, with the removal of the temporary file, the sixth system
    call, failing as well. *)
Definition writeAndRemovalFail : list fault :=
  [Pass; Pass; Pass; Pass; FailPartial "---"; Fail].

Definition noteInput : AppendInput :=
  mkInput "" "TODO" "Review authentication module next week" "".

Fixpoint replicate (n : nat) (c : ascii) : string :=
  match n with
  | O => EmptyString
  | S n' => String c (replicate n' c)
  end.

Definition longInput (n : nat) : AppendInput :=
  mkInput "constraints" "API" (replicate n "a") "".

Definition listInput : AppendInput :=
  mkInput "constraints" "API" "- do the thing" "".

(** [strings.Repeat] *)
Fixpoint Repeat (s : string) (count : nat) : string :=
  match count with
  | O => EmptyString
  | S n => s ++ Repeat s n
  end.

(** The letter e with an acute accent: the two bytes C3 A9 in UTF-8. *)
Definition eAcute : string := String "195" (String "169" EmptyString).

(** Content of [n] accented letters. *)
Definition accentedInput (n : nat) : AppendInput :=
  mkInput "constraints" "API" (Repeat eAcute n) "".

(** A tag of 26 accented letters. *)
Definition accentedTagInput : AppendInput :=
  mkInput "constraints" (Repeat eAcute 26) "Use UTF-8 everywhere" "".

End Witnesses.

Import Witnesses.


(* ================================================================== *)
(** ** What a match is *)
(* ================================================================== *)

Module RegexpSemantics.

(** The byte before the position reached by reading [a] from a position
    whose byte before is [prev]. *)
Fixpoint lastOf (prev : option ascii) (a : string) : option ascii :=
  match a with
  | EmptyString => prev
  | String c a' => lastOf (Some c) a'
  end.

(** Every byte of [a] is in the class. *)
Fixpoint allIn (cls : ascii -> bool) (a : string) : bool :=
  match a with
  | EmptyString => true
  | String c a' => cls c && allIn cls a'
  end.

(** [matches r prev a rest c c']: the pattern [r] matches the text [a]
    found between a position whose byte before is [prev] and the text
    [rest], and takes the groups from [c] to [c']. *)
Inductive matches : regex -> option ascii -> string -> string -> caps -> caps -> Prop :=
| matches_Lit (p : string) prev rest c :
    matches (Lit p) prev p rest c c
| matches_Plus (g : bool) (cls : ascii -> bool) prev a rest c :
    a <> "" -> allIn cls a = true ->
    matches (Plus g cls) prev a rest c c
| matches_Group (n : nat) (r : regex) prev a rest c c' :
    matches r prev a rest c c' ->
    matches (Group n r) prev a rest c ((n, a) :: c')
| matches_Opt_taken (r : regex) prev a rest c c' :
    matches r prev a rest c c' ->
    matches (Opt r) prev a rest c c'
| matches_Opt_skipped (r : regex) prev rest c :
    matches (Opt r) prev "" rest c c
| matches_Seq (r1 r2 : regex) prev a1 a2 rest c c1 c2 :
    matches r1 prev a1 (a2 ++ rest) c c1 ->
    matches r2 (lastOf prev a1) a2 rest c1 c2 ->
    matches (Seq r1 r2) prev (a1 ++ a2) rest c c2
| matches_BeginLine prev rest c :
    prev = None \/ prev = Some nl ->
    matches BeginLine prev "" rest c c
| matches_EndLine prev rest c :
    rest = "" \/ (exists t, rest = String nl t) ->
    matches EndLine prev "" rest c c
| matches_BeginText rest c :
    matches BeginText None "" rest c c
| matches_EndText prev c :
    matches EndText prev "" "" c c.

End RegexpSemantics.

Import RegexpSemantics.

(* ================================================================== *)
(** ** Callers of the repository *)
(* ================================================================== *)

Module Callers.

Local Open Scope go_scope.

(** The loop of a caller that appends [entries] one after the other to
    one section and gives up at the first error. *)
Fixpoint appendAll (r : MarkdownMemoryRepository) (ctx : Context)
    (st : SectionType) (entries : list Entry) : M unit :=
  match entries with
  | [] => ret tt
  | entry :: rest =>
      AppendEntry r ctx st entry ;;; appendAll r ctx st rest
  end.

(** The blocks of [entries] as [AppendEntry] writes them, each followed
    by its line feed. *)
Fixpoint blocks (entries : list Entry) : string :=
  match entries with
  | [] => ""
  | entry :: rest => renderEntry entry ++ LF ++ blocks rest
  end.

(** No field of [entry] holds [#]. *)
Definition hashFree (entry : Entry) : bool :=
  noChar hash (ID entry) && noChar hash (Tag entry)
  && noChar hash (TagName entry) && noChar hash (Content entry)
  && noChar hash (Rationale entry).

(** The text between the first and the last byte of [tag]: the [T] of a
    tag [[T]]. *)
Definition unbracket (tag : string) : string :=
  take (String.length tag - 2) (drop 1 tag).

Definition nonEmpty (s : string) : bool := negb (String.eqb s "").

(** What the anchored pattern asks of the block of [entry]: an id of
    lower-case hexadecimal digits and dashes, a tag of the form [[T]]
    and a tag name, both non-empty and without a right bracket, and
    content, non-empty, and rationale without a line feed. *)
Definition anchoredOk (entry : Entry) : bool :=
  nonEmpty (ID entry) && allIn clsHexDash (ID entry)
  && String.eqb (Tag entry) ("[" ++ unbracket (Tag entry) ++ "]")
  && nonEmpty (unbracket (Tag entry))
  && allIn clsNotRBracket (unbracket (Tag entry))
  && nonEmpty (TagName entry) && allIn clsNotRBracket (TagName entry)
  && nonEmpty (Content entry) && allIn clsNotNewline (Content entry)
  && allIn clsNotNewline (Rationale entry).

(** The second line of the block of [entry], after the tag name. *)
Definition bodyLine (entry : Entry) : string :=
  Content entry
  ++ (if negb (String.eqb (Rationale entry) "")
      then " (*Rationale: " ++ Rationale entry ++ "*)" else "").

(** The synthesized document with text under its first three headings. *)
Definition freshDocument (now constraints decisions patterns : string) : string :=
  frontMatter now ++ "## Constraints

" ++ constraints ++ "## Decisions

" ++ decisions ++ "## Patterns

" ++ patterns ++ "## Anti-Patterns
".

(** A tag without any bracket. *)
Definition plainTag (tag : string) : bool :=
  noChar "["%char tag && noChar "]"%char tag.

(** No field of [input] holds [#]. *)
Definition hashFreeInput (input : AppendInput) : bool :=
  noChar hash (InTag input) && noChar hash (InContent input)
  && noChar hash (InRationale input).

(** The marker that opens the rationale of a line. *)
Definition rationaleMarker : string := " (*Rationale:".

(** A legacy line: list marker, tag in brackets and bold, text. *)
Definition legacyLine (tag text : string) : string :=
  "* **[" ++ tag ++ "]** " ++ text.

(** What the anchored pattern captures in the block of [entry]: the
    whole match and six groups, the first four being id, tag without
    brackets, timestamp and tag name. *)
Definition captured (m : list string) (entry : Entry) : Prop :=
  List.length m = 7%nat /\
  at_ m 1 = ID entry /\ at_ m 2 = unbracket (Tag entry) /\
  at_ m 3 = FormatRFC3339 (CreatedAt entry) /\ at_ m 4 = TagName entry.

(** What [parseV1Anchored] makes of the block of [entry]: id and tag
    as they were, the tag name taken from the tag, the text of the
    timestamp as content, the tag name as rationale, and the zero time. *)
Definition asRead (entry : Entry) : Entry :=
  mkEntry (ID entry) (Tag entry) (unbracket (Tag entry))
          (FormatRFC3339 (CreatedAt entry)) (TagName entry) zeroTime.

End Callers.

Import Callers.


(* ================================================================== *)
(** ** Package [usecase]: mcp.go *)
(* ================================================================== *)

Module Usecase.

Local Open Scope go_scope.

(** The arguments of a tool call that are strings, by name. *)
Record CallToolRequest := mkRequest {
  arguments : list (string * string)
}.

(** [request.GetString(key, defaultValue)] *)
Fixpoint lookupArgument (args : list (string * string)) (key defaultValue : string)
    : string :=
  match args with
  | [] => defaultValue
  | (k, v) :: rest =>
      if String.eqb k key then v else lookupArgument rest key defaultValue
  end.

Definition GetString (request : CallToolRequest) (key defaultValue : string)
    : string :=
  lookupArgument (arguments request) key defaultValue.

(** [mcp.NewToolResultText] and [mcp.NewToolResultError] *)
Inductive CallToolResult : Type :=
| NewToolResultText (text : string)
| NewToolResultError (text : string).

Section Handlers.

(** The text the operating system gives for a failed call. *)
Variable osText : string -> string.

(** [err.Error()], which the verb [%v] prints. *)
Fixpoint ErrorText (e : error) : string :=
  match e with
  | Sentinel text => text
  | Errorf before cause after => before ++ ErrorText cause ++ after
  | ErrorfPlain text => text
  | OSError call => osText call
  | ContextCanceled => "context canceled"
  end.

(** [McpUseCase]; the generator of ids is the value of the interface
    [UUIDGenerator], a call that yields an id or an error. *)
Record McpUseCase := NewMcpUseCase {
  memoryService : MemoryService;
  uuidGen : M string;
  timeProvider : TimeProvider
}.

Definition handleReadMemory (h : McpUseCase) (ctx : Context)
    (request : CallToolRequest) : M CallToolResult :=
  fun w =>
    match ReadMemory (memoryService h) ctx w with
    | (Err err, w1) =>
        (Ok (NewToolResultError ("Failed to read memory: " ++ ErrorText err)),
         slog LevelError "failed to read memory" [("error", ErrorText err)] w1)
    | (Panic, w1) => (Panic, w1)
    | (Ok content, w1) => (Ok (NewToolResultText content), w1)
    end.

(** The input a request carries. *)
Definition inputOf (request : CallToolRequest) : AppendInput :=
  mkInput (GetString request "category" "") (GetString request "tag" "")
          (GetString request "content" "") (GetString request "rationale" "").

Definition handleCaptureMemory (h : McpUseCase) (ctx : Context)
    (request : CallToolRequest) : M CallToolResult :=
  let category := GetString request "category" "" in
  let tag := GetString request "tag" "" in
  let content := GetString request "content" "" in
  let rationale := GetString request "rationale" "" in
  let input := mkInput category tag content rationale in
  match ValidateInput input with
  | Some err =>
      fun w =>
        (Ok (NewToolResultError ("Validation failed: " ++ ErrorText err)),
         slog LevelWarn "validation failed"
              [("error", ErrorText err); ("category", category); ("tag", tag)] w)
  | None =>
      fun w =>
        match uuidGen h w with
        | (Err err, w1) =>
            (Ok (NewToolResultError ("Failed to generate ID: " ++ ErrorText err)),
             slog LevelError "failed to generate UUID" [("error", ErrorText err)] w1)
        | (Panic, w1) => (Panic, w1)
        | (Ok id, w1) =>
            let now := Now (timeProvider h) w1 in
            match AppendMemory (memoryService h) ctx input id now w1 with
            | (Err err, w2) =>
                (Ok (NewToolResultError
                       ("Failed to capture to memory: " ++ ErrorText err)),
                 slog LevelError "failed to capture memory"
                      [("error", ErrorText err)] w2)
            | (Panic, w2) => (Panic, w2)
            | (Ok _, w2) =>
                (Ok (NewToolResultText
                       ("Successfully captured entry to '" ++ category
                        ++ "' category.")),
                 slog LevelDebug "memory entry added"
                      [("category", category); ("tag", tag); ("id", id)] w2)
            end
        end
  end.

(** [NewServer]: the repository under [basePath], the service in front
    of it, and the use case; the clock is the system clock, the
    generator of ids is given. *)
Definition NewServer (basePath : string) (uuid : M string)
    : McpUseCase * MarkdownMemoryRepository :=
  let repo := NewMemoryRepository basePath SystemClock in
  let memoryService := NewMemoryService (asRepository repo) in
  (NewMcpUseCase memoryService uuid SystemClock, repo).

End Handlers.

End Usecase.

(* ================================================================== *)
(** ** Package [domain]: project info, templates and the template service *)
(* ================================================================== *)

Module Templates.

Local Open Scope go_scope.

(** *** [ProjectInfo] *)
Record ProjectInfo := mkProjectInfo {
  Language : string;
  Framework : string;
  ProjectType : string;
  Database : string;
  Features : list string;
  RootPath : string
}.

Definition IsDetected (p : ProjectInfo) : bool :=
  negb (String.eqb (Language p) "") && negb (String.eqb (Language p) "unknown").

(** *** [Template], [MemoryTemplateFile] *)
Record MemoryTemplateFile := mkFile {
  Path : string;
  Content : string;
  Tags : list string;
  Source : string;
  Category : string
}.

Record Template := mkTemplate {
  BasePath : string;
  MemoryFiles : list MemoryTemplateFile;
  AgentsFile : string
}.

(** *** The ports *)
Record TemplateRepository := {
  Fetch : Context -> string -> M string;
  FetchWithFallback : Context -> list string -> M string;
  Cleanup : string -> M unit
}.

Record TemplateLoader := {
  LoadTemplate : string -> M Template;
  LoadAgents : string -> M string
}.

Record TemplateService := NewTemplateService {
  repo : TemplateRepository;
  loader : TemplateLoader
}.

(** *** [mapCategoryToSection] *)
Definition mapCategoryToSection (category : string) : string :=
  if String.eqb category "constraints" then "Constraints"
  else if String.eqb category "decisions" then "Decisions"
  else if String.eqb category "patterns" then "Patterns"
  else if String.eqb category "anti-patterns" then "Anti-Patterns"
  else "Constraints".

(** *** [generateMemoryContent] *)

(** The map from section name to contents; a name without contents
    reads as the empty slice. *)
Definition Sections := string -> list string.

Definition noSections : Sections := fun _ => [].

Definition setSection (sections : Sections) (name : string) (v : list string)
    : Sections :=
  fun q => if String.eqb q name then v else sections q.

Definition sectionNames : list string :=
  ["Constraints"; "Decisions"; "Patterns"; "Anti-Patterns"].

(** The loop that collects the content of the template files. *)
Definition collect (files : list MemoryTemplateFile) : Sections :=
  fold_left
    (fun sections file =>
       let section := mapCategoryToSection (Category file) in
       if negb (String.eqb section "")
       then setSection sections section (app (sections section) [Content file])
       else sections)
    files noSections.

(** The front matter; [info] is [None] for the nil pointer. *)
Definition writeFrontMatter (info : option ProjectInfo) : string :=
  let sb := "---" ++ LF in
  let sb := sb ++ "schema_version: " ++ dquote ++ "0.1" ++ dquote ++ LF in
  let sb := sb ++ "entry_format: " ++ dquote ++ "anchored" ++ dquote ++ LF in
  let sb := sb ++ "generated_by: " ++ dquote ++ "ohmymem init" ++ dquote ++ LF in
  let sb :=
    match info with
    | Some info =>
        if IsDetected info then
          let sb := sb ++ "detected_stack:" ++ LF in
          let sb := sb ++ "  language: " ++ dquote ++ Language info ++ dquote ++ LF in
          let sb := if negb (String.eqb (Framework info) "")
                    then sb ++ "  framework: " ++ dquote ++ Framework info
                         ++ dquote ++ LF
                    else sb in
          if negb (String.eqb (Database info) "")
          then sb ++ "  database: " ++ dquote ++ Database info ++ dquote ++ LF
          else sb
        else sb
    | None => sb
    end in
  sb ++ "---" ++ LF ++ LF.

Definition generateMemoryContent (template : Template) (info : option ProjectInfo)
    : string :=
  let sb := writeFrontMatter info in
  let sections := collect (MemoryFiles template) in
  fold_left
    (fun sb sectionName =>
       let sb := sb ++ "## " ++ sectionName ++ LF ++ LF in
       fold_left (fun sb content => sb ++ content ++ LF)
                 (sections sectionName) sb)
    sectionNames sb.

(** *** [InitTemplate] *)
Definition InitTemplate (s : TemplateService) (ctx : Context)
    (info : option ProjectInfo) (repoURLs : list string) : M (string * string) :=
  tempPath <-
    match repoURLs with
    | [] => fail (ErrorfPlain "no template repository URL provided")
    | [url] => Fetch (repo s) ctx url
    | _ =>
        fun w =>
          match FetchWithFallback (repo s) ctx repoURLs w with
          | (Err err, w1) => (Err (Errorf "fetch templates: " err ""), w1)
          | other => other
          end
    end ;;
  defer (fun w => snd (Cleanup (repo s) tempPath w))
    (fun w =>
       match LoadTemplate (loader s) tempPath w with
       | (Err err, w1) => (Err (Errorf "load template: " err ""), w1)
       | (Panic, w1) => (Panic, w1)
       | (Ok template, w1) =>
           match LoadAgents (loader s) tempPath w1 with
           | (Err err, w2) => (Err (Errorf "load agents: " err ""), w2)
           | (Panic, w2) => (Panic, w2)
           | (Ok agentsContent, w2) =>
               (Ok (generateMemoryContent template info, agentsContent), w2)
           end
       end).

(** *** [LocalTemplateLoader] *)

Definition backquote : string := String "096"%char EmptyString.

Definition getDefaultAgentsContent : string :=
"### Boot Protocol

At the **START** of every conversation:
1. Call " ++ backquote ++ "ohmymem_read" ++ backquote ++ " tool to load project constraints
2. Review all Constraints before writing any code
3. Apply Patterns to maintain consistency

### Memory Protocol

When you identify important information:

| Type | When to Record |
|------|----------------|
| **Constraint** | Technical requirements, must/must-not rules |
| **Decision** | Architecture choices with rationale |
| **Pattern** | Code style, naming conventions |
| **Anti-Pattern** | Failed approaches, things to avoid |

Use " ++ backquote ++ "ohmymem_capture" ++ backquote ++ " tool with appropriate category and tags.

### Enforcement

- **Constraints** are non-negotiable. STOP and clarify if request conflicts.
- **Patterns** should be followed for consistency.
- **Anti-Patterns** are warnings. Suggest alternatives if user requests them.
".

(** [loadMemoryFilesFromDir]: the slice behind the pointer [files] is
    passed in and the new slice is returned. *)
Definition loadMemoryFilesFromDir (dir source : string)
    (files : list MemoryTemplateFile) : M (list MemoryTemplateFile) :=
  let memoryPath := Join [dir; "memory.md"] in
  fun w =>
    match ReadFile memoryPath w with
    | (inl content, w1) =>
        (Ok (app files [mkFile memoryPath content [] source "constraints"]), w1)
    | (inr true, w1) => (Ok files, w1)
    | (inr false, w1) => (Err (OSError "read"), w1)
    end.

(** [LoadTemplate]: the error of the base template is dropped. *)
Definition LocalLoadTemplate (basePath : string) : M Template :=
  let baseDir := Join [basePath; "bases"; "common"] in
  fun w =>
    match loadMemoryFilesFromDir baseDir "common" [] w with
    | (Ok files, w1) => (Ok (mkTemplate basePath files ""), w1)
    | (_, w1) => (Ok (mkTemplate basePath [] ""), w1)
    end.

Definition LocalLoadAgents (basePath : string) : M string :=
  let agentsPath := Join [basePath; "agents.md"] in
  fun w =>
    match ReadFile agentsPath w with
    | (inl content, w1) => (Ok content, w1)
    | (inr true, w1) => (Ok getDefaultAgentsContent, w1)
    | (inr false, w1) => (Err (Errorf "read agents.md: " (OSError "read") ""), w1)
    end.

Definition NewLocalTemplateLoader : TemplateLoader :=
  {| LoadTemplate := LocalLoadTemplate; LoadAgents := LocalLoadAgents |}.

(** *** Vocabulary *)

(** The text of section [name]: the contents of the files whose
    category maps to it, in the order of the template, each followed by
    a line feed. *)
Definition sectionText (files : list MemoryTemplateFile) (name : string) : string :=
  fold_right
    (fun file text => Content file ++ LF ++ text) ""
    (filter (fun file => String.eqb (mapCategoryToSection (Category file)) name)
            files).

End Templates.

(* ================================================================== *)
(** ** Package [detector] *)
(* ================================================================== *)

Module Detector.

Import Templates.

(** A Go map literal, as the list of its entries.  [range] visits the
    entries in an order of its own choosing: the functions below take
    the order of the visit as an argument, a permutation of the
    literal. *)
Definition Table := list (string * string).

Definition frameworks : Table :=
  [("github.com/labstack/echo", "echo");
   ("github.com/gin-gonic/gin", "gin");
   ("github.com/gofiber/fiber", "fiber");
   ("github.com/gorilla/mux", "gorilla");
   ("github.com/go-chi/chi", "chi")].

Definition databases : Table :=
  [("github.com/jackc/pgx", "postgresql");
   ("github.com/lib/pq", "postgresql");
   ("github.com/go-sql-driver/mysql", "mysql");
   ("go.mongodb.org/mongo-driver", "mongodb");
   ("github.com/go-redis/redis", "redis");
   ("github.com/redis/go-redis", "redis")].

Definition featureMap : Table :=
  [("google.golang.org/grpc", "grpc");
   ("github.com/grpc-ecosystem", "grpc");
   ("github.com/swaggo/swag", "swagger");
   ("github.com/golang-jwt/jwt", "jwt");
   ("github.com/prometheus/client", "prometheus");
   ("go.opentelemetry.io/otel", "opentelemetry")].

(** The loop that returns at the first package [goMod] contains. *)
Fixpoint firstContained (visit : Table) (goMod : string) : string :=
  match visit with
  | [] => ""
  | (pkg, name) :: rest =>
      if Contains goMod pkg then name else firstContained rest goMod
  end.

(** [detectFramework], the map visited in the order [visit]. *)
Definition detectFramework (visit : Table) (goMod : string) : string :=
  firstContained visit goMod.

(** [detectDatabase] *)
Definition detectDatabase (visit : Table) (goMod : string) : string :=
  firstContained visit goMod.

(** [detectFeatures] *)
Fixpoint detectFeatures (visit : Table) (goMod : string) : list string :=
  match visit with
  | [] => []
  | (pkg, feature) :: rest =>
      if Contains goMod pkg then feature :: detectFeatures rest goMod
      else detectFeatures rest goMod
  end.

Section FileSystem.

(** [os.Stat] and [os.ReadFile] on the file system of the project:
    whether a path exists, whether it is a directory, and the content
    of a file that can be read. *)
Variable exists_ : string -> bool.
Variable isDir : string -> bool.
Variable readFile : string -> option string.

Definition dirExists (path : string) : bool := exists_ path && isDir path.

Definition fileExists (path : string) : bool := exists_ path.

(** [detectProjectType] *)
Definition detectProjectType (rootPath goMod : string) : string :=
  if dirExists (Join [rootPath; "cmd"]) then
    if Contains goMod "echo" || Contains goMod "gin" || Contains goMod "fiber"
       || Contains goMod "net/http"
    then "backend" else "cli"
  else if dirExists (Join [rootPath; "internal"]) then "backend"
  else "library".

(** The orders in which one call visits the three maps. *)
Record Visits := mkVisits {
  visitFrameworks : Table;
  visitDatabases : Table;
  visitFeatures : Table
}.

(** [GoDetector.Detect]; the error it returns is always nil. *)
Definition GoDetect (v : Visits) (rootPath : string) : ProjectInfo :=
  let goModPath := Join [rootPath; "go.mod"] in
  if negb (fileExists goModPath) then mkProjectInfo "" "" "" "" [] ""
  else
    match readFile goModPath with
    | None => mkProjectInfo "go" "" "" "" [] rootPath
    | Some goModContent =>
        mkProjectInfo "go"
          (detectFramework (visitFrameworks v) goModContent)
          (detectProjectType rootPath goModContent)
          (detectDatabase (visitDatabases v) goModContent)
          (detectFeatures (visitFeatures v) goModContent)
          rootPath
    end.

(** [LanguageDetector] *)
Record LanguageDetector := {
  Name : string;
  Detect : string -> ProjectInfo + error;
  Priority : Z
}.

Definition NewGoDetector (v : Visits) : LanguageDetector :=
  {| Name := "go"; Detect := fun rootPath => inl (GoDetect v rootPath);
     Priority := 10 |}.

Definition CompositeDetector := list LanguageDetector.

Definition NewCompositeDetector (v : Visits) : CompositeDetector :=
  [NewGoDetector v].

(** [CompositeDetector.Detect]; the error it returns is always nil. *)
Fixpoint CompositeDetect (detectors : CompositeDetector) (rootPath : string)
    : ProjectInfo :=
  match detectors with
  | [] => mkProjectInfo "unknown" "" "" "" [] rootPath
  | detector :: rest =>
      match Detect detector rootPath with
      | inr _ => CompositeDetect rest rootPath
      | inl info =>
          if IsDetected info then info else CompositeDetect rest rootPath
      end
  end.

End FileSystem.

(** The packages of [table] that [goMod] contains. *)
Definition contained (table : Table) (goMod : string) : Table :=
  filter (fun entry => Contains goMod (fst entry)) table.

End Detector.

(* ================================================================== *)
(** ** Scenarios *)
(* ================================================================== *)

Module Scenarios.

Definition twoEntries : list Entry := [apiEntry; dbEntry].

Definition sampleId : string := "018d0c5e-7b3a-7000-8000-0123456789ac".

Definition dbInput : AppendInput :=
  mkInput "decisions" "DB" "Use PostgreSQL as primary database" "ACID compliance".

(** A generator that yields [sampleId]. *)
Definition fixedUUID : M string := ret sampleId.

(** Operating-system errors read as the name of the call. *)
Definition osPlain (call : string) : string := call.

Definition captureRequest : Usecase.CallToolRequest :=
  Usecase.mkRequest
    [("category", "decisions"); ("tag", "DB");
     ("content", "Use PostgreSQL as primary database");
     ("rationale", "ACID compliance")].


Definition readRequest : Usecase.CallToolRequest := Usecase.mkRequest [].

(** The map of features visited from its last entry to its first. *)
Definition featuresBackwards : Detector.Table := rev Detector.featureMap.

(** The synthesized document of [emptyWorld], cut at its first heading. *)
Definition stampText : string := "2024-01-15T10:30:00Z".

End Scenarios.

Import Scenarios.

(* ================================================================== *)
(** ** Facts about the string operations *)
(* ================================================================== *)

Module StringFacts.

Lemma length_append (s t : string) :
  String.length (s ++ t) = (String.length s + String.length t)%nat.
Proof. induction s as [|c s IH]; simpl; [reflexivity | now rewrite IH]. Qed.

Lemma append_assoc (s t u : string) : (s ++ t) ++ u = s ++ t ++ u.
Proof. induction s as [|c s IH]; simpl; [reflexivity | now rewrite IH]. Qed.

Lemma append_nil_r (s : string) : s ++ "" = s.
Proof. induction s as [|c s IH]; simpl; [reflexivity | now rewrite IH]. Qed.

Lemma len_append (s t : string) : len (s ++ t) = len s + len t.
Proof. unfold len. rewrite length_append. lia. Qed.

Lemma len_nonneg (s : string) : 0 <= len s.
Proof. unfold len. lia. Qed.

Lemma take_drop (n : nat) (s : string) : take n s ++ drop n s = s.
Proof.
  revert s; induction n as [|n IH]; intros [|c s]; simpl; try reflexivity.
  now rewrite IH.
Qed.


Lemma length_take (n : nat) (s : string) :
  (n <= String.length s)%nat -> String.length (take n s) = n.
Proof.
  revert s; induction n as [|n IH]; intros [|c s] H; simpl in *; try lia.
  now rewrite IH by lia.
Qed.

Lemma length_drop (n : nat) (s : string) :
  String.length (drop n s) = (String.length s - n)%nat.
Proof.
  revert s; induction n as [|n IH]; intros [|c s]; simpl; try reflexivity.
  apply IH.
Qed.

Lemma take_app (s t : string) (n : nat) :
  take (String.length s + n) (s ++ t) = s ++ take n t.
Proof. induction s as [|c s IH]; simpl; [reflexivity | now rewrite IH]. Qed.

Lemma drop_app (s t : string) (n : nat) :
  drop (String.length s + n) (s ++ t) = drop n t.
Proof. induction s as [|c s IH]; simpl; [reflexivity | apply IH]. Qed.

Lemma take_all (s : string) (n : nat) :
  (String.length s <= n)%nat -> take n s = s.
Proof.
  revert n; induction s as [|c s IH]; intros [|n] H; simpl in *;
    try reflexivity; try lia.
  now rewrite IH by lia.
Qed.


Lemma take_split (s : string) (n m : nat) :
  (n <= m)%nat -> take n s ++ take (m - n) (drop n s) = take m s.
Proof.
  revert s m; induction n as [|n IH]; intros s m H.
  - cbn. now rewrite Nat.sub_0_r.
  - destruct m as [|m]; [lia|].
    destruct s as [|c s]; simpl; [now destruct (m - n)%nat|].
    now rewrite IH by lia.
Qed.

(** [prefix p s] holds exactly when [s] is [p] followed by something. *)
Lemma prefix_app (p t : string) : String.prefix p (p ++ t) = true.
Proof.
  induction p as [|c p IH]; simpl; [now destruct t|].
  destruct (ascii_dec c c); [assumption | congruence].
Qed.

Lemma prefix_inv (p s : string) :
  String.prefix p s = true -> s = p ++ drop (String.length p) s.
Proof.
  revert s; induction p as [|c p IH]; intros s H; simpl.
  - reflexivity.
  - destruct s as [|d s]; simpl in H; [discriminate|].
    destruct (ascii_dec c d); [subst | discriminate].
    simpl. f_equal. now apply IH.
Qed.

Lemma prefix_length (p s : string) :
  String.prefix p s = true -> (String.length p <= String.length s)%nat.
Proof.
  intros H. rewrite (prefix_inv _ _ H), length_append. lia.
Qed.

(** *** [Index] *)

Lemma index_nat_cons (c : ascii) (s sub : string) :
  index_nat (String c s) sub =
  if String.prefix sub (String c s) then Some 0%nat
  else option_map S (index_nat s sub).
Proof. reflexivity. Qed.

Lemma index_nat_nil (sub : string) :
  index_nat "" sub = if String.prefix sub "" then Some 0%nat else None.
Proof. reflexivity. Qed.

Lemma prefix_nil_r (p : string) : String.prefix p "" = true -> p = "".
Proof. destruct p; [reflexivity | discriminate]. Qed.

Lemma index_nat_sound (s sub : string) (n : nat) :
  index_nat s sub = Some n ->
  s = take n s ++ sub ++ drop (n + String.length sub) s.
Proof.
  revert n; induction s as [|c s IH]; intros n H.
  - rewrite index_nat_nil in H.
    destruct (String.prefix sub "") eqn:P; [|discriminate].
    apply prefix_nil_r in P. subst. injection H as <-. reflexivity.
  - rewrite index_nat_cons in H.
    destruct (String.prefix sub (String c s)) eqn:P.
    + injection H as <-. cbn [take Nat.add append]. now apply prefix_inv.
    + destruct (index_nat s sub) as [m|] eqn:E; [|discriminate].
      injection H as <-. simpl. f_equal. now apply IH.
Qed.

Lemma index_nat_bound (s sub : string) (n : nat) :
  index_nat s sub = Some n ->
  (n + String.length sub <= String.length s)%nat.
Proof.
  revert n; induction s as [|c s IH]; intros n H.
  - rewrite index_nat_nil in H.
    destruct (String.prefix sub "") eqn:P; [|discriminate].
    apply prefix_nil_r in P. subst. injection H as <-. simpl. lia.
  - rewrite index_nat_cons in H.
    destruct (String.prefix sub (String c s)) eqn:P.
    + injection H as <-. apply prefix_length in P. simpl in *. lia.
    + destruct (index_nat s sub) as [m|] eqn:E; [|discriminate].
      injection H as <-. specialize (IH m eq_refl). simpl. lia.
Qed.

(** Every occurrence is found: [Index] is [-1] only without one. *)
Lemma index_nat_complete (a sub b : string) :
  index_nat (a ++ sub ++ b) sub <> None.
Proof.
  induction a as [|c a IH].
  - cbn [append]. destruct (sub ++ b) as [|d u] eqn:E.
    + destruct sub; [cbn; discriminate | discriminate].
    + rewrite index_nat_cons, <- E, prefix_app. discriminate.
  - cbn [append]. rewrite index_nat_cons.
    destruct (String.prefix sub (String c (a ++ sub ++ b))); [discriminate|].
    destruct (index_nat (a ++ sub ++ b) sub); [discriminate | contradiction].
Qed.

Lemma Index_range (s sub : string) :
  Index s sub = -1 \/ (0 <= Index s sub /\ Index s sub + len sub <= len s).
Proof.
  unfold Index, len. destruct (index_nat s sub) as [n|] eqn:E; [right | now left].
  apply index_nat_bound in E. lia.
Qed.

Lemma Index_found (a sub b : string) : 0 <= Index (a ++ sub ++ b) sub.
Proof.
  unfold Index. pose proof (index_nat_complete a sub b).
  destruct (index_nat (a ++ sub ++ b) sub); [lia | contradiction].
Qed.

Lemma noChar_append (c : ascii) (s t : string) :
  noChar c (s ++ t) = noChar c s && noChar c t.
Proof.
  induction s as [|d s IH]; simpl; [reflexivity|].
  now rewrite IH, andb_assoc.
Qed.

(** A search for text starting with [c] skips a stretch without [c]. *)
Lemma index_nat_skip (c : ascii) (sub' pre t : string) :
  noChar c pre = true ->
  index_nat (pre ++ t) (String c sub') =
  option_map (Nat.add (String.length pre)) (index_nat t (String c sub')).
Proof.
  intros H. induction pre as [|d pre IH].
  - cbn [append String.length]. now destruct (index_nat t (String c sub')).
  - cbn [noChar] in H. apply andb_true_iff in H as [Hd Hp].
    cbn [append]. rewrite index_nat_cons. cbn [String.prefix].
    destruct (ascii_dec c d) as [->|_].
    + rewrite Ascii.eqb_refl in Hd. discriminate.
    + rewrite (IH Hp). now destruct (index_nat t (String c sub')).
Qed.

Lemma Index_skip (c : ascii) (sub' pre t : string) :
  noChar c pre = true ->
  0 <= Index t (String c sub') ->
  Index (pre ++ t) (String c sub') = len pre + Index t (String c sub').
Proof.
  intros H F. unfold Index in *. rewrite (index_nat_skip _ _ _ _ H).
  destruct (index_nat t (String c sub')); simpl; unfold len; lia.
Qed.

Lemma Index_skip_none (c : ascii) (sub' pre t : string) :
  noChar c pre = true ->
  Index t (String c sub') = -1 ->
  Index (pre ++ t) (String c sub') = -1.
Proof.
  intros H F. unfold Index in *. rewrite (index_nat_skip _ _ _ _ H).
  destruct (index_nat t (String c sub')); simpl; [lia | reflexivity].
Qed.

(** [Index] gives the first occurrence: none starts before it. *)
Lemma index_nat_first (s sub : string) (n m : nat) :
  index_nat s sub = Some n -> (m < n)%nat ->
  String.prefix sub (drop m s) = false.
Proof.
  revert n m; induction s as [|c s IH]; intros n m H L.
  - rewrite index_nat_nil in H.
    destruct (String.prefix sub ""); [injection H as <-; lia | discriminate].
  - rewrite index_nat_cons in H.
    destruct (String.prefix sub (String c s)) eqn:P; [injection H as <-; lia|].
    destruct (index_nat s sub) as [k|] eqn:E; [|discriminate].
    injection H as <-. destruct m as [|m]; [exact P|].
    cbn [drop]. apply (IH k); [reflexivity | lia].
Qed.

(** *** [TrimSpace]: the rounds allotted are enough *)

Lemma spaceEncodings_nonempty :
  Forall (fun e => (1 <= String.length e)%nat) spaceEncodings.
Proof. repeat constructor. Qed.

Lemma leadingSpace_bounds (s : string) (n : nat) :
  leadingSpace s = Some n -> (1 <= n <= String.length s)%nat.
Proof.
  unfold leadingSpace.
  destruct (find (fun e => String.prefix e s) spaceEncodings) as [e|] eqn:F;
    [|discriminate].
  intros [= <-]. apply find_some in F as [I P]. split.
  - exact (proj1 (Forall_forall _ _) spaceEncodings_nonempty e I).
  - now apply prefix_length.
Qed.

(** After [trimLeft] no white-space rune is left in front. *)
Lemma trimLeft_done (fuel : nat) (s : string) :
  (String.length s <= fuel)%nat -> leadingSpace (trimLeft fuel s) = None.
Proof.
  revert s; induction fuel as [|fuel IH]; intros s H.
  - destruct s; [reflexivity | simpl in H; lia].
  - cbn [trimLeft]. destruct (leadingSpace s) as [n|] eqn:E; [|exact E].
    apply IH. rewrite length_drop. apply leadingSpace_bounds in E. lia.
Qed.

Lemma length_rev_string (acc s : string) :
  String.length (rev_string acc s) = (String.length acc + String.length s)%nat.
Proof.
  revert acc; induction s as [|c s IH]; intros acc; simpl; [lia|].
  rewrite IH. simpl. lia.
Qed.

Lemma trailingSpace_bounds (r : string) (n : nat) :
  trailingSpace r = Some n -> (1 <= n <= String.length r)%nat.
Proof.
  unfold trailingSpace.
  destruct (find (fun e => String.prefix (reverse e) r) spaceEncodings) as [e|] eqn:F;
    [|discriminate].
  intros [= <-]. apply find_some in F as [I P]. split.
  - exact (proj1 (Forall_forall _ _) spaceEncodings_nonempty e I).
  - apply prefix_length in P. unfold reverse in P.
    rewrite length_rev_string in P. exact P.
Qed.

(** After [trimRightRev] no white-space rune is left at the end. *)
Lemma trimRightRev_done (fuel : nat) (r : string) :
  (String.length r <= fuel)%nat -> trailingSpace (trimRightRev fuel r) = None.
Proof.
  revert r; induction fuel as [|fuel IH]; intros r H.
  - destruct r; [reflexivity | simpl in H; lia].
  - cbn [trimRightRev]. destruct (trailingSpace r) as [n|] eqn:E; [|exact E].
    apply IH. rewrite length_drop. apply trailingSpace_bounds in E. lia.
Qed.

(** Both loops of [TrimSpace] run to their end. *)
Lemma TrimSpace_rounds (s : string) :
  let l := trimLeft (String.length s) s in
  leadingSpace l = None /\
  trailingSpace (trimRightRev (String.length l) (reverse l)) = None.
Proof.
  intros l. split.
  - apply trimLeft_done. lia.
  - apply trimRightRev_done. unfold reverse. rewrite length_rev_string. simpl. lia.
Qed.

(** *** [Split] *)

Lemma Split_nonempty (s : string) (sep : ascii) : Split s sep <> [].
Proof.
  destruct s as [|c s]; simpl; [discriminate|].
  destruct (Ascii.eqb c sep); [discriminate|].
  destruct (Split s sep); discriminate.
Qed.

Lemma Split_head (s : string) (sep : ascii) (l0 : string) (ls : list string) :
  Split s sep = l0 :: ls -> exists b, s = l0 ++ b.
Proof.
  revert l0 ls; induction s as [|d s IH]; intros l0 ls E; simpl in E.
  - injection E as <- <-. now exists "".
  - destruct (Ascii.eqb d sep).
    + injection E as <- <-. now exists (String d s).
    + destruct (Split s sep) as [|l1 ls1] eqn:E1.
      * exfalso. now apply (Split_nonempty s sep).
      * injection E as <- <-.
        destruct (IH _ _ eq_refl) as (b & ->). now exists b.
Qed.

(** Every element of [Split s sep] is a piece of [s]. *)
Lemma Split_substring (s : string) (sep : ascii) (l : string) :
  In l (Split s sep) -> exists a b, s = a ++ l ++ b.
Proof.
  revert l; induction s as [|c s IH]; intros l H; simpl in H.
  - destruct H as [<-|[]]. now exists "", "".
  - destruct (Ascii.eqb c sep).
    + destruct H as [<-|H].
      * now exists "", (String c s).
      * destruct (IH _ H) as (a & b & ->). now exists (String c a), b.
    + destruct (Split s sep) as [|l0 ls] eqn:E.
      * exfalso. now apply (Split_nonempty s sep).
      * destruct H as [<-|H].
        -- destruct (Split_head _ _ _ _ E) as (b' & ->). now exists "", b'.
        -- destruct (IH l (or_intror H)) as (a & b & ->).
           now exists (String c a), b.
Qed.

(** *** Slices *)

Lemma slice_some (s : string) (lo hi : Z) :
  0 <= lo -> lo <= hi -> hi <= len s ->
  slice s lo hi = Some (take (Z.to_nat (hi - lo)) (drop (Z.to_nat lo) s)).
Proof.
  intros H1 H2 H3. unfold slice.
  apply Z.leb_le in H1, H2, H3. now rewrite H1, H2, H3.
Qed.

Lemma slice_to_some (s : string) (hi : Z) :
  0 <= hi -> hi <= len s -> slice_to s hi = Some (take (Z.to_nat hi) s).
Proof.
  intros. unfold slice_to. rewrite slice_some by lia.
  now rewrite Z.sub_0_r.
Qed.

Lemma slice_from_some (s : string) (lo : Z) :
  0 <= lo -> lo <= len s -> slice_from s lo = Some (drop (Z.to_nat lo) s).
Proof.
  intros. unfold slice_from. rewrite slice_some by lia.
  f_equal. apply take_all. rewrite length_drop. unfold len. lia.
Qed.

End StringFacts.

Import StringFacts.

(* ================================================================== *)
(** ** The section locator stays inside the document *)
(* ================================================================== *)

Module LocatorFacts.

Lemma len_drop (n : Z) (s : string) :
  0 <= n -> n <= len s -> len (drop (Z.to_nat n) s) = len s - n.
Proof. intros. unfold len in *. rewrite length_drop. lia. Qed.

Lemma findSectionStart_range (content section : string) :
  findSectionStart content section = -1 \/
  (0 <= findSectionStart content section /\
   findSectionStart content section + 3 + len section <= len content).
Proof.
  unfold findSectionStart.
  destruct (Index_range content ("## " ++ section)) as [H|[H1 H2]]; [now left|right].
  rewrite len_append in H2. change (len "## ") with 3 in H2. lia.
Qed.

(** From a heading that was found, [findSectionEnd] does not panic and
    its result lies between the end of the heading marker and the end of
    the document. *)
Lemma findSectionEnd_total (content : string) (start : Z) :
  0 <= start -> start + 3 <= len content ->
  exists e, findSectionEnd content start = Some e /\
            start + 3 <= e /\ e <= len content.
Proof.
  intros H0 H3. unfold findSectionEnd.
  rewrite slice_from_some by lia.
  set (remaining := drop (Z.to_nat (start + 3)) content).
  assert (L : len remaining = len content - (start + 3))
    by (apply len_drop; lia).
  destruct (find (fun line => HasPrefix line "## ") (Split remaining nl))
    as [line|] eqn:F.
  - apply find_some in F as [Hin _].
    destruct (Split_substring _ _ _ Hin) as (a & b & E).
    pose proof (Index_found a line b) as Hf. rewrite <- E in Hf.
    destruct (Index_range remaining line) as [Hr|[_ Hr]]; [lia|].
    pose proof (len_nonneg line).
    eexists; split; [reflexivity|]. lia.
  - eexists; split; [reflexivity|]. lia.
Qed.

(** [extractSection] never panics. *)
Lemma extractSection_total (content sectionType : string) :
  exists block, extractSection content sectionType = Some block.
Proof.
  unfold extractSection.
  destruct (findSectionStart_range content (capitalize sectionType)) as [H|[H0 H1]].
  - rewrite H. now eexists.
  - destruct (findSectionStart content (capitalize sectionType) =? -1) eqn:E;
      [now eexists|].
    pose proof (len_nonneg (capitalize sectionType)).
    destruct (findSectionEnd_total content _ H0 ltac:(lia)) as (e & -> & He1 & He2).
    destruct (e =? -1); [now eexists|].
    rewrite slice_some by lia. now eexists.
Qed.

(** Without the heading the extracted block is empty. *)
Lemma extractSection_absent (content sectionType : string) :
  findSectionStart content (capitalize sectionType) = -1 ->
  extractSection content sectionType = Some "".
Proof. intros H. unfold extractSection. now rewrite H. Qed.

End LocatorFacts.

Import LocatorFacts.

(* ================================================================== *)
(** ** What each step of the storage engine does to the world *)
(* ================================================================== *)

Module EngineFacts.

Lemma frame_refl (w : World) : frame w w.
Proof. now repeat split. Qed.

Lemma frame_trans (w1 w2 w3 : World) : frame w1 w2 -> frame w2 w3 -> frame w1 w3.
Proof. unfold frame. intros (A & B & C) (D & E & F). repeat split; congruence. Qed.

Lemma nextFault_frame (w : World) : frame w (snd (nextFault w)).
Proof. unfold nextFault. destruct (faults w); now repeat split. Qed.

Lemma slog_frame (l : Level) (m : string) (a : list (string * string)) (w : World) :
  frame w (slog l m a w).
Proof. now repeat split. Qed.

(** Once the faults are used up every system call goes through. *)
Lemma nextFault_nil (w : World) : faults w = [] -> nextFault w = (Pass, w).
Proof. unfold nextFault. now intros ->. Qed.

Create HintDb engine.
#[local] Hint Resolve frame_refl nextFault_frame slog_frame : engine.

Tactic Notation "step_fault" constr(w) "as" ident(f) ident(w1) ident(NF) :=
  pose proof (nextFault_frame w) as NF;
  destruct (nextFault w) as [f w1]; cbn [snd] in NF.

Lemma MkdirAll_spec (path : string) (w : World) :
  frame w (snd (MkdirAll path w)) /\
  (fst (MkdirAll path w) = Ok tt \/ fst (MkdirAll path w) = Err (OSError "mkdir")).
Proof.
  unfold MkdirAll. step_fault w as f w1 NF. destruct f; cbn; auto.
Qed.

Lemma Unlock_frame (w : World) : frame w (snd (Unlock w)).
Proof. unfold Unlock. step_fault w as f w1 NF. destruct f; cbn; auto. Qed.

Lemma deferredUnlock_frame (w : World) : frame w (deferredUnlock Unlock w).
Proof.
  unfold deferredUnlock. pose proof (Unlock_frame w) as F.
  destruct (Unlock w) as [[[]|e|] w1]; cbn [snd] in F; auto;
    eapply frame_trans; eauto with engine.
Qed.

(** [acquireLock] leaves the store alone; it hands back [Unlock] or
    fails with an error. *)
Lemma acquireLock_spec (r : MarkdownMemoryRepository) (ctx : Context) (w : World) :
  frame w (snd (acquireLock r ctx w)) /\
  (fst (acquireLock r ctx w) = Ok Unlock \/
   exists e, fst (acquireLock r ctx w) = Err e /\ lockError e).
Proof.
  unfold acquireLock, bind, EnsureDir.
  destruct (MkdirAll_spec (DirPath r) w) as [F [E|E]];
    destruct (MkdirAll (DirPath r) w) as [res w1]; cbn [fst snd] in *; subst res.
  - unfold lockOrCancel, lockError. step_fault w1 as f w2 NF.
    destruct f, ctx; cbn; (split; [eapply frame_trans; eauto|]); eauto 6.
  - unfold lockError. cbn. eauto 6.
Qed.

Lemma readFile_spec (r : MarkdownMemoryRepository) (w : World) :
  frame w (snd (readFile r w)) /\
  match fst (readFile r w) with
  | Ok content => content = stored r w
  | Err e => readError e
  | Panic => False
  end.
Proof.
  unfold readFile, bind, EnsureDir, readError, stored.
  destruct (MkdirAll_spec (DirPath r) w) as [F [E|E]];
    destruct (MkdirAll (DirPath r) w) as [res w1]; cbn [fst snd] in *; subst res.
  - unfold ReadFile. step_fault w1 as f w2 NF.
    pose proof (frame_trans _ _ _ F NF) as Fw.
    destruct Fw as (Ff & _).
    destruct f; cbn; rewrite ?Ff;
      try (split; [eapply frame_trans; eauto | now auto]).
    destruct (files w (FilePath r)); cbn;
      (split; [eapply frame_trans; eauto | auto]).
  - cbn. auto.
Qed.

(** *** The atomic write *)

Lemma update_same (fs : Files) (p : string) (v : option string) :
  update fs p v p = v.
Proof. unfold update. now rewrite String.eqb_refl. Qed.

Lemma update_other (fs : Files) (p q : string) (v : option string) :
  String.eqb q p = false -> update fs p v q = fs q.
Proof. unfold update. now intros ->. Qed.

Lemma real_neq_tmp (r : MarkdownMemoryRepository) :
  String.eqb (FilePath r) (FilePath r ++ ".tmp") = false.
Proof.
  apply String.eqb_neq. intros E.
  apply (f_equal String.length) in E. rewrite length_append in E.
  simpl in E. lia.
Qed.

(** The state of the store after [Remove path]: [path] is gone when
    the call goes through and is kept when it fails, other paths are
    kept, and at most one new state enters the history. *)
Lemma Remove_spec (path : string) (w : World) :
  files (Remove path w) path
  = (if passes (fst (nextFault w)) then None else files w path) /\
  (forall q, String.eqb q path = false -> files (Remove path w) q = files w q) /\
  clock (Remove path w) = clock w /\
  (history (Remove path w) = history w \/
   history (Remove path w) = files (Remove path w) :: history w).
Proof.
  unfold Remove. step_fault w as f w1 NF. destruct NF as (Ff & Fc & Fh).
  cbn [fst].
  assert (Kept : files w1 path = files w path /\
                 (forall q, String.eqb q path = false -> files w1 q = files w q) /\
                 clock w1 = clock w /\
                 (history w1 = history w \/ history w1 = files w1 :: history w))
    by (rewrite Ff; auto).
  destruct f; cbn [passes]; try exact Kept.
  destruct (files w1 path) eqn:E; cbn [files clock history setFiles].
  - rewrite update_same. split; [reflexivity|]. split; [|split; [exact Fc|]].
    + intros q Q. rewrite update_other by exact Q. now rewrite Ff.
    + right. now rewrite Fh.
  - split; [exact E|]. apply Kept.
Qed.

Section AtomicWrite.

Ltac forall_left :=
  repeat (apply Forall_cons; [left|]); try apply Forall_nil.


Variable r : MarkdownMemoryRepository.
Variable content : string.
Variable w : World.

Let real := FilePath r.
Let tmp := (FilePath r ++ ".tmp")%string.

Ltac rename_failed :=
  match goal with
  | NE : String.eqb ?real ?tmp = false, Gf : files ?w3 = files ?w2,
    Gh : history ?w3 = history ?w2, W2h : history ?w2 = _ |- _ =>
      let R1 := fresh in let R2 := fresh in let R3 := fresh in
      let R4 := fresh in
      destruct (Remove_spec tmp w3) as (R1 & R2 & R3 & R4);
      split; [congruence|]; split;
      [ destruct R4 as [R4|R4]; rewrite R4, Gh, W2h;
        [ exists [files w2]; split; [reflexivity|]; forall_left; auto
        | eexists [_; _]; split; [reflexivity|]; forall_left; auto;
          rewrite R2 by exact NE; now rewrite Gf ]
      | rewrite R2 by exact NE; rewrite Gf; repeat split; eauto ]
  end.

Lemma atomicWrite_spec :
  let res := fst (atomicWrite r content w) in
  let w' := snd (atomicWrite r content w) in
  clock w' = clock w /\
  (exists new, history w' = app new (history w) /\
     Forall (untorn r content w res) new) /\
  match res with
  | Ok _ => files w' real = Some content /\ files w' tmp = None
  | Err e =>
      files w' real = files w real /\
      exists cause, e = Errorf "failed to write temp file: " cause "" \/
                    e = Errorf "failed to rename temp file: " cause ""
  | Panic => False
  end.
Proof.
  pose proof (real_neq_tmp r) as NE.
  assert (NE' : String.eqb tmp real = false) by (subst tmp real; now rewrite String.eqb_sym).
  unfold untorn. subst real tmp. unfold atomicWrite.
  remember (FilePath r) as real eqn:Hreal.
  remember (real ++ ".tmp")%string as tmp eqn:Htmp.
  cbv zeta. unfold WriteFile.
  step_fault w as f w1 NF. destruct NF as (Ff & Fc & Fh).
  destruct f.
  - (* the temporary file is written *)
    remember (setFiles (update (files w1) tmp (Some content)) w1) as w2 eqn:Hw2.
    assert (W2f : files w2 = update (files w1) tmp (Some content)) by now subst w2.
    assert (W2c : clock w2 = clock w) by now subst w2.
    assert (W2h : history w2 = files w2 :: history w) by (subst w2; cbn; now rewrite Fh).
    assert (W2r : files w2 real = files w real)
      by (rewrite W2f, update_other by exact NE; now rewrite Ff).
    clear Hw2.
    cbn [fst snd]. unfold Rename.
    step_fault w2 as g w3 NG. destruct NG as (Gf & Gc & Gh).
    assert (T : files w3 tmp = Some content)
      by (rewrite Gf, W2f; apply update_same).
    rewrite T.
    destruct g; cbn [fst snd].
    + cbn [files clock history setFiles].
      rewrite update_other by exact NE. rewrite !update_same.
      split; [congruence|]. split; [|auto].
      eexists [_; _]. split; [cbn; rewrite Gh, W2h; reflexivity|].
      apply Forall_cons; [|apply Forall_cons; [|apply Forall_nil]].
      * right. split; [reflexivity|].
        rewrite update_other by exact NE. apply update_same.
      * now left.
    + rename_failed.
    + rename_failed.
    + rename_failed.
  - (* the write fails before anything is written *)
    cbn [fst snd].
    destruct (Remove_spec tmp w1) as (R1 & R2 & R3 & R4).
    split; [congruence|]. split.
    + destruct R4 as [R4|R4]; rewrite R4, Fh.
      * exists []. split; [reflexivity | apply Forall_nil].
      * eexists [_]. split; [reflexivity|]. forall_left.
        rewrite R2 by exact NE. now rewrite Ff.
    + rewrite R2 by exact NE. rewrite Ff. repeat split; eauto.
  - (* the write fails half-way *)
    remember (setFiles (update (files w1) tmp (Some residue)) w1) as w2 eqn:Hw2.
    assert (W2r : files w2 real = files w real)
      by (subst w2; cbn; rewrite update_other by exact NE; now rewrite Ff).
    assert (W2c : clock w2 = clock w) by now subst w2.
    assert (W2h : history w2 = files w2 :: history w) by (subst w2; cbn; now rewrite Fh).
    clear Hw2. cbn [fst snd].
    destruct (Remove_spec tmp w2) as (R1 & R2 & R3 & R4).
    split; [congruence|]. split.
    + destruct R4 as [R4|R4]; rewrite R4, W2h.
      * eexists [_]. split; [reflexivity|]. forall_left. exact W2r.
      * eexists [_; _]. split; [reflexivity|]. forall_left; auto.
        now rewrite R2 by exact NE.
    + rewrite R2 by exact NE. repeat split; eauto.
  - cbn [fst snd].
    destruct (Remove_spec tmp w1) as (R1 & R2 & R3 & R4).
    split; [congruence|]. split.
    + destruct R4 as [R4|R4]; rewrite R4, Fh.
      * exists []. split; [reflexivity | apply Forall_nil].
      * eexists [_]. split; [reflexivity|]. forall_left.
        rewrite R2 by exact NE. now rewrite Ff.
    + rewrite R2 by exact NE. rewrite Ff. repeat split; eauto.
Qed.
End AtomicWrite.

(** *** The faults the calls of a run meet *)

Lemma nextFault_meets (w : World) : nextFault w = (meets w 0, afterCalls 1 w).
Proof. destruct w as [fs c [|f l] lg h]; reflexivity. Qed.

Lemma meets_skip (n k : nat) (w w1 : World) :
  faults w1 = skipn n (faults w) -> meets w1 k = meets w (n + k).
Proof.
  unfold meets. intros ->. generalize (faults w).
  induction n as [|n IH]; intros l; [reflexivity|].
  destruct l as [|f l]; cbn [skipn Nat.add nth].
  - now destruct k.
  - apply IH.
Qed.

Lemma afterCalls_afterCalls (n m : nat) (w : World) :
  afterCalls n (afterCalls m w) = afterCalls (n + m) w.
Proof.
  unfold afterCalls. cbn [files clock faults logged history].
  now rewrite skipn_skipn.
Qed.

(** What [atomicWrite] leaves at the temporary path when it fails.  The
    write is its first call; when the write fails the removal is its
    second call, and when the rename fails, its third.  The removal
    clears the path when it goes through and leaves what the failed
    step put there when it does not. *)
Lemma atomicWrite_tmp (r : MarkdownMemoryRepository) (content : string)
    (w : World) (cause : error) :
  fst (atomicWrite r content w) = Err cause ->
  (if passes (meets w 0)
   then cause = Errorf "failed to rename temp file: " (OSError "rename") ""
   else exists c0, cause = Errorf "failed to write temp file: " c0 "") /\
  files (snd (atomicWrite r content w)) (FilePath r ++ ".tmp") =
  if passes (meets w (if passes (meets w 0) then 2 else 1)) then None
  else match meets w 0 with
       | Pass => Some content
       | FailPartial residue => Some residue
       | _ => files w (FilePath r ++ ".tmp")
       end.
Proof.
  unfold atomicWrite.
  remember (FilePath r ++ ".tmp")%string as tmp eqn:Htmp.
  unfold WriteFile. rewrite nextFault_meets.
  destruct (meets w 0) eqn:M0; cbn [fst snd passes].
  - unfold Rename. rewrite nextFault_meets.
    rewrite (meets_skip 1 0 w) by reflexivity.
    cbn [files setFiles afterCalls]. rewrite update_same.
    destruct (meets w (1 + 0)) eqn:M1; cbn [fst snd]; [discriminate| | |];
      intros [= <-]; (split; [reflexivity|]);
      match goal with |- files (Remove tmp ?wx) tmp = _ =>
        destruct (Remove_spec tmp wx) as (R & _); rewrite R, nextFault_meets;
        cbn [fst];
        rewrite (meets_skip 2 0 w)
          by (cbn [faults setFiles afterCalls]; apply (skipn_skipn 1 1));
        cbn [files setFiles afterCalls]; now rewrite update_same
      end.
  - intros [= <-]. split; [eauto|].
    destruct (Remove_spec tmp (afterCalls 1 w)) as (R & _).
    rewrite R, nextFault_meets. cbn [fst].
    now rewrite (meets_skip 1 0 w) by reflexivity.
  - intros [= <-]. split; [eauto|].
    match goal with |- files (Remove tmp ?wx) tmp = _ =>
      destruct (Remove_spec tmp wx) as (R & _); rewrite R, nextFault_meets;
      cbn [fst]; rewrite (meets_skip 1 0 w) by reflexivity;
      cbn [files setFiles afterCalls]; now rewrite update_same
    end.
  - intros [= <-]. split; [eauto|].
    destruct (Remove_spec tmp (afterCalls 1 w)) as (R & _).
    rewrite R, nextFault_meets. cbn [fst].
    now rewrite (meets_skip 1 0 w) by reflexivity.
Qed.

(** *** One run of [AppendEntry] *)

Lemma Now_frame (tp : TimeProvider) (w w1 : World) :
  frame w w1 -> Now tp w1 = Now tp w.
Proof. intros (_ & C & _). destruct tp; cbn; congruence. Qed.

Lemma stored_frame (r : MarkdownMemoryRepository) (w w1 : World) :
  frame w w1 -> stored r w1 = stored r w.
Proof. intros (F & _). unfold stored. now rewrite F. Qed.

Lemma workingDocument_frame (r : MarkdownMemoryRepository) (w w1 : World) :
  frame w w1 -> workingDocument r w1 = workingDocument r w.
Proof.
  intros F. unfold workingDocument.
  now rewrite (stored_frame _ _ _ F), (Now_frame _ _ _ F).
Qed.

(** A run either stops before the write phase, leaving the store as it
    was, or reaches the atomic write with the spliced document. *)
Lemma AppendEntry_run (r : MarkdownMemoryRepository) (ctx : Context)
    (st : SectionType) (entry : Entry) (w : World) (res : Result unit) (w' : World) :
  AppendEntry r ctx st entry w = (res, w') ->
  (exists e, res = Err e /\ frame w w' /\ ~ writeFailure e /\
     (lockError e \/ readError e \/
      (e = ErrorfPlain ("section not found: " ++ capitalize st) /\
       exists w1, frame w w1 /\
         findSectionStart (workingDocument r w1) (capitalize st) = -1)))
  \/
  (exists w1 end_,
     frame w w1 /\
     let D := workingDocument r w1 in
     findSectionStart D (capitalize st) <> -1 /\
     findSectionEnd D (findSectionStart D (capitalize st)) = Some end_ /\
     let aw := atomicWrite r (spliced D end_ entry) w1 in
     frame (snd aw) w' /\
     res = match fst aw with
           | Ok _ => Ok tt
           | Err e => Err (Errorf "failed to write memory file: " e "")
           | Panic => Panic
           end).
Proof.
  cbv zeta. unfold AppendEntry. unfold bind at 1.
  destruct (acquireLock_spec r ctx w) as [FA HA].
  destruct (acquireLock r ctx w) as [ra wa]. cbn [fst snd] in *.
  destruct HA as [->|(e & -> & He)].
  2:{ intros [= <- <-]. left. exists e.
      split; [reflexivity|]. split; [exact FA|]. split; [|now left].
      intros (c & ->). unfold lockError in He. intuition discriminate. }
  unfold defer. unfold bind at 1.
  destruct (readFile_spec r wa) as [FR HR].
  destruct (readFile r wa) as [rr wb]. cbn [fst snd] in *.
  assert (Fwb : frame w wb) by (eapply frame_trans; eauto).
  destruct rr as [c|e|]; [| |contradiction].
  2:{ intros [= <- <-]. left. exists e.
      split; [reflexivity|].
      split; [eapply frame_trans; [exact Fwb | apply deferredUnlock_frame]|].
      split; [|now auto].
      intros (c & ->). unfold readError in HR. intuition discriminate. }
  assert (Hc : c = stored r wb).
  { rewrite HR. unfold stored. destruct FR as (-> & _). reflexivity. }
  clear HR.
  (* the working document *)
  assert (HD : (if String.eqb c "" then createInitialContent r else ret c) wb
               = (Ok (workingDocument r wb), wb)).
  { unfold workingDocument. rewrite <- Hc. now destruct (String.eqb c ""). }
  unfold bind at 1. rewrite HD. clear HD.
  set (D := workingDocument r wb).
  destruct (findSectionStart D (capitalize st) =? -1) eqn:S.
  - apply Z.eqb_eq in S. cbn. intros [= <- <-]. left. eexists.
    split; [reflexivity|].
    split; [eapply frame_trans; [exact Fwb | apply deferredUnlock_frame]|].
    split; [intros (x & X); discriminate|].
    right; right. split; [reflexivity|]. exists wb. auto.
  - apply Z.eqb_neq in S.
    destruct (findSectionStart_range D (capitalize st)) as [?|[S0 S1]]; [contradiction|].
    pose proof (len_nonneg (capitalize st)).
    destruct (findSectionEnd_total D _ S0 ltac:(lia)) as (e & E & E1 & E2).
    unfold bind at 1. rewrite E. cbn [orPanic ret].
    unfold bind at 1. rewrite slice_to_some by lia. cbn [orPanic ret].
    unfold bind at 1. rewrite slice_some by lia. cbn [orPanic ret].
    unfold bind at 1. rewrite slice_from_some by lia. cbn [orPanic ret].
    set (start := findSectionStart D (capitalize st)) in *.
    replace (take (Z.to_nat start) D
             ++ take (Z.to_nat (e - start)) (drop (Z.to_nat start) D)
             ++ renderEntry entry ++ LF ++ drop (Z.to_nat e) D)
      with (spliced D e entry).
    2:{ unfold spliced. rewrite <- (append_assoc (take (Z.to_nat start) D)).
        replace (Z.to_nat (e - start)) with (Z.to_nat e - Z.to_nat start)%nat by lia.
        now rewrite take_split by lia. }
    destruct (atomicWrite r (spliced D e entry) wb) as [ar wc] eqn:AW.
    destruct ar as [[]|err|]; intros [= <- <-]; right; exists wb, e;
      fold D; fold start; rewrite AW; cbn [fst snd];
      (split; [exact Fwb|]); (split; [exact S|]); (split; [exact E|]);
      (split; [|reflexivity]); try apply deferredUnlock_frame.
    eapply frame_trans; [apply slog_frame | apply deferredUnlock_frame].
Qed.

(** The same, with the working document read off the initial world. *)
Lemma AppendEntry_cases (r : MarkdownMemoryRepository) (ctx : Context)
    (st : SectionType) (entry : Entry) (w : World) (res : Result unit) (w' : World) :
  AppendEntry r ctx st entry w = (res, w') ->
  let D := workingDocument r w in
  let start := findSectionStart D (capitalize st) in
  (exists e, res = Err e /\ frame w w' /\ ~ writeFailure e /\
     (lockError e \/ readError e \/
      (e = ErrorfPlain ("section not found: " ++ capitalize st) /\ start = -1)))
  \/
  (exists w1 end_,
     frame w w1 /\ start <> -1 /\ findSectionEnd D start = Some end_ /\
     let aw := atomicWrite r (spliced D end_ entry) w1 in
     frame (snd aw) w' /\
     res = match fst aw with
           | Ok _ => Ok tt
           | Err e => Err (Errorf "failed to write memory file: " e "")
           | Panic => Panic
           end).
Proof.
  intros H. apply AppendEntry_run in H. cbv zeta in *.
  destruct H as [(e & -> & F & NW & H)|(w1 & end_ & F & S & E & FA & R)].
  - left. exists e. repeat (split; [assumption || reflexivity|]).
    destruct H as [H|[H|(-> & w1 & F1 & S)]]; auto.
    right; right. split; [reflexivity|].
    now rewrite <- (workingDocument_frame r w w1 F1).
  - right. exists w1, end_.
    rewrite (workingDocument_frame r w w1 F) in *. auto.
Qed.

(** *** The world in which the atomic write runs *)

Lemma afterCalls_frame (n : nat) (w : World) : frame w (afterCalls n w).
Proof. now repeat split. Qed.

Lemma acquireLock_exact (r : MarkdownMemoryRepository) (ctx : Context)
    (w : World) (u : M unit) (w1 : World) :
  acquireLock r ctx w = (Ok u, w1) -> u = Unlock /\ w1 = afterCalls 2 w.
Proof.
  unfold acquireLock, bind, EnsureDir, MkdirAll, lockOrCancel.
  rewrite nextFault_meets. destruct (meets w 0); try discriminate.
  rewrite nextFault_meets, afterCalls_afterCalls.
  destruct (meets (afterCalls 1 w) 0), ctx; try discriminate;
    intros [= <- <-]; auto.
Qed.

Lemma readFile_exact (r : MarkdownMemoryRepository) (w : World)
    (c : string) (w1 : World) :
  readFile r w = (Ok c, w1) -> c = stored r w /\ w1 = afterCalls 2 w.
Proof.
  unfold readFile, bind, EnsureDir, MkdirAll, ReadFile, stored.
  rewrite nextFault_meets. destruct (meets w 0); try discriminate.
  rewrite nextFault_meets, afterCalls_afterCalls.
  destruct (meets (afterCalls 1 w) 0); cbn [files afterCalls]; try discriminate.
  destruct (files w (FilePath r)); intros [= <- <-]; auto.
Qed.

(** A run that fails in the write phase has made four system calls
    before [atomicWrite], each of which went through, and one after it,
    the unlock. *)
Lemma AppendEntry_write_failure (r : MarkdownMemoryRepository) (ctx : Context)
    (st : SectionType) (entry : Entry) (w : World) (cause : error) (w' : World) :
  AppendEntry r ctx st entry w
  = (Err (Errorf "failed to write memory file: " cause ""), w') ->
  exists end_,
    findSectionEnd (workingDocument r w)
      (findSectionStart (workingDocument r w) (capitalize st)) = Some end_ /\
    let aw := atomicWrite r (spliced (workingDocument r w) end_ entry)
                (afterCalls 4 w) in
    fst aw = Err cause /\ files w' = files (snd aw).
Proof.
  cbv zeta. unfold AppendEntry. unfold bind at 1.
  destruct (acquireLock_spec r ctx w) as [_ HA].
  destruct (acquireLock r ctx w) as [ra wa] eqn:AL. cbn [fst] in HA.
  destruct HA as [->|(e & -> & He)].
  2:{ intros [= -> _]. unfold lockError in He. intuition discriminate. }
  apply acquireLock_exact in AL as (_ & ->).
  unfold defer. unfold bind at 1.
  destruct (readFile_spec r (afterCalls 2 w)) as [_ HR].
  destruct (readFile r (afterCalls 2 w)) as [rr wb] eqn:RF. cbn [fst] in HR.
  destruct rr as [c|e|]; [| |contradiction].
  2:{ intros [= -> _]. unfold readError in HR. intuition discriminate. }
  apply readFile_exact in RF as (Hc & ->).
  rewrite afterCalls_afterCalls. cbn [Nat.add].
  pose proof (afterCalls_frame 4 w) as F4.
  assert (Hc' : c = stored r (afterCalls 4 w)) by exact Hc.
  clear HR Hc.
  assert (HD : (if String.eqb c "" then createInitialContent r else ret c)
                 (afterCalls 4 w)
               = (Ok (workingDocument r w), afterCalls 4 w)).
  { rewrite <- (workingDocument_frame r w _ F4).
    unfold workingDocument. rewrite <- Hc'. now destruct (String.eqb c ""). }
  unfold bind at 1. rewrite HD. clear HD.
  set (D := workingDocument r w).
  destruct (findSectionStart D (capitalize st) =? -1) eqn:S.
  - cbn. intros [=].
  - apply Z.eqb_neq in S.
    destruct (findSectionStart_range D (capitalize st)) as [?|[S0 S1]]; [contradiction|].
    pose proof (len_nonneg (capitalize st)).
    destruct (findSectionEnd_total D _ S0 ltac:(lia)) as (e & E & E1 & E2).
    unfold bind at 1. rewrite E. cbn [orPanic ret].
    unfold bind at 1. rewrite slice_to_some by lia. cbn [orPanic ret].
    unfold bind at 1. rewrite slice_some by lia. cbn [orPanic ret].
    unfold bind at 1. rewrite slice_from_some by lia. cbn [orPanic ret].
    set (start := findSectionStart D (capitalize st)) in *.
    replace (take (Z.to_nat start) D
             ++ take (Z.to_nat (e - start)) (drop (Z.to_nat start) D)
             ++ renderEntry entry ++ LF ++ drop (Z.to_nat e) D)
      with (spliced D e entry).
    2:{ unfold spliced. rewrite <- (append_assoc (take (Z.to_nat start) D)).
        replace (Z.to_nat (e - start)) with (Z.to_nat e - Z.to_nat start)%nat by lia.
        now rewrite take_split by lia. }
    destruct (atomicWrite r (spliced D e entry) (afterCalls 4 w)) as [ar wc] eqn:AW.
    destruct ar as [[]|err|]; intros [= <- <-]. exists e.
    split; [reflexivity|]. rewrite AW. cbn [fst snd]. split; [reflexivity|].
    apply deferredUnlock_frame.
Qed.

(** *** Runs without faults *)

Lemma MkdirAll_nofault (path : string) (w : World) :
  faults w = [] -> MkdirAll path w = (Ok tt, w).
Proof. intros H. unfold MkdirAll. now rewrite nextFault_nil. Qed.

Lemma acquireLock_nofault (r : MarkdownMemoryRepository) (ctx : Context) (w : World) :
  faults w = [] -> acquireLock r ctx w = (Ok Unlock, w).
Proof.
  intros H. unfold acquireLock, bind, EnsureDir, lockOrCancel.
  rewrite MkdirAll_nofault by assumption. now rewrite nextFault_nil.
Qed.

Lemma readFile_nofault (r : MarkdownMemoryRepository) (w : World) :
  faults w = [] -> readFile r w = (Ok (stored r w), w).
Proof.
  intros H. unfold readFile, bind, EnsureDir, ReadFile, stored.
  rewrite MkdirAll_nofault by assumption. rewrite nextFault_nil by assumption.
  now destruct (files w (FilePath r)).
Qed.

Lemma atomicWrite_nofault (r : MarkdownMemoryRepository) (content : string) (w : World) :
  faults w = [] -> fst (atomicWrite r content w) = Ok tt.
Proof.
  intros H. unfold atomicWrite, WriteFile, Rename.
  rewrite nextFault_nil by assumption. rewrite nextFault_nil by assumption.
  cbn [files setFiles]. now rewrite update_same.
Qed.

(** Without faults a run fails only for want of the section heading. *)
Lemma AppendEntry_nofault (r : MarkdownMemoryRepository) (ctx : Context)
    (st : SectionType) (entry : Entry) (w : World) :
  faults w = [] ->
  fst (AppendEntry r ctx st entry w) =
  if findSectionStart (workingDocument r w) (capitalize st) =? -1
  then Err (ErrorfPlain ("section not found: " ++ capitalize st))
  else Ok tt.
Proof.
  intros NF. unfold AppendEntry. unfold bind at 1.
  rewrite acquireLock_nofault by assumption.
  unfold defer. unfold bind at 1. rewrite readFile_nofault by assumption.
  assert (HD : (if String.eqb (stored r w) "" then createInitialContent r
                else ret (stored r w)) w = (Ok (workingDocument r w), w)).
  { unfold workingDocument. now destruct (String.eqb (stored r w) ""). }
  unfold bind at 1. rewrite HD. clear HD.
  set (D := workingDocument r w).
  destruct (findSectionStart D (capitalize st) =? -1) eqn:S; [reflexivity|].
  apply Z.eqb_neq in S.
  destruct (findSectionStart_range D (capitalize st)) as [?|[S0 S1]]; [contradiction|].
  pose proof (len_nonneg (capitalize st)).
  destruct (findSectionEnd_total D _ S0 ltac:(lia)) as (e & E & E1 & E2).
  unfold bind at 1. rewrite E. cbn [orPanic ret].
  unfold bind at 1. rewrite slice_to_some by lia. cbn [orPanic ret].
  unfold bind at 1. rewrite slice_some by lia. cbn [orPanic ret].
  unfold bind at 1. rewrite slice_from_some by lia. cbn [orPanic ret].
  match goal with |- context [atomicWrite r ?c w] =>
    pose proof (atomicWrite_nofault r c w NF) as A;
    destruct (atomicWrite r c w) as [ar wa] end.
  cbn [fst] in A. subst ar. reflexivity.
Qed.

End EngineFacts.

Import EngineFacts.

(* ================================================================== *)
(** ** The synthesized document *)
(* ================================================================== *)

Module InitialDocument.

Lemma noChar_uint (u : Decimal.uint) : noChar hash (NilEmpty.string_of_uint u) = true.
Proof. induction u; cbn; auto. Qed.

Lemma noChar_zeros (n : nat) : noChar hash (zeros n) = true.
Proof. induction n; cbn; auto. Qed.

Lemma noChar_appendInt (x : Z) (width : nat) : noChar hash (appendInt x width) = true.
Proof.
  unfold appendInt, digits. rewrite !noChar_append, noChar_zeros, noChar_uint.
  now destruct (x <? 0).
Qed.

Lemma noChar_formatZone (off : Z) : noChar hash (formatZone off) = true.
Proof.
  unfold formatZone. destruct (off =? 0); [reflexivity|].
  rewrite !noChar_append, !noChar_appendInt. now destruct (off <? 0).
Qed.

(** A formatted timestamp holds no [#]. *)
Lemma noChar_FormatRFC3339 (t : Time) : noChar hash (FormatRFC3339 t) = true.
Proof.
  unfold FormatRFC3339.
  now rewrite !noChar_append, !noChar_appendInt, noChar_formatZone.
Qed.

Lemma initialDocument_split (now : string) :
  initialDocument now = frontMatter now ++ headings.
Proof.
  unfold initialDocument, frontMatter, headings.
  repeat (rewrite ?append_assoc; cbn [append]; try reflexivity; f_equal).
Qed.

Lemma noChar_frontMatter (now : string) :
  noChar hash now = true -> noChar hash (frontMatter now) = true.
Proof.
  intros H. unfold frontMatter. rewrite !noChar_append, H. reflexivity.
Qed.

End InitialDocument.
Import InitialDocument.

Module FreshStore.

(** The locator skips the front matter. *)
Lemma findSectionStart_front (pre post section : string) :
  noChar hash pre = true ->
  findSectionStart (pre ++ post) section =
  if findSectionStart post section =? -1 then -1
  else len pre + findSectionStart post section.
Proof.
  intros H. unfold findSectionStart.
  change ("## " ++ section) with (String hash ("# " ++ section)).
  destruct (Index_range post (String hash ("# " ++ section))) as [E|[E _]].
  - rewrite E. cbn. now apply Index_skip_none.
  - rewrite (Index_skip _ _ _ _ H E).
    destruct (Index post (String hash ("# " ++ section)) =? -1) eqn:Q; [|reflexivity].
    apply Z.eqb_eq in Q. lia.
Qed.

Lemma findSectionEnd_front (pre post : string) (k : Z) :
  0 <= k ->
  findSectionEnd (pre ++ post) (len pre + k) =
  option_map (Z.add (len pre)) (findSectionEnd post k).
Proof.
  intros K. unfold findSectionEnd, slice_from, slice.
  pose proof (len_nonneg pre) as P. rewrite len_append.
  replace (0 <=? len pre + k + 3) with true by (symmetry; apply Z.leb_le; lia).
  replace (0 <=? k + 3) with true by (symmetry; apply Z.leb_le; lia).
  replace (len pre + k + 3 <=? len pre + len post) with (k + 3 <=? len post)
    by (destruct (k + 3 <=? len post) eqn:Q; symmetry;
        [apply Z.leb_le in Q; apply Z.leb_le | apply Z.leb_gt in Q; apply Z.leb_gt]; lia).
  rewrite !Z.leb_refl.
  destruct (k + 3 <=? len post) eqn:Q; cbn [andb]; [|reflexivity].
  apply Z.leb_le in Q.
  replace (Z.to_nat (len pre + k + 3)) with (String.length pre + Z.to_nat (k + 3))%nat
    by (unfold len; lia).
  rewrite drop_app.
  replace (Z.to_nat (len pre + len post - (len pre + k + 3)))
    with (Z.to_nat (len post - (k + 3))) by lia.
  set (remaining := take _ _).
  destruct (find (fun line => HasPrefix line "## ") (Split remaining nl));
    cbn [option_map]; f_equal; lia.
Qed.

Lemma take_front (pre post : string) (e : Z) :
  0 <= e ->
  take (Z.to_nat (len pre + e)) (pre ++ post) = pre ++ take (Z.to_nat e) post.
Proof.
  intros E. replace (Z.to_nat (len pre + e)) with (String.length pre + Z.to_nat e)%nat
    by (unfold len; lia).
  apply take_app.
Qed.

Lemma drop_front (pre post : string) (e : Z) :
  0 <= e ->
  drop (Z.to_nat (len pre + e)) (pre ++ post) = drop (Z.to_nat e) post.
Proof.
  intros E. replace (Z.to_nat (len pre + e)) with (String.length pre + Z.to_nat e)%nat
    by (unfold len; lia).
  apply drop_app.
Qed.

Section Fresh.

Variable r : MarkdownMemoryRepository.
Variable w : World.
Hypothesis empty : stored r w = "".

Let now := FormatRFC3339 (Now (timeProvider r) w).

Lemma workingDocument_fresh :
  workingDocument r w = frontMatter now ++ headings.
Proof.
  unfold workingDocument. rewrite empty. cbn [String.eqb].
  apply initialDocument_split.
Qed.

Lemma findSectionStart_fresh (section : string) :
  findSectionStart (workingDocument r w) section =
  if findSectionStart headings section =? -1 then -1
  else len (frontMatter now) + findSectionStart headings section.
Proof.
  rewrite workingDocument_fresh. apply findSectionStart_front.
  apply noChar_frontMatter, noChar_FormatRFC3339.
Qed.

(** Appending to a store without a document, when the heading sits at
    offset [k] of the four headings and the section ends at offset [e]:
    a run that succeeds leaves the front matter, the headings up to
    [e], the entry, and the rest of the headings. *)
Lemma AppendEntry_fresh (ctx : Context) (st : SectionType) (entry : Entry)
    (k e : Z) (w' : World) :
  findSectionStart headings (capitalize st) = k -> 0 <= k ->
  findSectionEnd headings k = Some e -> 0 <= e ->
  AppendEntry r ctx st entry w = (Ok tt, w') ->
  files w' (FilePath r) =
  Some (frontMatter now ++ take (Z.to_nat e) headings
        ++ renderEntry entry ++ LF ++ drop (Z.to_nat e) headings).
Proof.
  intros Hk K He E Run.
  apply AppendEntry_cases in Run. cbv zeta in Run.
  destruct Run as [(x & X & _)|(w1 & end_ & F & S & En & FA & R)]; [discriminate|].
  rewrite findSectionStart_fresh, Hk in En.
  replace (k =? -1) with false in En by (symmetry; apply Z.eqb_neq; lia).
  rewrite workingDocument_fresh in En.
  rewrite findSectionEnd_front in En by exact K.
  rewrite He in En.
  unfold option_map in En.
  assert (Een : end_ = len (frontMatter now) + e) by congruence.
  clear En. subst end_.
  set (content := spliced (workingDocument r w) (len (frontMatter now) + e) entry) in *.
  pose proof (atomicWrite_spec r content w1) as (_ & _ & A).
  cbv zeta in A.
  destruct (fst (atomicWrite r content w1)) as [[]|err|]; try discriminate.
  subst content.
  destruct A as (A & _). destruct FA as (FA & _). rewrite FA, A.
  unfold spliced. rewrite workingDocument_fresh.
  rewrite take_front, drop_front by exact E.
  now rewrite append_assoc.
Qed.
End Fresh.

End FreshStore.
Import FreshStore.

(* ================================================================== *)
(** ** The empty category and the fresh store *)
(* ================================================================== *)

Section EmptyCategory.

Variable r : MarkdownMemoryRepository.
Variable ctx : Context.

(** With the category check out of the way, an input within the length
    limits whose content passes [ValidateContent] is accepted. *)
Lemma ValidateInput_accepts (input : AppendInput) :
  IsValid (if String.eqb (Category input) "" then "note" else Category input) = true ->
  1 <= len (InTag input) <= 50 ->
  1 <= len (InContent input) <= 2000 ->
  ValidateContent (InContent input) = None ->
  len (InRationale input) <= 500 ->
  ValidateInput input = None.
Proof.
  intros V T C VC R. unfold ValidateInput.
  destruct (String.eqb (Category input) "");
    cbn [Category InTag InContent InRationale withCategory];
    rewrite V; cbn [negb];
    replace (len (InTag input) =? 0) with false by (symmetry; apply Z.eqb_neq; lia);
    replace (50 <? len (InTag input)) with false by (symmetry; apply Z.ltb_ge; lia);
    replace (len (InContent input) =? 0) with false by (symmetry; apply Z.eqb_neq; lia);
    replace (2000 <? len (InContent input)) with false by (symmetry; apply Z.ltb_ge; lia);
    rewrite VC;
    replace (500 <? len (InRationale input)) with false by (symmetry; apply Z.ltb_ge; lia);
    reflexivity.
Qed.

(** C10.  An input with the empty category: [ValidateInput] treats it as
    [note] and so lets it through; [AppendMemory] hands the empty
    category on; it capitalizes to the empty string, the heading
    searched for is [## ], and on a store without a document the entry
    is spliced at the end of the Constraints section, the run succeeding
    when no system call fails. *)
Theorem empty_category_lands_in_constraints
    (input : AppendInput) (id : string) (now : Time) (w : World) :
  Category input = "" ->
  stored r w = "" ->
  faults w = [] ->
  ValidateInput input = ValidateInput (withCategory input "note") /\
  (1 <= len (InTag input) <= 50 -> 1 <= len (InContent input) <= 2000 ->
   ValidateContent (InContent input) = None -> len (InRationale input) <= 500 ->
   ValidateInput input = None) /\
  capitalize (Category input) = "" /\
  (forall content,
     findSectionStart content (capitalize (Category input)) = Index content "## ") /\
  exists w',
    AppendMemory (service r) ctx input id now w = (Ok tt, w') /\
    files w' (FilePath r) =
    Some (frontMatter (FormatRFC3339 (Now (timeProvider r) w))
          ++ "## Constraints

" ++ renderEntry (PrepareEntry input id now) ++ LF ++ "## Decisions

## Patterns

## Anti-Patterns
").
Proof.
  intros Hc Hs Hf.
  split; [unfold ValidateInput; rewrite Hc; reflexivity|].
  split; [intros; apply ValidateInput_accepts; auto; now rewrite Hc|].
  rewrite Hc. split; [reflexivity|]. split; [reflexivity|].
  unfold AppendMemory, service. cbn [repo asRepository Domain.AppendEntry].
  rewrite Hc.
  set (entry := PrepareEntry input id now).
  pose proof (AppendEntry_nofault r ctx "" entry w Hf) as N.
  rewrite (findSectionStart_fresh r w Hs) in N.
  change (capitalize "") with "" in N.
  change (findSectionStart headings "") with 0 in N.
  cbn [Z.eqb] in N. rewrite Z.add_0_r in N.
  pose proof (len_nonneg (frontMatter (FormatRFC3339 (Now (timeProvider r) w)))) as L.
  replace (_ =? -1) with false in N by (symmetry; apply Z.eqb_neq; lia).
  destruct (AppendEntry r ctx "" entry w) as [res w'] eqn:Run.
  cbn [fst] in N. subst res. exists w'. split; [reflexivity|].
  apply (AppendEntry_fresh r w Hs ctx "" entry 0 16 w') in Run;
    [exact Run | reflexivity | lia | reflexivity | lia].
Qed.

End EmptyCategory.

Section Synthesis.

Variable r : MarkdownMemoryRepository.
Variable ctx : Context.
Variable entry : Entry.
Variable w : World.
Hypothesis empty : stored r w = "".

Let now := FormatRFC3339 (Now (timeProvider r) w).

(** On a store without a document, the categories constraints, decisions
    and patterns find their heading in the synthesized document, and the
    entry goes to the end of that section. *)
Lemma AppendEntry_fresh_constraints (w' : World) :
  AppendEntry r ctx SectionConstraints entry w = (Ok tt, w') ->
  files w' (FilePath r) =
  Some (frontMatter now ++ "## Constraints

" ++ renderEntry entry ++ LF ++ "## Decisions

## Patterns

## Anti-Patterns
").
Proof.
  intros Run.
  apply (AppendEntry_fresh r w empty ctx _ entry 0 16 w') in Run;
    [exact Run | reflexivity | lia | reflexivity | lia].
Qed.

Lemma AppendEntry_fresh_decisions (w' : World) :
  AppendEntry r ctx SectionDecisions entry w = (Ok tt, w') ->
  files w' (FilePath r) =
  Some (frontMatter now ++ "## Constraints

## Decisions

" ++ renderEntry entry ++ LF ++ "## Patterns

## Anti-Patterns
").
Proof.
  intros Run.
  apply (AppendEntry_fresh r w empty ctx _ entry 16 30 w') in Run;
    [exact Run | reflexivity | lia | reflexivity | lia].
Qed.

Lemma AppendEntry_fresh_patterns (w' : World) :
  AppendEntry r ctx SectionPatterns entry w = (Ok tt, w') ->
  files w' (FilePath r) =
  Some (frontMatter now ++ "## Constraints

## Decisions

## Patterns

" ++ renderEntry entry ++ LF ++ "## Anti-Patterns
").
Proof.
  intros Run.
  apply (AppendEntry_fresh r w empty ctx _ entry 30 43 w') in Run;
    [exact Run | reflexivity | lia | reflexivity | lia].
Qed.

(** For these three categories the run succeeds when no system call
    fails. *)
Lemma AppendEntry_fresh_succeeds (st : SectionType) :
  st = SectionConstraints \/ st = SectionDecisions \/ st = SectionPatterns ->
  faults w = [] ->
  fst (AppendEntry r ctx st entry w) = Ok tt.
Proof.
  intros H NF. rewrite AppendEntry_nofault by exact NF.
  rewrite (findSectionStart_fresh r w empty).
  pose proof (len_nonneg (frontMatter now)) as L. fold now.
  destruct H as [ -> | [ -> | -> ] ].
  - change (findSectionStart headings (capitalize SectionConstraints)) with 0.
    cbn [Z.eqb]. now replace (_ =? -1) with false by (symmetry; apply Z.eqb_neq; lia).
  - change (findSectionStart headings (capitalize SectionDecisions)) with 16.
    cbn [Z.eqb]. now replace (_ =? -1) with false by (symmetry; apply Z.eqb_neq; lia).
  - change (findSectionStart headings (capitalize SectionPatterns)) with 30.
    cbn [Z.eqb]. now replace (_ =? -1) with false by (symmetry; apply Z.eqb_neq; lia).
Qed.

(** [capitalize] turns the category anti-patterns into [Anti-patterns],
    the synthesized heading reads [Anti-Patterns]: on a store without a
    document no run of [AppendEntry] for anti-patterns succeeds, the
    store is left as it was, and a run without failing system calls
    returns the error "section not found: Anti-patterns". *)
Lemma AppendEntry_fresh_anti_patterns :
  capitalize SectionAntiPatterns = "Anti-patterns" /\
  (forall res w',
     AppendEntry r ctx SectionAntiPatterns entry w = (res, w') ->
     res <> Ok tt /\ files w' = files w) /\
  (faults w = [] ->
   fst (AppendEntry r ctx SectionAntiPatterns entry w) =
   Err (ErrorfPlain "section not found: Anti-patterns")).
Proof.
  assert (S : findSectionStart (workingDocument r w) (capitalize SectionAntiPatterns) = -1).
  { rewrite (findSectionStart_fresh r w empty). reflexivity. }
  split; [reflexivity|]. split.
  - intros res w' Run. apply AppendEntry_cases in Run. cbv zeta in Run.
    destruct Run as [(e & -> & F & _)|(w1 & end_ & _ & N & _)].
    + split; [discriminate | apply F].
    + contradiction.
  - intros NF. rewrite AppendEntry_nofault by exact NF. now rewrite S.
Qed.

End Synthesis.

(* ================================================================== *)
(** ** The document mutator *)
(* ================================================================== *)

Section Mutator.

Lemma to_nat_len (s : string) : Z.to_nat (len s) = String.length s.
Proof. unfold len. lia. Qed.

Lemma slice_to_app (a b : string) : slice_to (a ++ b) (len a) = Some a.
Proof.
  pose proof (len_nonneg a). pose proof (len_nonneg b).
  rewrite slice_to_some by (rewrite ?len_append; lia).
  rewrite to_nat_len, <- (Nat.add_0_r (String.length a)), take_app.
  destruct b; cbn [take]; now rewrite append_nil_r.
Qed.

Lemma slice_from_app (a b : string) : slice_from (a ++ b) (len a) = Some b.
Proof.
  pose proof (len_nonneg a). pose proof (len_nonneg b).
  rewrite slice_from_some by (rewrite ?len_append; lia).
  rewrite to_nat_len, <- (Nat.add_0_r (String.length a)), drop_app.
  reflexivity.
Qed.

Lemma slice_mid (a m b : string) :
  slice (a ++ m ++ b) (len a) (len a + len m) = Some m.
Proof.
  pose proof (len_nonneg a). pose proof (len_nonneg b). pose proof (len_nonneg m).
  rewrite slice_some by (rewrite ?len_append; lia).
  replace (len a + len m - len a) with (len m) by lia.
  rewrite !to_nat_len, <- (Nat.add_0_r (String.length a)), drop_app.
  cbn [drop]. rewrite <- (Nat.add_0_r (String.length m)), take_app.
  destruct b; cbn [take]; now rewrite append_nil_r.
Qed.

Lemma len_take (s : string) (e : Z) :
  0 <= e -> e <= len s -> len (take (Z.to_nat e) s) = e.
Proof. intros. unfold len in *. rewrite length_take; lia. Qed.

Variable r : MarkdownMemoryRepository.
Variable ctx : Context.
Variable st : SectionType.
Variable entry : Entry.
Variable w : World.

(** C3.  Let [D] be the document [AppendEntry] works on, [start] the
    offset at which the target heading is found and [end_] the section
    end [findSectionEnd] gives.  Then [start <= end_ <= len D]; a run
    without failing system calls succeeds; and after any run that
    succeeds the stored document [D'] is [D[:end_]], then the rendered
    entry and a line feed, then [D[end_:]]: its first [end_] bytes are
    those of [D], the inserted text follows, and the rest is the rest of
    [D], byte for byte. *)
Theorem append_changes_no_byte_outside_the_splice (D : string) (start end_ : Z) :
  workingDocument r w = D ->
  findSectionStart D (capitalize st) = start ->
  start <> -1 ->
  findSectionEnd D start = Some end_ ->
  (0 <= start /\ start <= end_ /\ end_ <= len D) /\
  (faults w = [] -> fst (AppendEntry r ctx st entry w) = Ok tt) /\
  (forall w',
     AppendEntry r ctx st entry w = (Ok tt, w') ->
     exists D',
       files w' (FilePath r) = Some D' /\
       len D' = len D + len (renderEntry entry) + 1 /\
       slice_to D' end_ = slice_to D end_ /\
       slice D' end_ (end_ + len (renderEntry entry) + 1)
         = Some (renderEntry entry ++ LF) /\
       slice_from D' (end_ + len (renderEntry entry) + 1) = slice_from D end_).
Proof.
  intros HD Hs Hn He.
  assert (B : 0 <= start /\ start <= end_ /\ end_ <= len D).
  { destruct (findSectionStart_range D (capitalize st)) as [?|[S0 S1]]; [congruence|].
    rewrite Hs in *. pose proof (len_nonneg (capitalize st)).
    destruct (findSectionEnd_total D start S0 ltac:(lia)) as (e & E & E1 & E2).
    assert (e = end_) by congruence. subst e. lia. }
  split; [exact B|]. destruct B as (B0 & B1 & B2). split.
  - intros NF. rewrite AppendEntry_nofault by exact NF.
    rewrite HD, Hs. now apply Z.eqb_neq in Hn as ->.
  - intros w' Run. apply AppendEntry_cases in Run. cbv zeta in Run.
    rewrite HD, Hs in Run.
    destruct Run as [(x & X & _)|(w1 & e & F & _ & En & FA & R)]; [discriminate|].
    assert (e = end_) by congruence. subst e.
    pose proof (atomicWrite_spec r (spliced D end_ entry) w1) as (_ & _ & A).
    cbv zeta in A.
    destruct (fst (atomicWrite r (spliced D end_ entry) w1)) as [[]|err|];
      try discriminate.
    destruct A as (A & _). destruct FA as (FA & _).
    exists (spliced D end_ entry). split; [now rewrite FA, A|].
    unfold spliced.
    set (A1 := take (Z.to_nat end_) D). set (A2 := drop (Z.to_nat end_) D).
    assert (L1 : len A1 = end_) by (apply len_take; lia).
    assert (L2 : len A2 = len D - end_) by (apply len_drop; lia).
    assert (LM : len (renderEntry entry ++ LF) = len (renderEntry entry) + 1)
      by (rewrite len_append; reflexivity).
    rewrite <- (append_assoc (renderEntry entry) LF A2).
    split; [rewrite !len_append in *; lia|].
    split; [|split].
    + rewrite <- L1 at 1. rewrite slice_to_app.
      symmetry. apply slice_to_some; lia.
    + replace (end_ + len (renderEntry entry) + 1)
        with (len A1 + len (renderEntry entry ++ LF)) by lia.
      rewrite <- L1 at 1. apply slice_mid.
    + replace (end_ + len (renderEntry entry) + 1)
        with (len (A1 ++ renderEntry entry ++ LF)) by (rewrite len_append; lia).
      rewrite <- append_assoc, slice_from_app.
      symmetry. apply slice_from_some; lia.
Qed.

End Mutator.

(* ================================================================== *)
(** ** The atomic write inside [AppendEntry] *)
(* ================================================================== *)

Section AtomicPersist.

Variable r : MarkdownMemoryRepository.
Variable ctx : Context.
Variable st : SectionType.
Variable entry : Entry.
Variable w : World.

Let real := FilePath r.
Let tmp := (FilePath r ++ ".tmp")%string.

(** C7.  A run of [AppendEntry] either stops before the write phase
    or calls [atomicWrite]; when that call fails, whether at
    writing the temporary file (call 4 of the run does not pass) or at
    renaming it, the run returns its error wrapped as "failed to write
    memory file" and the real path holds what it held before.  The
    removal of the temporary file is attempted and its own result
    dropped: when that call goes through the temporary file is gone,
    and when it fails too the temporary path keeps what the failed step
    left there.  In every run, each state the file system passes
    through shows at the real path either the former document or, once
    the run has succeeded, the complete new one. *)
Theorem failed_atomic_write_leaves_document_untouched
    (res : Result unit) (w' : World) :
  AppendEntry r ctx st entry w = (res, w') ->
  ((exists e, res = Err e /\ ~ writeFailure e /\ frame w w') \/
   (exists w1 content,
      frame w w1 /\ frame (snd (atomicWrite r content w1)) w' /\
      res = match fst (atomicWrite r content w1) with
            | Ok _ => Ok tt
            | Err e => Err (Errorf "failed to write memory file: " e "")
            | Panic => Panic
            end)) /\
  (forall cause,
     res = Err (Errorf "failed to write memory file: " cause "") ->
     (if passes (meets w 4)
      then cause = Errorf "failed to rename temp file: " (OSError "rename") ""
      else exists c0, cause = Errorf "failed to write temp file: " c0 "") /\
     files w' real = files w real /\
     (passes (meets w (removalCall w)) = true -> files w' tmp = None) /\
     (passes (meets w (removalCall w)) = false ->
      exists end_,
        findSectionEnd (workingDocument r w)
          (findSectionStart (workingDocument r w) (capitalize st)) = Some end_ /\
        files w' tmp
        = leftBehind r (spliced (workingDocument r w) end_ entry) w)) /\
  (exists new,
     history w' = app new (history w) /\
     Forall (fun fs : Files =>
               fs real = files w real \/
               (res = Ok tt /\ fs real = files w' real))
            new).
Proof.
  intros Run. pose proof Run as Run0.
  apply AppendEntry_cases in Run. cbv zeta in Run.
  subst real tmp.
  destruct Run as [(e & -> & F & NW & _)|(w1 & end_ & F & _ & _ & FA & R)].
  - split; [left; eauto|]. split.
    + intros cause [= ->]. exfalso. apply NW. now exists cause.
    + exists []. destruct F as (_ & _ & ->). split; [reflexivity | constructor].
  - set (content := spliced (workingDocument r w) end_ entry) in *.
    split; [right; exists w1, content; auto|].
    pose proof (atomicWrite_spec r content w1) as (_ & (new & Hh & Hf) & A).
    cbv zeta in A, Hf. unfold untorn in Hf.
    destruct F as (Ff & _ & Fh). destruct FA as (FAf & _ & FAh).
    destruct (fst (atomicWrite r content w1)) as [[]|err|] eqn:AR;
      [| |contradiction]; subst res.
    + split; [intros cause [=]|].
      exists new. split; [congruence|].
      destruct A as (A & _).
      eapply Forall_impl; [|exact Hf]. cbv beta.
      intros fs [H|[_ H]]; [left; congruence | right; split; [reflexivity | congruence]].
    + destruct A as (A1 & _). split.
      * intros cause [= <-].
        apply AppendEntry_write_failure in Run0 as (e2 & E2 & AW & Fw).
        destruct (atomicWrite_tmp r _ _ _ AW) as (C & T).
        rewrite !(meets_skip 4 _ w (afterCalls 4 w)) in T by reflexivity.
        rewrite (meets_skip 4 0 w (afterCalls 4 w)) in C by reflexivity.
        cbn [Nat.add files afterCalls] in C, T. rewrite <- Fw in T.
        split; [exact C|]. split; [congruence|].
        unfold removalCall, leftBehind.
        destruct (passes (meets w 4)) eqn:P4; cbn [Nat.add] in T; rewrite T.
        -- split; [now intros -> | intros ->].
           exists e2. split; [exact E2|].
           destruct (meets w 4); try discriminate. reflexivity.
        -- split; [now intros -> | intros ->].
           exists e2. split; [exact E2|].
           destruct (meets w 4); try discriminate; reflexivity.
      * exists new. split; [congruence|].
        eapply Forall_impl; [|exact Hf]. cbv beta.
        intros fs [H|[H _]]; [left; congruence | discriminate].
Qed.

End AtomicPersist.

(* ================================================================== *)
(** ** Reading a section *)
(* ================================================================== *)

Section Reading.

Variable r : MarkdownMemoryRepository.
Variable ctx : Context.
Variable st : SectionType.
Variable w : World.

(** C4.  [GetSection] returns an error only when reading the file does
    (creating the directory or reading failed), and then that very
    error.  Otherwise it returns a section of the requested type; a
    file that does not exist reads as the empty text; and the entry list
    is empty whenever the text is empty, the heading is absent, the
    section block is empty, or neither the anchored nor the legacy
    parser finds an entry in the block.  It never panics. *)
Theorem GetSection_missing_content_is_empty :
  match fst (readFile r w) with
  | Err e => fst (GetSection r ctx st w) = Err e /\ readError e
  | Panic => False
  | Ok content =>
      content = stored r w /\
      (files w (FilePath r) = None -> content = "") /\
      exists entries,
        fst (GetSection r ctx st w) = Ok (mkSection st entries) /\
        (content = "" \/
         findSectionStart content (capitalize st) = -1 \/
         (exists block,
            extractSection content st = Some block /\
            (block = "" \/
             ((exists e, parseV1Anchored block = Err e) /\
              parseLegacyInline block = []))) ->
         entries = [])
  end.
Proof.
  destruct (GetSection r ctx st w) as [res w'] eqn:G. cbn [fst].
  unfold GetSection in G. unfold bind at 1 in G.
  destruct (readFile_spec r w) as [_ HR].
  destruct (readFile r w) as [[content|e|] w1]; cbn [fst] in *;
    [|split; [congruence | exact HR] | exact HR].
  split; [exact HR|].
  split; [intros N; rewrite HR; unfold stored; now rewrite N|].
  destruct (String.eqb content "") eqn:C0.
  { exists []. split; [cbv [ret] in G; now inversion G | auto]. }
  apply String.eqb_neq in C0.
  destruct (extractSection_total content st) as (block & EB).
  unfold bind at 1 in G. rewrite EB in G. cbn [orPanic ret] in G.
  destruct (String.eqb block "") eqn:B0.
  { exists []. split; [now inversion G | auto]. }
  apply String.eqb_neq in B0.
  assert (NS : findSectionStart content (capitalize st) <> -1).
  { intros N. rewrite (extractSection_absent _ _ N) in EB. congruence. }
  destruct (parseV1Anchored block) as [entries|e|] eqn:PV.
  - exists entries. split; [now inversion G|].
    intros [H|[H|(b & Hb & [H|((x & H) & _)])]]; try contradiction;
      assert (b = block) by congruence; subst b; congruence.
  - destruct (parseLegacyInline block) as [|l ls] eqn:PL; cbn in G.
    + exists []. split; [now inversion G | auto].
    + exists (l :: ls). split; [now inversion G|].
      intros [H|[H|(b & Hb & [H|(_ & H)])]]; try contradiction;
        assert (b = block) by congruence; subst b; congruence.
  - unfold parseV1Anchored in PV.
    destruct (FindAllStringSubmatch anchoredEntryRegex block); discriminate.
Qed.

End Reading.

(* ================================================================== *)
(** ** Validation *)
(* ================================================================== *)

Section Validation.

(** [ValidateContent] passes exactly the content without a forbidden
    token that does not look like a list item once trimmed. *)
Lemma ValidateContent_None (content : string) :
  ValidateContent content = None <->
  (forall tok, In tok forbidden -> Contains content tok = false) /\
  HasPrefix (TrimSpace content) "- " = false /\
  HasPrefix (TrimSpace content) "* " = false.
Proof.
  unfold ValidateContent.
  destruct (find (fun char => Contains content char) forbidden) as [tok|] eqn:F.
  - apply find_some in F as [I C]. split; [discriminate|].
    intros (H & _). rewrite (H _ I) in C. discriminate.
  - pose proof (find_none _ _ F) as N. cbv beta in N.
    destruct (HasPrefix (TrimSpace content) "- "), (HasPrefix (TrimSpace content) "* ");
      cbn [orb]; split; try discriminate; try (intros (_ & A & B); discriminate);
      auto.
Qed.

Lemma ValidateContent_forbidden (content tok : string) :
  In tok forbidden -> Contains content tok = true ->
  exists tok', In tok' forbidden /\ Contains content tok' = true /\
    ValidateContent content =
    Some (Errorf "" ErrForbiddenContent (": contains " ++ quote tok')).
Proof.
  intros I C. unfold ValidateContent.
  destruct (find (fun char => Contains content char) forbidden) as [tok'|] eqn:F.
  - apply find_some in F as [I' C']. now exists tok'.
  - pose proof (find_none _ _ F _ I) as N. cbv beta in N. congruence.
Qed.

Lemma ValidateContent_listItem (content : string) :
  (forall tok, In tok forbidden -> Contains content tok = false) ->
  HasPrefix (TrimSpace content) "- " = true \/
  HasPrefix (TrimSpace content) "* " = true ->
  ValidateContent content =
  Some (Errorf "" ErrListItem ": content cannot be a list item").
Proof.
  intros N H. unfold ValidateContent.
  destruct (find (fun char => Contains content char) forbidden) as [tok|] eqn:F.
  - apply find_some in F as [I C]. rewrite (N _ I) in C. discriminate.
  - destruct H as [-> | ->]; [reflexivity | now rewrite orb_true_r].
Qed.

Lemma ValidateInput_content (input : AppendInput) :
  headerOk input -> 1 <= len (InContent input) <= 2000 ->
  ValidateInput input =
  match ValidateContent (InContent input) with
  | Some err => Some err
  | None =>
      if 500 <? len (InRationale input)
      then Some (Errorf "" ErrInvalidRationale
                   (": rationale must be 500 characters or less (got "
                    ++ digits (len (InRationale input)) ++ ")"))
      else None
  end.
Proof.
  intros (V & T) C. unfold categoryOk in V. unfold ValidateInput.
  destruct (String.eqb (Category input) "");
    cbn [Category InTag InContent InRationale withCategory];
    rewrite V; cbn [negb];
    replace (len (InTag input) =? 0) with false by (symmetry; apply Z.eqb_neq; lia);
    replace (50 <? len (InTag input)) with false by (symmetry; apply Z.ltb_ge; lia);
    replace (len (InContent input) =? 0) with false by (symmetry; apply Z.eqb_neq; lia);
    replace (2000 <? len (InContent input)) with false by (symmetry; apply Z.ltb_ge; lia);
    reflexivity.
Qed.

Lemma ValidateInput_too_long (input : AppendInput) :
  headerOk input -> 2000 < len (InContent input) ->
  ValidateInput input =
  Some (Errorf "" ErrInvalidContent
          (": content must be 2000 characters or less (got "
           ++ digits (len (InContent input)) ++ ")")).
Proof.
  intros (V & T) C. unfold categoryOk in V. unfold ValidateInput.
  destruct (String.eqb (Category input) "");
    cbn [Category InTag InContent InRationale withCategory];
    rewrite V; cbn [negb];
    replace (len (InTag input) =? 0) with false by (symmetry; apply Z.eqb_neq; lia);
    replace (50 <? len (InTag input)) with false by (symmetry; apply Z.ltb_ge; lia);
    replace (len (InContent input) =? 0) with false by (symmetry; apply Z.eqb_neq; lia);
    replace (2000 <? len (InContent input)) with true by (symmetry; apply Z.ltb_lt; lia);
    reflexivity.
Qed.

(** What an accepted input satisfies. *)
Lemma ValidateInput_None (input : AppendInput) :
  ValidateInput input = None ->
  headerOk input /\ 1 <= len (InContent input) <= 2000 /\
  ValidateContent (InContent input) = None /\
  len (InRationale input) <= 500.
Proof.
  unfold ValidateInput, headerOk, categoryOk.
  pose proof (len_nonneg (InTag input)). pose proof (len_nonneg (InContent input)).
  destruct (String.eqb (Category input) "");
    cbn [Category InTag InContent InRationale withCategory];
    (destruct (IsValid _); cbn [negb]; [|discriminate]);
    (destruct (len (InTag input) =? 0) eqn:T0; [discriminate|]);
    (destruct (50 <? len (InTag input)) eqn:T1; [discriminate|]);
    (destruct (len (InContent input) =? 0) eqn:C0; [discriminate|]);
    (destruct (2000 <? len (InContent input)) eqn:C1; [discriminate|]);
    (destruct (ValidateContent (InContent input)); [discriminate|]);
    (destruct (500 <? len (InRationale input)) eqn:R; [discriminate|]);
    intros _; apply Z.eqb_neq in T0, C0; apply Z.ltb_ge in T1, C1, R;
    repeat split; auto; lia.
Qed.

End Validation.

Section ValidationBoundary.

Variable input : AppendInput.

Let content := InContent input.

Lemma ValidateInput_tag (e : error) :
  categoryOk input ->
  (len (InTag input) = 0 /\ e = Errorf "" ErrInvalidTag ": tag cannot be empty") \/
  (50 < len (InTag input) /\
   e = Errorf "" ErrInvalidTag
         (": tag must be 50 characters or less (got "
          ++ digits (len (InTag input)) ++ ")")) ->
  ValidateInput input = Some e.
Proof.
  unfold categoryOk. intros V H. unfold ValidateInput.
  destruct (String.eqb (Category input) "");
    cbn [Category InTag InContent InRationale withCategory];
    rewrite V; cbn [negb]; destruct H as [(T & ->)|(T & ->)].
  all: try (rewrite T; reflexivity).
  all: replace (len (InTag input) =? 0) with false by (symmetry; apply Z.eqb_neq; lia);
       replace (50 <? len (InTag input)) with true by (symmetry; apply Z.ltb_lt; lia);
       reflexivity.
Qed.

(** X22.  An accepted input has a tag of 1 to 50 bytes, content of 1 to
    2000 bytes that passes [ValidateContent], and a rationale of at most
    500 bytes.  Content of 2001 bytes, content holding a line feed, a
    carriage return, [###], three backticks, [<] or [>], and content
    that after trimming starts with [- ] or [* ] are all rejected.  Once
    category and tag pass: content of exactly 2000 bytes that passes
    [ValidateContent] is accepted (with a rationale within its limit),
    content of 2001 bytes gets the content-length error, a forbidden
    token the forbidden-content error, a list-item shape the list-item
    error, a rationale above 500 bytes the rationale error.  An empty
    tag and a tag above 50 bytes get the tag error. *)
Theorem validation_boundaries :
  (ValidateInput input = None ->
   1 <= len (InTag input) <= 50 /\ 1 <= len content <= 2000 /\
   ValidateContent content = None /\ len (InRationale input) <= 500) /\
  (len content = 2001 -> ValidateInput input <> None) /\
  (forall tok, In tok forbidden -> Contains content tok = true ->
     ValidateInput input <> None /\
     exists tok', In tok' forbidden /\ Contains content tok' = true /\
       ValidateContent content =
       Some (Errorf "" ErrForbiddenContent (": contains " ++ quote tok')) /\
       (headerOk input -> 1 <= len content <= 2000 ->
        ValidateInput input =
        Some (Errorf "" ErrForbiddenContent (": contains " ++ quote tok')))) /\
  ((forall tok, In tok forbidden -> Contains content tok = false) ->
   HasPrefix (TrimSpace content) "- " = true \/
   HasPrefix (TrimSpace content) "* " = true ->
   ValidateInput input <> None /\
   ValidateContent content =
   Some (Errorf "" ErrListItem ": content cannot be a list item") /\
   (headerOk input -> 1 <= len content <= 2000 ->
    ValidateInput input =
    Some (Errorf "" ErrListItem ": content cannot be a list item"))) /\
  (headerOk input ->
   (len content = 2000 -> ValidateContent content = None ->
    len (InRationale input) <= 500 -> ValidateInput input = None) /\
   (len content = 2001 ->
    ValidateInput input =
    Some (Errorf "" ErrInvalidContent
            ": content must be 2000 characters or less (got 2001)")) /\
   (1 <= len content <= 2000 -> ValidateContent content = None ->
    500 < len (InRationale input) ->
    ValidateInput input =
    Some (Errorf "" ErrInvalidRationale
            (": rationale must be 500 characters or less (got "
             ++ digits (len (InRationale input)) ++ ")")))) /\
  (categoryOk input ->
   (len (InTag input) = 0 ->
    ValidateInput input = Some (Errorf "" ErrInvalidTag ": tag cannot be empty")) /\
   (50 < len (InTag input) ->
    ValidateInput input =
    Some (Errorf "" ErrInvalidTag
            (": tag must be 50 characters or less (got "
             ++ digits (len (InTag input)) ++ ")")))).
Proof.
  subst content.
  split; [|split; [|split; [|split; [|split]]]].
  - intros H. apply ValidateInput_None in H as ((_ & T) & C & V & R). auto.
  - intros L H. apply ValidateInput_None in H as (_ & C & _). lia.
  - intros tok I C.
    destruct (ValidateContent_forbidden _ _ I C) as (tok' & I' & C' & V).
    split.
    + intros H. apply ValidateInput_None in H as (_ & _ & V' & _). congruence.
    + exists tok'. repeat (split; [assumption|]).
      intros Hd L. rewrite (ValidateInput_content _ Hd L). now rewrite V.
  - intros N P. pose proof (ValidateContent_listItem _ N P) as V.
    split; [|split; [exact V|]].
    + intros H. apply ValidateInput_None in H as (_ & _ & V' & _). congruence.
    + intros Hd L. rewrite (ValidateInput_content _ Hd L). now rewrite V.
  - intros Hd. split; [|split].
    + intros L V R. rewrite (ValidateInput_content _ Hd) by lia. rewrite V.
      now replace (500 <? len (InRationale input)) with false
        by (symmetry; apply Z.ltb_ge; lia).
    + intros L. rewrite (ValidateInput_too_long _ Hd) by lia. now rewrite L.
    + intros L V R. rewrite (ValidateInput_content _ Hd L), V.
      now replace (500 <? len (InRationale input)) with true
        by (symmetry; apply Z.ltb_lt; lia).
  - intros V. split; intros T; apply ValidateInput_tag; auto.
Qed.

End ValidationBoundary.

Lemma characters_ascii (s : string) : isASCII s = true -> characters s = len s.
Proof.
  unfold len. induction s as [|c s IH]; [reflexivity|].
  destruct c as [b0 b1 b2 b3 b4 b5 b6 b7]. cbn [isASCII characters isContinuation].
  intros H. apply andb_prop in H as (B & A). destruct b7; [discriminate|].
  cbn [andb]. rewrite (IH A). cbn [String.length]. lia.
Qed.

(** C5.  The limits of [ValidateInput] are limits on [len], the number
    of bytes, while its messages speak of characters.  On text of bytes
    below 128 the two agree.  Content of 2000 accented letters, 4000
    bytes, passes [ValidateContent] and is rejected as 4000 characters
    long; content of 1000 such letters is accepted, and content of 1001
    is rejected as 2002 long; a tag of 26 such letters is rejected as 52
    characters long. *)
Theorem length_limits_count_bytes :
  (forall s, isASCII s = true -> characters s = len s) /\
  (characters (InContent (accentedInput 2000)) = 2000 /\
   len (InContent (accentedInput 2000)) = 4000 /\
   ValidateContent (InContent (accentedInput 2000)) = None /\
   ValidateInput (accentedInput 2000) =
   Some (Errorf "" ErrInvalidContent
           ": content must be 2000 characters or less (got 4000)")) /\
  (characters (InContent (accentedInput 1000)) = 1000 /\
   ValidateInput (accentedInput 1000) = None) /\
  (characters (InContent (accentedInput 1001)) = 1001 /\
   ValidateInput (accentedInput 1001) =
   Some (Errorf "" ErrInvalidContent
           ": content must be 2000 characters or less (got 2002)")) /\
  (characters (InTag accentedTagInput) = 26 /\
   ValidateInput accentedTagInput =
   Some (Errorf "" ErrInvalidTag
           ": tag must be 50 characters or less (got 52)")).
Proof.
  split; [exact characters_ascii|].
  repeat split; vm_compute; reflexivity.
Qed.

(* ================================================================== *)
(** ** Concrete runs *)
(* ================================================================== *)

(** The codec on small inputs. *)

Example legacy_line_without_rationale :
  FindStringSubmatch legacyEntryRegex "* **[API]** Use RESTful conventions"
  = Some ["* **[API]** Use RESTful conventions"; "API";
          "Use RESTful conventions"; ""].
Proof. vm_compute. reflexivity. Qed.

Example legacy_line_needs_the_marker :
  FindStringSubmatch legacyEntryRegex "- **[API]** Use RESTful conventions" = None.
Proof. vm_compute. reflexivity. Qed.

Example render_without_rationale :
  renderEntry apiEntry =
  "<!-- entry-id: 018d0c5e-7b3a-7000-8000-0123456789ab, tag: [API], time: 2024-01-15T10:30:00Z -->
* **[API]** Use RESTful conventions
<!-- entry-end -->".
Proof. vm_compute. reflexivity. Qed.

Example render_with_rationale :
  renderEntry dbEntry =
  "<!-- entry-id: 018d0c5e-7b3a-7000-8000-0123456789ac, tag: [DB], time: 2024-01-15T10:30:00Z -->
* **[DB]** Use PostgreSQL as primary database (*Rationale: ACID compliance*)
<!-- entry-end -->".
Proof. vm_compute. reflexivity. Qed.

(** Two blocks in a row are two matches. *)
Example anchored_two_blocks :
  List.length (FindAllStringSubmatch anchoredEntryRegex
                 (renderEntry apiEntry ++ LF ++ renderEntry dbEntry)) = 2%nat.
Proof. vm_compute. reflexivity. Qed.

(** The ids of the repository's tests, such as test-uuid-1, are outside
    [[a-f0-9-]]: such a block has no anchored match, and [GetSection]
    reads it through the legacy parser. *)
Example test_ids_fall_back_to_legacy :
  let entry := mkEntry "test-uuid-1" "[Architecture]" "Architecture"
                       "Use hexagonal architecture" "" stamp in
  let run := GetSection repository Background SectionConstraints
               (snd (AppendEntry repository Background SectionConstraints entry emptyWorld)) in
  parseV1Anchored (renderEntry entry) = Err (ErrorfPlain "no anchored entries found") /\
  fst run = Ok (mkSection SectionConstraints
                  [mkEntry "" "[Architecture]" "Architecture"
                           "Use hexagonal architecture" "" zeroTime]) /\
  List.length (logged (snd run)) = 2%nat.
Proof. repeat split; vm_compute; reflexivity. Qed.

(** Whatever the block, the anchored parser leaves [CreatedAt] at the
    zero time: the captured timestamp is never read back. *)
Lemma parseV1Anchored_CreatedAt (block : string) (entries : list Entry) :
  parseV1Anchored block = Ok entries ->
  Forall (fun e => CreatedAt e = zeroTime) entries.
Proof.
  unfold parseV1Anchored.
  destruct (FindAllStringSubmatch anchoredEntryRegex block) as [|m ms]; [discriminate|].
  intros [= <-].
  set (f := fun (entries : list Entry) (m0 : list string) => _).
  assert (G : forall l acc, Forall (fun e => CreatedAt e = zeroTime) acc ->
              Forall (fun e => CreatedAt e = zeroTime) (fold_left f l acc)).
  { induction l as [|x l IH]; intros acc H; cbn [fold_left]; [exact H|].
    apply IH. subst f. cbv beta zeta.
    destruct (List.length x <? 6)%nat; [exact H|].
    apply Forall_app. split; [exact H|]. now constructor. }
  apply G. destruct (List.length m <? 6)%nat; repeat constructor.
Qed.

(** C1.  Rendering [apiEntry] and parsing the text back yields one entry
    whose content is the timestamp text and whose rationale is the tag
    name; its creation time is the zero time.  The same entry comes back
    from [GetSection] after [AppendEntry] stored it.  The groups of the
    pattern are id, tag, time, tag name, content, rationale; the parser
    reads content from group 3 and rationale from group 4.  No entry
    whose creation time is not the zero time comes back as it was. *)
Theorem anchored_round_trip_swaps_fields :
  FindAllStringSubmatch anchoredEntryRegex (renderEntry apiEntry) =
    [[renderEntry apiEntry; "018d0c5e-7b3a-7000-8000-0123456789ab"; "API";
      "2024-01-15T10:30:00Z"; "API"; "Use RESTful conventions"; ""]] /\
  parseV1Anchored (renderEntry apiEntry) =
    Ok [mkEntry "018d0c5e-7b3a-7000-8000-0123456789ab" "[API]" "API"
                "2024-01-15T10:30:00Z" "API" zeroTime] /\
  parseV1Anchored (renderEntry apiEntry) <> Ok [apiEntry] /\
  fst (GetSection repository Background SectionConstraints
         (snd (AppendEntry repository Background SectionConstraints apiEntry emptyWorld)))
  = Ok (mkSection SectionConstraints
          [mkEntry "018d0c5e-7b3a-7000-8000-0123456789ab" "[API]" "API"
                   "2024-01-15T10:30:00Z" "API" zeroTime]) /\
  (forall E : Entry,
     CreatedAt E <> zeroTime -> parseV1Anchored (renderEntry E) <> Ok [E]).
Proof.
  split; [vm_compute; reflexivity|].
  split; [vm_compute; reflexivity|].
  split; [vm_compute; discriminate|].
  split; [vm_compute; reflexivity|].
  intros E N H. apply parseV1Anchored_CreatedAt in H.
  apply Forall_inv in H. contradiction.
Qed.

(** C2, at the category anti-patterns: on the empty store the run
    returns "section not found: Anti-patterns" and writes no file, while
    the same entry under constraints is stored. *)
Theorem anti_patterns_section_not_found :
  capitalize SectionAntiPatterns = "Anti-patterns" /\
  fst (AppendEntry repository Background SectionAntiPatterns apiEntry emptyWorld)
  = Err (ErrorfPlain "section not found: Anti-patterns") /\
  files (snd (AppendEntry repository Background SectionAntiPatterns apiEntry emptyWorld))
        (FilePath repository) = None /\
  fst (AppendEntry repository Background SectionConstraints apiEntry emptyWorld)
  = Ok tt.
Proof. repeat split; vm_compute; reflexivity. Qed.

(** C6.  Reading the Decisions section of [legacyDocument]: one entry
    per legacy line, with empty id and zero creation time, and a warning
    in the log; but the rationale of the first line comes back with the
    blank that follows [Rationale:] in front of it. *)
Theorem legacy_rationale_keeps_leading_blank :
  let run := GetSection repository Background SectionDecisions
               (worldWith legacyDocument []) in
  fst run =
    Ok (mkSection SectionDecisions
          [mkEntry "" "[DB]" "DB" "Use PostgreSQL as primary database"
                   " ACID compliance" zeroTime;
           mkEntry "" "[API]" "API" "Use RESTful conventions" "" zeroTime]) /\
  logged (snd run) =
    [mkLog LevelWarn "legacy format detected" [("section", "decisions")]].
Proof. split; vm_compute; reflexivity. Qed.

(** C8.  In [crossReference] the Constraints heading is at offset 0 and
    the first later line that begins with [## ] is at offset 32.
    [findSectionEnd] returns 19, the offset inside the entry line at
    which the text of that heading first occurs: the position is
    recovered by searching for the line's text.  The same happens on a
    document the engine wrote itself: after [refInput], which
    [ValidateInput] accepts, is stored under constraints on the empty
    store, the heading line [## Decisions] is at offset 251 and
    [findSectionEnd] returns 219, inside the entry's line; the next
    append to constraints is spliced into the middle of that line. *)
Theorem findSectionEnd_stops_inside_a_line :
  (findSectionStart crossReference "Constraints" = 0 /\
   specSectionEnd crossReference 0 = 32 /\
   findSectionEnd crossReference 0 = Some 19 /\
   slice crossReference 15 31 = Some "see ## Decisions" /\
   slice_from crossReference 32 = Some "## Decisions
") /\
  ValidateInput refInput = None /\
  let afterRef :=
    snd (AppendMemory (service repository) Background refInput refId stamp emptyWorld) in
  let doc := stored repository afterRef in
  findSectionStart doc "Constraints" = 91 /\
  specSectionEnd doc 91 = 251 /\
  findSectionEnd doc 91 = Some 219 /\
  slice doc 203 231 = Some "* **[Ref]** see ## Decisions" /\
  stored repository
    (snd (AppendEntry repository Background SectionConstraints apiEntry afterRef))
  = frontMatter "2024-01-15T10:30:00Z" ++ "## Constraints

<!-- entry-id: 018d0c5e-7b3a-7000-8000-0123456789ad, tag: [Ref], time: 2024-01-15T10:30:00Z -->
* **[Ref]** see " ++ renderEntry apiEntry ++ "
## Decisions
<!-- entry-end -->
## Decisions

## Patterns

## Anti-Patterns
".
Proof. repeat split; vm_compute; reflexivity. Qed.

(* ================================================================== *)
(** ** The theorems at concrete inputs *)
(* ================================================================== *)

(** Evaluate the lengths in the goal, then decide it. *)
Ltac by_length :=
  repeat match goal with
         | |- context [len ?s] =>
             let v := eval vm_compute in (len s) in
             change (len s) with v
         end;
  lia.

Lemma empty_category_lands_in_constraints_witness :
  ValidateInput noteInput = None /\
  exists w',
    AppendMemory (service repository) Background noteInput "018d0c5e-7b3a-7000-8000-0123456789ab"
                 stamp emptyWorld = (Ok tt, w') /\
    files w' (FilePath repository) =
    Some (frontMatter (FormatRFC3339 (Now (timeProvider repository) emptyWorld))
          ++ "## Constraints

" ++ renderEntry (PrepareEntry noteInput "018d0c5e-7b3a-7000-8000-0123456789ab" stamp)
          ++ LF ++ "## Decisions

## Patterns

## Anti-Patterns
").
Proof.
  destruct (empty_category_lands_in_constraints repository Background noteInput
              "018d0c5e-7b3a-7000-8000-0123456789ab" stamp emptyWorld
              eq_refl eq_refl eq_refl) as (_ & V & _ & _ & H).
  split; [|exact H].
  apply V; try by_length. vm_compute; reflexivity.
Defined.

Lemma append_changes_no_byte_outside_the_splice_witness :
  let w' := snd (AppendEntry repository Background SectionPatterns dbEntry
                   (worldWith legacyDocument [])) in
  exists D',
    files w' (FilePath repository) = Some D' /\
    len D' = len legacyDocument + len (renderEntry dbEntry) + 1 /\
    slice_to D' 156 = slice_to legacyDocument 156 /\
    slice D' 156 (156 + len (renderEntry dbEntry) + 1)
      = Some (renderEntry dbEntry ++ LF) /\
    slice_from D' (156 + len (renderEntry dbEntry) + 1)
      = slice_from legacyDocument 156.
Proof.
  intros w'.
  destruct (append_changes_no_byte_outside_the_splice repository Background
              SectionPatterns dbEntry (worldWith legacyDocument [])
              legacyDocument 143 156) as (_ & _ & H);
    [reflexivity | reflexivity | discriminate | reflexivity |].
  apply (H w'). vm_compute. reflexivity.
Defined.

Lemma failed_atomic_write_leaves_document_untouched_witness :
  let run := AppendEntry repository Background SectionPatterns dbEntry
               (worldWith legacyDocument writeFails) in
  fst run = Err (Errorf "failed to write memory file: "
                   (Errorf "failed to write temp file: " (OSError "write") "") "") /\
  files (snd run) (FilePath repository) = Some legacyDocument /\
  files (snd run) (FilePath repository ++ ".tmp") = None.
Proof.
  intros run.
  destruct (failed_atomic_write_leaves_document_untouched repository Background
              SectionPatterns dbEntry (worldWith legacyDocument writeFails)
              (fst run) (snd run)) as (_ & H & _);
    [vm_compute; reflexivity|].
  split; [vm_compute; reflexivity|].
  destruct (H (Errorf "failed to write temp file: " (OSError "write") ""))
    as (_ & R & T & _); [vm_compute; reflexivity|].
  split; [exact R | apply T; reflexivity].
Defined.

(** The temporary file is not always removed.  Here the write of the
    temporary file fails after three bytes and the removal that follows
    fails as well: the run reports the failed write, the memory file is
    untouched, and the three bytes stay at the temporary path, where
    there was no file before. *)
Lemma failed_removal_leaves_the_temporary_file :
  let w := worldWith legacyDocument writeAndRemovalFail in
  let run := AppendEntry repository Background SectionPatterns dbEntry w in
  files w (FilePath repository ++ ".tmp") = None /\
  fst run = Err (Errorf "failed to write memory file: "
                   (Errorf "failed to write temp file: " (OSError "write") "") "") /\
  files (snd run) (FilePath repository) = Some legacyDocument /\
  files (snd run) (FilePath repository ++ ".tmp") = Some "---" /\
  files (snd run) (FilePath repository ++ ".tmp") <> None.
Proof.
  vm_compute. repeat split. discriminate.
Qed.

Lemma GetSection_missing_content_is_empty_witness :
  fst (GetSection repository Background SectionPatterns emptyWorld)
  = Ok (mkSection SectionPatterns []).
Proof.
  pose proof (GetSection_missing_content_is_empty repository Background
                SectionPatterns emptyWorld) as H.
  replace (readFile repository emptyWorld) with (@Ok string "", emptyWorld) in H
    by (vm_compute; reflexivity).
  cbn [fst] in H. destruct H as (_ & _ & entries & E & Z).
  rewrite E. now rewrite Z by (left; reflexivity).
Defined.

Lemma validation_boundaries_witness :
  ValidateInput (longInput 2000) = None /\
  ValidateInput (longInput 2001) =
    Some (Errorf "" ErrInvalidContent
            ": content must be 2000 characters or less (got 2001)") /\
  ValidateInput listInput =
    Some (Errorf "" ErrListItem ": content cannot be a list item").
Proof.
  split; [|split].
  - destruct (validation_boundaries (longInput 2000)) as (_ & _ & _ & _ & H & _).
    apply H; try by_length; [|vm_compute; reflexivity].
    split; [vm_compute; reflexivity | by_length].
  - destruct (validation_boundaries (longInput 2001)) as (_ & _ & _ & _ & H & _).
    apply H; try by_length.
    split; [vm_compute; reflexivity | by_length].
  - destruct (validation_boundaries listInput) as (_ & _ & _ & H & _).
    apply H.
    + intros tok I. vm_compute in I.
      repeat (destruct I as [<-|I]; [vm_compute; reflexivity|]). contradiction.
    + left. vm_compute. reflexivity.
    + split; [vm_compute; reflexivity | by_length].
    + by_length.
Defined.

(* ================================================================== *)
(** ** What a run may touch *)
(* ================================================================== *)

Module StoreFacts.

Lemma slog_faults_eq (l : Level) (m : string) (a : list (string * string)) (w : World) :
  faults (slog l m a w) = faults w.
Proof. reflexivity. Qed.

(** [atomicWrite] leaves every path but the real one and the temporary
    one alone. *)
Lemma atomicWrite_others (r : MarkdownMemoryRepository) (content : string)
    (w : World) (q : string) :
  String.eqb q (FilePath r) = false ->
  String.eqb q (FilePath r ++ ".tmp") = false ->
  files (snd (atomicWrite r content w)) q = files w q.
Proof.
  intros Q1 Q2. unfold atomicWrite.
  remember (FilePath r) as real eqn:Hreal.
  remember (real ++ ".tmp")%string as tmp eqn:Htmp.
  unfold WriteFile.
  step_fault w as f w1 NF. destruct NF as (Ff & _ & _).
  assert (R : forall w0, files (Remove tmp w0) q = files w0 q)
    by (intros w0; apply Remove_spec; exact Q2).
  destruct f; cbn [fst snd].
  - unfold Rename.
    remember (setFiles (update (files w1) tmp (Some content)) w1) as w2 eqn:Hw2.
    assert (W2 : files w2 q = files w q)
      by (subst w2; cbn [files setFiles]; rewrite update_other by exact Q2; now rewrite Ff).
    clear Hw2. step_fault w2 as g w3 NG. destruct NG as (Gf & _ & _).
    destruct g, (files w3 tmp); cbn [fst snd]; rewrite ?R;
      cbn [files setFiles]; rewrite ?update_other by assumption; congruence.
  - rewrite R. now rewrite Ff.
  - rewrite R. cbn [files setFiles]. rewrite update_other by exact Q2. now rewrite Ff.
  - rewrite R. now rewrite Ff.
Qed.

(** After any run of [AppendEntry] the paths other than the real one
    and the temporary one hold what they held. *)
Lemma AppendEntry_others (r : MarkdownMemoryRepository) (ctx : Context)
    (st : SectionType) (entry : Entry) (w : World) (q : string) :
  String.eqb q (FilePath r) = false ->
  String.eqb q (FilePath r ++ ".tmp") = false ->
  files (snd (AppendEntry r ctx st entry w)) q = files w q.
Proof.
  intros Q1 Q2.
  destruct (AppendEntry r ctx st entry w) as [res w'] eqn:Run. cbn [snd].
  apply AppendEntry_cases in Run. cbv zeta in Run.
  destruct Run as [(e & _ & (F & _) & _)|(w1 & end_ & (F & _) & _ & _ & (FA & _) & _)].
  - now rewrite F.
  - rewrite FA, atomicWrite_others by assumption. now rewrite F.
Qed.

(** A run never panics: its outcome is a value or an error. *)
Lemma AppendEntry_outcome (r : MarkdownMemoryRepository) (ctx : Context)
    (st : SectionType) (entry : Entry) (w : World) :
  fst (AppendEntry r ctx st entry w) <> Panic.
Proof.
  destruct (AppendEntry r ctx st entry w) as [res w'] eqn:Run. cbn [fst].
  apply AppendEntry_cases in Run. cbv zeta in Run.
  destruct Run as [(e & -> & _)|(w1 & end_ & _ & _ & _ & _ & ->)]; [discriminate|].
  pose proof (atomicWrite_spec r (spliced (workingDocument r w) end_ entry) w1)
    as (_ & _ & A). cbv zeta in A.
  destruct (fst (atomicWrite r (spliced (workingDocument r w) end_ entry) w1));
    [discriminate | discriminate | contradiction].
Qed.

(** [GetSection] changes neither files nor clock nor history. *)
Lemma GetSection_frame (r : MarkdownMemoryRepository) (ctx : Context)
    (st : SectionType) (w : World) :
  frame w (snd (GetSection r ctx st w)).
Proof.
  destruct (GetSection r ctx st w) as [res w'] eqn:G. cbn [snd].
  unfold GetSection in G. unfold bind at 1 in G.
  destruct (readFile_spec r w) as [F _].
  destruct (readFile r w) as [[content|e|] w1]; cbn [snd] in F;
    [|now inversion G; subst|now inversion G; subst].
  destruct (String.eqb content "").
  { cbv [ret] in G. now inversion G; subst. }
  destruct (extractSection_total content st) as (block & EB).
  unfold bind at 1 in G. rewrite EB in G. cbn [orPanic ret] in G.
  destruct (String.eqb block "").
  { now inversion G; subst. }
  destruct (parseV1Anchored block).
  - now inversion G; subst.
  - destruct (0 <? List.length (parseLegacyInline block))%nat; inversion G; subst;
      [eapply frame_trans; [exact F | apply slog_frame] | exact F].
  - destruct (0 <? List.length (parseLegacyInline block))%nat; inversion G; subst;
      [eapply frame_trans; [exact F | apply slog_frame] | exact F].
Qed.

(** *** Runs without faults, with the world they leave *)

Lemma Unlock_nofault (w : World) : faults w = [] -> Unlock w = (Ok tt, w).
Proof. intros H. unfold Unlock. now rewrite nextFault_nil. Qed.

Lemma deferredUnlock_nofault (w : World) :
  faults w = [] -> deferredUnlock Unlock w = w.
Proof. intros H. unfold deferredUnlock. now rewrite Unlock_nofault. Qed.

Lemma atomicWrite_nofault_run (r : MarkdownMemoryRepository) (content : string)
    (w : World) :
  faults w = [] ->
  fst (atomicWrite r content w) = Ok tt /\
  faults (snd (atomicWrite r content w)) = [] /\
  clock (snd (atomicWrite r content w)) = clock w /\
  files (snd (atomicWrite r content w)) (FilePath r) = Some content /\
  files (snd (atomicWrite r content w)) (FilePath r ++ ".tmp") = None.
Proof.
  intros H.
  pose proof (atomicWrite_spec r content w) as (C & _ & A). cbv zeta in A.
  pose proof (atomicWrite_nofault r content w H) as O. rewrite O in A.
  split; [exact O|]. split; [|split; [exact C | exact A]].
  unfold atomicWrite, WriteFile, Rename.
  rewrite nextFault_nil by assumption. rewrite nextFault_nil by assumption.
  cbn [files setFiles]. rewrite update_same. cbn. exact H.
Qed.

(** The whole of a run without faults on a document that has the
    heading. *)
Lemma AppendEntry_nofault_run (r : MarkdownMemoryRepository) (ctx : Context)
    (st : SectionType) (entry : Entry) (w : World) :
  faults w = [] ->
  findSectionStart (workingDocument r w) (capitalize st) <> -1 ->
  exists end_ w',
    findSectionEnd (workingDocument r w)
      (findSectionStart (workingDocument r w) (capitalize st)) = Some end_ /\
    AppendEntry r ctx st entry w = (Ok tt, w') /\
    faults w' = [] /\ clock w' = clock w /\
    files w' (FilePath r) = Some (spliced (workingDocument r w) end_ entry).
Proof.
  intros NF S.
  destruct (AppendEntry r ctx st entry w) as [res w'] eqn:Run.
  pose proof (AppendEntry_nofault r ctx st entry w NF) as O.
  rewrite Run in O. cbn [fst] in O.
  replace (_ =? -1) with false in O by (symmetry; now apply Z.eqb_neq).
  subst res.
  (* replay the run to read off the final world *)
  unfold AppendEntry in Run. unfold bind at 1 in Run.
  rewrite acquireLock_nofault in Run by assumption.
  unfold defer in Run. unfold bind at 1 in Run.
  rewrite readFile_nofault in Run by assumption.
  assert (HD : (if String.eqb (stored r w) "" then createInitialContent r
                else ret (stored r w)) w = (Ok (workingDocument r w), w)).
  { unfold workingDocument. now destruct (String.eqb (stored r w) ""). }
  unfold bind at 1 in Run. rewrite HD in Run. clear HD.
  set (D := workingDocument r w) in *.
  replace (findSectionStart D (capitalize st) =? -1) with false in Run
    by (symmetry; now apply Z.eqb_neq).
  destruct (findSectionStart_range D (capitalize st)) as [?|[S0 S1]]; [contradiction|].
  pose proof (len_nonneg (capitalize st)).
  destruct (findSectionEnd_total D _ S0 ltac:(lia)) as (e & E & E1 & E2).
  unfold bind at 1 in Run. rewrite E in Run. cbn [orPanic ret] in Run.
  unfold bind at 1 in Run. rewrite slice_to_some in Run by lia. cbn [orPanic ret] in Run.
  unfold bind at 1 in Run. rewrite slice_some in Run by lia. cbn [orPanic ret] in Run.
  unfold bind at 1 in Run. rewrite slice_from_some in Run by lia. cbn [orPanic ret] in Run.
  set (start := findSectionStart D (capitalize st)) in *.
  replace (take (Z.to_nat start) D
           ++ take (Z.to_nat (e - start)) (drop (Z.to_nat start) D)
           ++ renderEntry entry ++ LF ++ drop (Z.to_nat e) D)
    with (spliced D e entry) in Run.
  2:{ unfold spliced. rewrite <- (append_assoc (take (Z.to_nat start) D)).
      replace (Z.to_nat (e - start)) with (Z.to_nat e - Z.to_nat start)%nat by lia.
      now rewrite take_split by lia. }
  destruct (atomicWrite_nofault_run r (spliced D e entry) w NF) as (A1 & A2 & A3 & A4 & _).
  destruct (atomicWrite r (spliced D e entry) w) as [ar wa]. cbn [fst snd] in *.
  subst ar.
  exists e, w'. split; [exact E|]. split; [reflexivity|].
  rewrite deferredUnlock_nofault in Run by (rewrite slog_faults_eq; exact A2).
  inversion Run; subst w'. cbn [faults clock files slog].
  auto.
Qed.

End StoreFacts.

Import StoreFacts.

(* ================================================================== *)
(** ** The section end on text without [#] *)
(* ================================================================== *)

Module CleanSections.

Lemma Split_app_nl (x t : string) (sep : ascii) :
  Split (x ++ String sep t) sep = app (Split x sep) (Split t sep).
Proof.
  induction x as [|c x IH]; cbn [append Split].
  - now rewrite Ascii.eqb_refl.
  - destruct (Ascii.eqb c sep); [now rewrite IH|].
    rewrite IH. destruct (Split x sep) as [|l ls] eqn:E; [|reflexivity].
    exfalso. now apply (Split_nonempty x sep).
Qed.

Lemma noChar_Split (c sep : ascii) (x l : string) :
  noChar c x = true -> In l (Split x sep) -> noChar c l = true.
Proof.
  revert l; induction x as [|d x IH]; intros l H I; cbn [Split] in I.
  - destruct I as [<-|[]]. reflexivity.
  - cbn [noChar] in H. apply andb_true_iff in H as [Hd Hx].
    destruct (Ascii.eqb d sep).
    + destruct I as [<-|I]; [reflexivity | now apply IH].
    + destruct (Split x sep) as [|l0 ls] eqn:E.
      * destruct I as [<-|[]]. cbn. now rewrite Hd.
      * destruct I as [<-|I].
        -- cbn [noChar]. rewrite Hd. apply IH; [exact Hx | now left].
        -- apply IH; [exact Hx | now right].
Qed.

Lemma noChar_not_heading (l : string) :
  noChar hash l = true -> HasPrefix l "## " = false.
Proof.
  destruct l as [|c l]; [reflexivity|]. cbn [noChar]. intros H.
  apply andb_true_iff in H as [H _]. unfold HasPrefix. cbn [String.prefix].
  destruct (ascii_dec "#" c) as [<-|_]; [discriminate | reflexivity].
Qed.

Lemma find_heading_skip (x t : string) :
  noChar hash x = true ->
  find (fun line => HasPrefix line "## ") (Split (x ++ String nl t) nl)
  = find (fun line => HasPrefix line "## ") (Split t nl).
Proof.
  intros H. rewrite Split_app_nl.
  assert (G : forall ls, (forall l, In l ls -> noChar hash l = true) ->
              forall rest, find (fun line => HasPrefix line "## ") (app ls rest)
                           = find (fun line => HasPrefix line "## ") rest).
  { induction ls as [|l ls IH]; intros A rest; [reflexivity|].
    cbn [app find]. rewrite noChar_not_heading by (apply A; now left).
    apply IH. intros l' I. apply A. now right. }
  apply G. intros l I. eapply noChar_Split; eauto.
Qed.

Lemma find_heading_none (x : string) :
  noChar hash x = true ->
  find (fun line => HasPrefix line "## ") (Split x nl) = None.
Proof.
  intros H. destruct (find _ _) as [l|] eqn:F; [|reflexivity].
  apply find_some in F as [I P].
  rewrite noChar_not_heading in P by (eapply noChar_Split; eauto). discriminate.
Qed.

(** The first line of a text that begins with a heading marker begins
    with it too. *)
Lemma Split_heading (t : string) :
  HasPrefix t "## " = true ->
  exists l ls b, Split t nl = l :: ls /\ HasPrefix l "## " = true /\ t = l ++ b.
Proof.
  intros H. unfold HasPrefix in H.
  destruct t as [|c1 [|c2 [|c3 t]]]; cbn [String.prefix] in H; try discriminate;
    destruct (ascii_dec "#" c1) as [<-|]; try discriminate;
    try (destruct (ascii_dec "#" c2) as [<-|]; try discriminate);
    try (destruct (ascii_dec " " c3) as [<-|]; try discriminate).
  destruct (Split t nl) as [|l ls] eqn:E.
  - exfalso. now apply (Split_nonempty t nl).
  - destruct (Split_head _ _ _ _ E) as (b & Hb).
    exists (String "#" (String "#" (String " " l))), ls, b.
    split; [|split].
    + change (Split (String "#" (String "#" (String " " t))) nl)
        with (match (match (match Split t nl with [] => [String " " ""] | l :: ls => String " " l :: ls end)
                     with [] => [String "#" ""] | l :: ls => String "#" l :: ls end)
              with [] => [String "#" ""] | l :: ls => String "#" l :: ls end).
      now rewrite E.
    + unfold HasPrefix. cbn [String.prefix].
      repeat (destruct (ascii_dec _ _); [|congruence]).
      destruct l; reflexivity.
    + cbn [append]. now rewrite <- Hb.
Qed.

Lemma Index_prefix (s sub : string) :
  String.prefix sub s = true -> Index s sub = 0.
Proof.
  intros H. unfold Index. destruct s; cbn [index_nat]; now rewrite H.
Qed.

End CleanSections.

Import CleanSections.

Section CleanSection.

Variables pre x tail : string.

Let content := pre ++ "## " ++ x ++ String nl tail.

Lemma remaining_clean :
  slice_from content (len pre + 3) = Some (x ++ String nl tail).
Proof.
  subst content.
  replace (pre ++ "## " ++ x ++ String nl tail)
    with ((pre ++ "## ") ++ x ++ String nl tail) by (now rewrite append_assoc).
  replace (len pre + 3) with (len (pre ++ "## "))
    by (rewrite len_append; reflexivity).
  apply slice_from_app.
Qed.

Lemma findSectionEnd_before_heading :
  noChar hash x = true -> HasPrefix tail "## " = true ->
  findSectionEnd content (len pre) = Some (len pre + 3 + len x + 1).
Proof.
  intros Hx Ht. unfold findSectionEnd. rewrite remaining_clean.
  rewrite find_heading_skip by exact Hx.
  destruct (Split_heading tail Ht) as (l & ls & b & E & P & Hb).
  rewrite E. cbn [find]. rewrite P.
  unfold HasPrefix in P. destruct l as [|c l]; [discriminate|].
  cbn [String.prefix] in P. destruct (ascii_dec "#" c) as [<-|]; [|discriminate].
  change (x ++ String nl tail) with (x ++ (String nl "") ++ tail).
  rewrite <- append_assoc.
  rewrite Index_skip.
  - rewrite Index_prefix by (rewrite Hb; apply prefix_app).
    rewrite len_append. change (len (String nl "")) with 1. f_equal. lia.
  - change (noChar hash (x ++ String nl "") = true).
    rewrite noChar_append, Hx. reflexivity.
  - rewrite Index_prefix by (rewrite Hb; apply prefix_app). lia.
Qed.

Lemma offset_of_tail :
  len pre + 3 + len x + 1 = len (pre ++ "## " ++ x ++ String nl "").
Proof.
  rewrite !len_append. change (len "## ") with 3.
  change (len (String nl "")) with 1. lia.
Qed.

Lemma content_split :
  content = (pre ++ "## " ++ x ++ String nl "") ++ tail.
Proof. subst content. now rewrite !append_assoc. Qed.

Lemma findSectionEnd_last :
  noChar hash x = true -> noChar hash tail = true ->
  findSectionEnd content (len pre) = Some (len content).
Proof.
  intros Hx Ht. unfold findSectionEnd. rewrite remaining_clean.
  rewrite find_heading_none; [reflexivity|].
  change (x ++ String nl tail) with (x ++ (String nl "") ++ tail).
  rewrite !noChar_append, Hx, Ht. reflexivity.
Qed.

End CleanSection.

(** X1.  A heading at offset [len pre], followed by text [x] without any
    [#], a line feed, and then [tail].  When [tail] begins with [## ],
    [findSectionEnd] gives the offset at which [tail] begins; when
    [tail] holds no [#] either, it gives the length of the document. *)
Theorem findSectionEnd_on_clean_text (pre x tail : string) :
  noChar hash x = true ->
  let content := pre ++ "## " ++ x ++ String nl tail in
  (HasPrefix tail "## " = true ->
   exists end_, findSectionEnd content (len pre) = Some end_ /\
                slice_to content end_ = Some (pre ++ "## " ++ x ++ String nl "") /\
                slice_from content end_ = Some tail) /\
  (noChar hash tail = true ->
   findSectionEnd content (len pre) = Some (len content)).
Proof.
  intros Hx content. split.
  - intros Ht. exists (len pre + 3 + len x + 1).
    split; [now apply findSectionEnd_before_heading|].
    rewrite offset_of_tail. subst content. rewrite content_split.
    split; [apply slice_to_app | apply slice_from_app].
  - intros Ht. now apply findSectionEnd_last.
Qed.

(* ================================================================== *)
(** ** Where an entry lands *)
(* ================================================================== *)

Module AppendFacts.

Lemma append_not_empty (a b : string) (c : ascii) :
  String.eqb (a ++ String c b) "" = false.
Proof. destruct a; reflexivity. Qed.

Lemma spliced_at (a b : string) (entry : Entry) :
  spliced (a ++ b) (len a) entry = a ++ renderEntry entry ++ LF ++ b.
Proof.
  unfold spliced. rewrite to_nat_len.
  rewrite <- (Nat.add_0_r (String.length a)), take_app, drop_app.
  replace (take 0 b) with "" by (now destruct b).
  now rewrite append_nil_r.
Qed.

Lemma stored_of (r : MarkdownMemoryRepository) (w : World) (data : string) :
  files w (FilePath r) = Some data -> stored r w = data.
Proof. unfold stored. now intros ->. Qed.

Lemma workingDocument_stored (r : MarkdownMemoryRepository) (w : World) :
  String.eqb (stored r w) "" = false -> workingDocument r w = stored r w.
Proof. unfold workingDocument. now intros ->. Qed.

Lemma noChar_renderEntry (entry : Entry) :
  hashFree entry = true -> noChar hash (renderEntry entry) = true.
Proof.
  unfold hashFree. intros H.
  repeat (apply andb_true_iff in H as [H ?]).
  unfold renderEntry.
  destruct (negb (String.eqb (Rationale entry) ""));
    rewrite !noChar_append, noChar_FormatRFC3339;
    repeat match goal with E : noChar hash _ = true |- _ => rewrite E; clear E end;
    reflexivity.
Qed.

(** One append to a section of text without [#], in a run without
    faults. *)
Lemma AppendEntry_clean (r : MarkdownMemoryRepository) (ctx : Context)
    (st : SectionType) (entry : Entry) (w : World) (pre x tail : string) :
  faults w = [] ->
  workingDocument r w = pre ++ "## " ++ x ++ String nl tail ->
  findSectionStart (workingDocument r w) (capitalize st) = len pre ->
  noChar hash x = true ->
  exists w',
    AppendEntry r ctx st entry w = (Ok tt, w') /\
    faults w' = [] /\ clock w' = clock w /\
    (HasPrefix tail "## " = true ->
     stored r w' = pre ++ "## " ++ x ++ String nl (renderEntry entry ++ LF ++ tail)) /\
    (noChar hash tail = true ->
     stored r w' = pre ++ "## " ++ x ++ String nl (tail ++ renderEntry entry ++ LF)).
Proof.
  intros NF WD FS Hx.
  pose proof (len_nonneg pre) as Lp.
  destruct (AppendEntry_nofault_run r ctx st entry w NF ltac:(rewrite FS; lia))
    as (end_ & w' & E & Run & NF' & C & Fi).
  exists w'. repeat (split; [assumption|]).
  rewrite FS, WD in E. rewrite WD in Fi. split; intros Ht.
  - rewrite findSectionEnd_before_heading in E by assumption.
    assert (Ee : end_ = len pre + 3 + len x + 1) by congruence. subst end_.
    rewrite offset_of_tail, content_split, spliced_at in Fi.
    rewrite (stored_of _ _ _ Fi). now rewrite !append_assoc.
  - rewrite findSectionEnd_last in E by assumption.
    assert (Ee : end_ = len (pre ++ "## " ++ x ++ String nl tail)) by congruence.
    subst end_.
    rewrite <- (append_nil_r (pre ++ "## " ++ x ++ String nl tail)) in Fi at 1.
    rewrite spliced_at in Fi.
    rewrite (stored_of _ _ _ Fi). rewrite ?append_assoc.
    cbn [append]. rewrite ?append_assoc, ?append_nil_r. reflexivity.
Qed.

End AppendFacts.

Import AppendFacts.

(* ================================================================== *)
(** ** A run of appends *)
(* ================================================================== *)

Module SequenceFacts.

Lemma prefix_app_true (sub a b : string) :
  String.prefix sub a = true -> String.prefix sub (a ++ b) = true.
Proof.
  intros H. rewrite (prefix_inv _ _ H), append_assoc. apply prefix_app.
Qed.

Lemma prefix_app_false (sub a b : string) :
  String.prefix sub a = false -> (String.length sub <= String.length a)%nat ->
  String.prefix sub (a ++ b) = false.
Proof.
  revert a; induction sub as [|c sub IH]; intros a H L.
  - now destruct a.
  - destruct a as [|d a]; [cbn in L; lia|].
    cbn [append String.prefix] in *.
    destruct (ascii_dec c d); [|reflexivity].
    apply IH; [assumption | cbn in L; lia].
Qed.

(** The first occurrence stays the first when text follows. *)
Lemma index_nat_app (a b sub : string) (n : nat) :
  index_nat a sub = Some n -> index_nat (a ++ b) sub = Some n.
Proof.
  revert n; induction a as [|c a IH]; intros n H.
  - rewrite index_nat_nil in H.
    destruct (String.prefix sub "") eqn:P; [|discriminate].
    apply prefix_nil_r in P. subst sub. injection H as <-.
    cbn [append]. now destruct b.
  - pose proof (index_nat_bound _ _ _ H) as B.
    rewrite index_nat_cons in H. cbn [append]. rewrite index_nat_cons.
    destruct (String.prefix sub (String c a)) eqn:P.
    + change (String c (a ++ b)) with (String c a ++ b).
      now rewrite (prefix_app_true _ _ _ P).
    + change (String c (a ++ b)) with (String c a ++ b).
      destruct (index_nat a sub) as [m|] eqn:E; [|discriminate].
      cbn [option_map] in H. injection H as <-.
      rewrite (prefix_app_false _ _ _ P) by lia.
      now rewrite (IH _ eq_refl).
Qed.

Lemma Index_app (a b sub : string) :
  0 <= Index a sub -> Index (a ++ b) sub = Index a sub.
Proof.
  unfold Index. destruct (index_nat a sub) as [n|] eqn:E; [|lia].
  intros _. now rewrite (index_nat_app _ _ _ _ E).
Qed.

Lemma findSectionStart_app (a b section : string) :
  0 <= findSectionStart a section ->
  findSectionStart (a ++ b) section = findSectionStart a section.
Proof. apply Index_app. Qed.

Lemma Forall_hashFree (entry : Entry) (rest : list Entry) :
  Forall (fun e => hashFree e = true) (entry :: rest) ->
  noChar hash (renderEntry entry) = true /\
  Forall (fun e => hashFree e = true) rest.
Proof.
  intros H. inversion H; subst. split; [now apply noChar_renderEntry | assumption].
Qed.

Lemma noChar_blocks (entries : list Entry) :
  Forall (fun e => hashFree e = true) entries ->
  noChar hash (blocks entries) = true.
Proof.
  induction entries as [|e es IH]; intros H; [reflexivity|].
  apply Forall_hashFree in H as [He Hes]. cbn [blocks].
  rewrite !noChar_append, He, (IH Hes). reflexivity.
Qed.

(** Appends to a section that another heading follows. *)
Lemma appendAll_before_heading (r : MarkdownMemoryRepository) (ctx : Context)
    (st : SectionType) (pre tail : string) (entries : list Entry) :
  HasPrefix tail "## " = true ->
  Forall (fun e => hashFree e = true) entries ->
  forall (x : string) (w : World),
  faults w = [] ->
  workingDocument r w = pre ++ "## " ++ x ++ String nl tail ->
  findSectionStart (pre ++ "## " ++ x ++ LF) (capitalize st) = len pre ->
  noChar hash x = true ->
  exists w',
    appendAll r ctx st entries w = (Ok tt, w') /\ faults w' = [] /\
    workingDocument r w' = pre ++ "## " ++ x ++ String nl (blocks entries ++ tail) /\
    (String.eqb (stored r w) "" = false \/ entries <> [] ->
     String.eqb (stored r w') "" = false).
Proof.
  intros Ht. induction entries as [|e es IH]; intros He x w NF WD FS Hx.
  - exists w. cbn [appendAll blocks append]. repeat split; auto.
    intros [H|H]; [assumption | congruence].
  - apply Forall_hashFree in He as [He Hes].
    pose proof (len_nonneg pre) as Lp.
    assert (FSw : findSectionStart (workingDocument r w) (capitalize st) = len pre).
    { rewrite WD.
      replace (pre ++ "## " ++ x ++ String nl tail)
        with ((pre ++ "## " ++ x ++ LF) ++ tail)
        by (rewrite !append_assoc; reflexivity).
      rewrite findSectionStart_app; [assumption | rewrite FS; lia]. }
    destruct (AppendEntry_clean r ctx st e w pre x tail NF WD FSw Hx)
      as (w1 & Run & NF1 & _ & St & _).
    specialize (St Ht).
    assert (N1 : String.eqb (stored r w1) "" = false).
    { rewrite St.
      replace (pre ++ "## " ++ x ++ String nl (renderEntry e ++ LF ++ tail))
        with ((pre ++ "## " ++ x) ++ String nl (renderEntry e ++ LF ++ tail))
        by (now rewrite !append_assoc).
      apply append_not_empty. }
    assert (W1 : workingDocument r w1
                 = pre ++ "## " ++ (x ++ String nl (renderEntry e)) ++ String nl tail).
    { rewrite workingDocument_stored by exact N1. rewrite St.
      rewrite !append_assoc. reflexivity. }
    destruct (IH Hes (x ++ String nl (renderEntry e)) w1 NF1 W1)
      as (w' & Run' & NF' & WD' & N').
    + replace (pre ++ "## " ++ (x ++ String nl (renderEntry e)) ++ LF)
        with ((pre ++ "## " ++ x ++ LF) ++ renderEntry e ++ LF)
        by (rewrite !append_assoc; reflexivity).
      rewrite findSectionStart_app; [assumption | rewrite FS; lia].
    + rewrite noChar_append, Hx. cbn [noChar]. now rewrite He.
    + exists w'. cbn [appendAll]. unfold bind. rewrite Run.
      split; [assumption|]. split; [assumption|]. split.
      * rewrite WD'. cbn [blocks]. rewrite !append_assoc. reflexivity.
      * intros _. apply N'. now left.
Qed.

(** Appends to the last section of a document. *)
Lemma appendAll_last (r : MarkdownMemoryRepository) (ctx : Context)
    (st : SectionType) (pre x : string) (entries : list Entry) :
  noChar hash x = true ->
  Forall (fun e => hashFree e = true) entries ->
  forall (tail : string) (w : World),
  faults w = [] ->
  workingDocument r w = pre ++ "## " ++ x ++ String nl tail ->
  findSectionStart (pre ++ "## " ++ x ++ LF) (capitalize st) = len pre ->
  noChar hash tail = true ->
  exists w',
    appendAll r ctx st entries w = (Ok tt, w') /\ faults w' = [] /\
    workingDocument r w' = pre ++ "## " ++ x ++ String nl (tail ++ blocks entries) /\
    (String.eqb (stored r w) "" = false \/ entries <> [] ->
     String.eqb (stored r w') "" = false).
Proof.
  intros Hx. induction entries as [|e es IH]; intros He tail w NF WD FS Ht.
  - exists w. cbn [appendAll blocks]. rewrite append_nil_r. repeat split; auto.
    intros [H|H]; [assumption | congruence].
  - apply Forall_hashFree in He as [He Hes].
    pose proof (len_nonneg pre) as Lp.
    assert (FSw : findSectionStart (workingDocument r w) (capitalize st) = len pre).
    { rewrite WD.
      replace (pre ++ "## " ++ x ++ String nl tail)
        with ((pre ++ "## " ++ x ++ LF) ++ tail)
        by (rewrite !append_assoc; reflexivity).
      rewrite findSectionStart_app; [assumption | rewrite FS; lia]. }
    destruct (AppendEntry_clean r ctx st e w pre x tail NF WD FSw Hx)
      as (w1 & Run & NF1 & _ & _ & St).
    specialize (St Ht).
    assert (N1 : String.eqb (stored r w1) "" = false).
    { rewrite St.
      replace (pre ++ "## " ++ x ++ String nl (tail ++ renderEntry e ++ LF))
        with ((pre ++ "## " ++ x) ++ String nl (tail ++ renderEntry e ++ LF))
        by (now rewrite !append_assoc).
      apply append_not_empty. }
    assert (W1 : workingDocument r w1
                 = pre ++ "## " ++ x ++ String nl (tail ++ renderEntry e ++ LF)).
    { rewrite workingDocument_stored by exact N1. exact St. }
    destruct (IH Hes (tail ++ renderEntry e ++ LF) w1 NF1 W1 FS)
      as (w' & Run' & NF' & WD' & N').
    + rewrite !noChar_append, Ht, He. reflexivity.
    + exists w'. cbn [appendAll]. unfold bind. rewrite Run.
      split; [assumption|]. split; [assumption|]. split.
      * rewrite WD'. cbn [blocks]. rewrite !append_assoc. reflexivity.
      * intros _. apply N'. now left.
Qed.

End SequenceFacts.

Import SequenceFacts.

(* ================================================================== *)
(** ** The store around a run *)
(* ================================================================== *)

Section StoreAroundARun.

Variable r : MarkdownMemoryRepository.
Variable ctx : Context.

(** X2.  Whatever the system calls do, a run of [AppendEntry] ends in a
    value or an error, never in a panic; a run that ends in an error,
    of whatever kind, leaves at the memory file what was there and the
    clock as it was; and a run that succeeds leaves there the document
    it worked on with the rendered entry and a line feed spliced in at
    the section end. *)
Theorem AppendEntry_error_keeps_the_document
    (st : SectionType) (entry : Entry) (w : World) :
  let run := AppendEntry r ctx st entry w in
  fst run <> Panic /\
  (forall e, fst run = Err e ->
     files (snd run) (FilePath r) = files w (FilePath r) /\
     clock (snd run) = clock w) /\
  (fst run = Ok tt ->
   exists end_,
     findSectionEnd (workingDocument r w)
       (findSectionStart (workingDocument r w) (capitalize st)) = Some end_ /\
     files (snd run) (FilePath r)
     = Some (spliced (workingDocument r w) end_ entry)).
Proof.
  cbv zeta. split; [apply AppendEntry_outcome|].
  destruct (AppendEntry r ctx st entry w) as [res w'] eqn:Run. cbn [fst snd].
  apply AppendEntry_cases in Run. cbv zeta in Run.
  destruct Run as [(e & -> & (F & C & _) & _)
                  |(w1 & end_ & (F1 & C1 & _) & _ & E & (FA & CA & _) & ->)].
  - split; [|discriminate]. intros _ _. now rewrite F, C.
  - pose proof (atomicWrite_spec r (spliced (workingDocument r w) end_ entry) w1)
      as (C & _ & A). cbv zeta in A.
    destruct (fst (atomicWrite r (spliced (workingDocument r w) end_ entry) w1));
      [| |contradiction].
    + split; [discriminate|]. intros _. exists end_. split; [exact E|].
      rewrite FA. apply A.
    + split; [|discriminate]. intros _ _. destruct A as (A & _).
      rewrite FA, A, F1, CA, C, C1. now split.
Qed.

(** X3.  A run of [AppendEntry], failing or not, changes the content of
    no path other than the memory file, its temporary neighbour
    [memory.md.tmp] and the lock file, which [flock] creates and the
    file system of the model leaves out. *)
Theorem AppendEntry_leaves_other_paths
    (st : SectionType) (entry : Entry) (w : World) (q : string) :
  files (snd (AppendEntry r ctx st entry w)) q = files w q \/
  q = FilePath r \/ q = (FilePath r ++ ".tmp")%string \/ q = lockFilePath r.
Proof.
  destruct (String.eqb q (FilePath r)) eqn:Q1;
    [right; left; now apply String.eqb_eq|].
  destruct (String.eqb q (FilePath r ++ ".tmp")) eqn:Q2;
    [right; right; left; now apply String.eqb_eq|].
  left. now apply AppendEntry_others.
Qed.

(** X4.  Reading writes no file: after [GetSection] and after
    [ReadAll], failing or not, every file, the clock and the history of
    the store are what they were (the directory of the store is created
    when it is missing).  [ReadAll] never panics, a successful [ReadAll]
    returns the text of the memory file, the empty text when there is no
    such file, and its only errors are those of creating the directory
    and of reading the file. *)
Theorem reads_leave_the_store (st : SectionType) (w : World) :
  frame w (snd (GetSection r ctx st w)) /\
  frame w (snd (ReadAll r ctx w)) /\
  match fst (ReadAll r ctx w) with
  | Ok content =>
      content = match files w (FilePath r) with Some data => data | None => "" end
  | Err e =>
      e = OSError "mkdir" \/
      e = Errorf "failed to read memory file: " (OSError "read") ""
  | Panic => False
  end.
Proof.
  split; [apply GetSection_frame|]. unfold ReadAll.
  destruct (readFile_spec r w) as [F R]. split; [exact F|].
  destruct (fst (readFile r w)); [exact R | exact R | exact R].
Qed.

(** X5.  Read your writes: in a world where no system call fails, after
    a successful [AppendEntry] the next [ReadAll] returns the spliced
    document, byte for byte, and changes nothing. *)
Theorem ReadAll_after_AppendEntry
    (st : SectionType) (entry : Entry) (w w' : World) (ctx' : Context) :
  faults w = [] ->
  AppendEntry r ctx st entry w = (Ok tt, w') ->
  exists end_,
    findSectionEnd (workingDocument r w)
      (findSectionStart (workingDocument r w) (capitalize st)) = Some end_ /\
    ReadAll r ctx' w' = (Ok (spliced (workingDocument r w) end_ entry), w').
Proof.
  intros NF Run.
  pose proof (AppendEntry_nofault r ctx st entry w NF) as O.
  rewrite Run in O. cbn [fst] in O.
  destruct (findSectionStart (workingDocument r w) (capitalize st) =? -1) eqn:S;
    [discriminate|]. apply Z.eqb_neq in S.
  destruct (AppendEntry_nofault_run r ctx st entry w NF S)
    as (end_ & w2 & E & Run2 & NF2 & _ & Fi).
  rewrite Run in Run2. injection Run2 as <-.
  exists end_. split; [exact E|].
  unfold ReadAll. rewrite readFile_nofault by exact NF2.
  now rewrite (stored_of _ _ _ Fi).
Qed.

End StoreAroundARun.

Section RunsOfAppends.

Variable r : MarkdownMemoryRepository.
Variable ctx : Context.

(** X6.  A run of appends to one section, no system call failing, on a
    document in which the heading of the section is found at offset
    [len pre], the text [x] from the heading to the end of the section
    holds no [#], and no field of an appended entry holds one.  When
    another heading follows the section, every append succeeds and the
    document ends up with the blocks of the entries, in the order of the
    appends, between the old end of the section and that heading; when
    the section is the last and the rest of the document holds no [#],
    the blocks are added at the end of the document.  After at least one
    append this is the text of the file. *)
Theorem appended_blocks_keep_their_order
    (st : SectionType) (pre x tail : string) (entries : list Entry) (w : World) :
  faults w = [] ->
  workingDocument r w = pre ++ "## " ++ x ++ String nl tail ->
  findSectionStart (pre ++ "## " ++ x ++ LF) (capitalize st) = len pre ->
  noChar hash x = true ->
  Forall (fun e => hashFree e = true) entries ->
  (HasPrefix tail "## " = true ->
   exists w',
     appendAll r ctx st entries w = (Ok tt, w') /\
     workingDocument r w' = pre ++ "## " ++ x ++ String nl (blocks entries ++ tail) /\
     (entries <> [] -> stored r w' = workingDocument r w')) /\
  (noChar hash tail = true ->
   exists w',
     appendAll r ctx st entries w = (Ok tt, w') /\
     workingDocument r w' = pre ++ "## " ++ x ++ String nl (tail ++ blocks entries) /\
     (entries <> [] -> stored r w' = workingDocument r w')).
Proof.
  intros NF WD FS Hx He. split; intros Ht.
  - destruct (appendAll_before_heading r ctx st pre tail entries Ht He x w NF WD FS Hx)
      as (w' & Run & _ & W' & N).
    exists w'. repeat (split; [assumption|]). intros NE.
    symmetry. apply workingDocument_stored. apply N. now right.
  - destruct (appendAll_last r ctx st pre x entries Hx He tail w NF WD FS Ht)
      as (w' & Run & _ & W' & N).
    exists w'. repeat (split; [assumption|]). intros NE.
    symmetry. apply workingDocument_stored. apply N. now right.
Qed.

(** On a store without a document the appends work on the synthesized
    one. *)
Lemma appendAll_fresh (st : SectionType) (before x tail : string)
    (entries : list Entry) (w : World) :
  faults w = [] -> stored r w = "" ->
  headings = before ++ "## " ++ x ++ String nl tail ->
  findSectionStart (before ++ "## " ++ x ++ LF) (capitalize st) = len before ->
  noChar hash x = true -> HasPrefix tail "## " = true ->
  Forall (fun e => hashFree e = true) entries -> entries <> [] ->
  exists w',
    appendAll r ctx st entries w = (Ok tt, w') /\
    stored r w' = frontMatter (FormatRFC3339 (Now (timeProvider r) w))
                  ++ before ++ "## " ++ x ++ String nl (blocks entries ++ tail).
Proof.
  intros NF Em Hh FS Hx Ht He NE.
  set (now := FormatRFC3339 (Now (timeProvider r) w)).
  pose proof (len_nonneg before) as Lb.
  assert (Hn : noChar hash (frontMatter now) = true)
    by (apply noChar_frontMatter, noChar_FormatRFC3339).
  assert (WD : workingDocument r w
               = (frontMatter now ++ before) ++ "## " ++ x ++ String nl tail).
  { rewrite (workingDocument_fresh r w Em), Hh. now rewrite append_assoc. }
  assert (FS' : findSectionStart ((frontMatter now ++ before) ++ "## " ++ x ++ LF)
                  (capitalize st) = len (frontMatter now ++ before)).
  { rewrite append_assoc, findSectionStart_front by exact Hn.
    rewrite FS, len_append.
    replace (len before =? -1) with false by (symmetry; apply Z.eqb_neq; lia).
    reflexivity. }
  destruct (appendAll_before_heading r ctx st _ tail entries Ht He x w NF WD FS' Hx)
    as (w' & Run & _ & W' & N).
  exists w'. split; [exact Run|].
  rewrite <- (workingDocument_stored r w') by (apply N; now right).
  rewrite W'. now rewrite append_assoc.
Qed.

(** X7.  On a store without a document, no system call failing: a run of
    one or more appends of entries without [#] to constraints, to
    decisions or to patterns succeeds, and the file then holds the front
    matter, the four headings, and under the heading of the section the
    blocks of the entries in the order of the appends. *)
Theorem fresh_store_collects_entries_in_order (entries : list Entry) (w : World) :
  faults w = [] -> stored r w = "" ->
  Forall (fun e => hashFree e = true) entries -> entries <> [] ->
  let now := FormatRFC3339 (Now (timeProvider r) w) in
  (exists w',
     appendAll r ctx SectionConstraints entries w = (Ok tt, w') /\
     stored r w' = frontMatter now ++ "## Constraints

" ++ blocks entries ++ "## Decisions

## Patterns

## Anti-Patterns
") /\
  (exists w',
     appendAll r ctx SectionDecisions entries w = (Ok tt, w') /\
     stored r w' = frontMatter now ++ "## Constraints

## Decisions

" ++ blocks entries ++ "## Patterns

## Anti-Patterns
") /\
  (exists w',
     appendAll r ctx SectionPatterns entries w = (Ok tt, w') /\
     stored r w' = frontMatter now ++ "## Constraints

## Decisions

## Patterns

" ++ blocks entries ++ "## Anti-Patterns
").
Proof.
  intros NF Em He NE now. split; [|split].
  - exact (appendAll_fresh SectionConstraints "" "Constraints
" "## Decisions

## Patterns

## Anti-Patterns
" entries w NF Em eq_refl eq_refl eq_refl eq_refl He NE).
  - exact (appendAll_fresh SectionDecisions "## Constraints

" "Decisions
" "## Patterns

## Anti-Patterns
" entries w NF Em eq_refl eq_refl eq_refl eq_refl He NE).
  - exact (appendAll_fresh SectionPatterns "## Constraints

## Decisions

" "Patterns
" "## Anti-Patterns
" entries w NF Em eq_refl eq_refl eq_refl eq_refl He NE).
Qed.

End RunsOfAppends.

(* ================================================================== *)
(** ** The matcher and what a match is *)
(* ================================================================== *)

Module MatcherFacts.

Lemma lastOf_app (prev : option ascii) (a b : string) :
  lastOf prev (a ++ b) = lastOf (lastOf prev a) b.
Proof. revert prev; induction a as [|c a IH]; intros prev; cbn; auto. Qed.

Lemma allIn_app (cls : ascii -> bool) (a b : string) :
  allIn cls (a ++ b) = allIn cls a && allIn cls b.
Proof.
  induction a as [|c a IH]; cbn; [reflexivity|]. now rewrite IH, andb_assoc.
Qed.

Lemma take_length_app (a s : string) :
  take (String.length (a ++ s) - String.length s) (a ++ s) = a.
Proof.
  rewrite length_append.
  replace (String.length a + String.length s - String.length s)%nat
    with (String.length a + 0)%nat by lia.
  rewrite take_app. replace (take 0 s) with "" by (now destruct s).
  apply append_nil_r.
Qed.

(** *** Literals *)

Lemma lastOf_Some (prev : option ascii) (p : string) :
  lastOf prev p = match lastOf None p with Some b => Some b | None => prev end.
Proof.
  destruct p as [|c p]; [reflexivity|]. cbn [lastOf].
  generalize c. induction p as [|d p IH]; intros c0; cbn [lastOf]; [reflexivity|].
  apply IH.
Qed.

Lemma lastOf_nonempty (p q : option ascii) (a : string) :
  a <> "" -> lastOf p a = lastOf q a.
Proof. destruct a; [contradiction | reflexivity]. Qed.

Lemma strip_app (p s : string) :
  strip p (p ++ s) = Some (lastOf None p, s).
Proof.
  induction p as [|a p IH]; [reflexivity|].
  cbn [append strip]. rewrite Ascii.eqb_refl, IH. cbn [lastOf].
  rewrite (lastOf_Some (Some a) p). now destruct (lastOf None p).
Qed.

Lemma strip_sound (p s : string) (o : option ascii) (s' : string) :
  strip p s = Some (o, s') -> s = p ++ s' /\ o = lastOf None p.
Proof.
  revert s o s'; induction p as [|a p IH]; intros s o s' H.
  - cbn in H. injection H as <- <-. auto.
  - destruct s as [|b s]; [discriminate|]. cbn [strip] in H.
    destruct (Ascii.eqb a b) eqn:E; [|discriminate].
    apply Ascii.eqb_eq in E. subst b.
    destruct (strip p s) as [[o1 s1]|] eqn:S; [|discriminate].
    destruct (IH _ _ _ S) as (-> & ->).
    cbn [append lastOf]. rewrite (lastOf_Some (Some a) p).
    destruct (lastOf None p); injection H as <- <-; auto.
Qed.

Lemma run_Lit {R : Type} (p : string) (prev : option ascii) (s : string) (c : caps)
    (k : option ascii -> string -> caps -> option R) :
  run (Lit p) prev (p ++ s) c k = k (lastOf prev p) s c.
Proof.
  cbn [run]. rewrite strip_app, (lastOf_Some prev p).
  now destruct (lastOf None p).
Qed.

(** *** Repetitions *)

Section Repetitions.

Context {R : Type}.
Variable cls : ascii -> bool.

Lemma starGreedy_sound (s : string) (prev : option ascii)
    (k : option ascii -> string -> option R) (x : R) :
  starGreedy cls prev s k = Some x ->
  exists a s', s = a ++ s' /\ allIn cls a = true /\ k (lastOf prev a) s' = Some x.
Proof.
  revert prev; induction s as [|c s IH]; intros prev H; cbn [starGreedy] in H.
  - exists "", "". auto.
  - destruct (cls c) eqn:C; [|exists "", (String c s); auto].
    destruct (starGreedy cls (Some c) s k) as [y|] eqn:G.
    + injection H as ->. destruct (IH _ G) as (a & s' & -> & A & K).
      exists (String c a), s'. cbn. rewrite C, A. auto.
    + exists "", (String c s). auto.
Qed.

Lemma starLazy_sound (s : string) (prev : option ascii)
    (k : option ascii -> string -> option R) (x : R) :
  starLazy cls prev s k = Some x ->
  exists a s', s = a ++ s' /\ allIn cls a = true /\ k (lastOf prev a) s' = Some x.
Proof.
  revert prev; induction s as [|c s IH]; intros prev H; cbn [starLazy] in H.
  - destruct (k prev "") as [y|] eqn:K; [|discriminate].
    injection H as ->. exists "", "". auto.
  - destruct (k prev (String c s)) as [y|] eqn:K.
    + injection H as ->. exists "", (String c s). auto.
    + destruct (cls c) eqn:C; [|discriminate].
      destruct (IH _ H) as (a & s' & -> & A & K').
      exists (String c a), s'. cbn. rewrite C, A. auto.
Qed.

Lemma plus_sound (g : bool) (s : string)
    (k : option ascii -> string -> option R) (x : R) :
  plus g cls s k = Some x ->
  exists a s', s = a ++ s' /\ a <> "" /\ allIn cls a = true /\
               forall prev, k (lastOf prev a) s' = Some x.
Proof.
  unfold plus. destruct s as [|c s]; [discriminate|].
  destruct (cls c) eqn:C; [|discriminate]. intros H.
  assert (exists a s', s = a ++ s' /\ allIn cls a = true /\
                       k (lastOf (Some c) a) s' = Some x) as (a & s' & -> & A & K)
    by (destruct g; [now apply starGreedy_sound | now apply starLazy_sound]).
  exists (String c a), s'. cbn. rewrite C, A. repeat split; auto. discriminate.
Qed.

Lemma starGreedy_complete (a s' : string) (prev : option ascii)
    (k : option ascii -> string -> option R) :
  allIn cls a = true -> k (lastOf prev a) s' <> None ->
  starGreedy cls prev (a ++ s') k <> None.
Proof.
  revert prev; induction a as [|c a IH]; intros prev A K.
  - cbn [append lastOf] in *. destruct s' as [|d s']; cbn [starGreedy]; [exact K|].
    destruct (cls d); [|exact K].
    destruct (starGreedy cls (Some d) s' k); [discriminate | exact K].
  - cbn [allIn] in A. apply andb_true_iff in A as [C A].
    cbn [append starGreedy]. rewrite C.
    specialize (IH (Some c) A K).
    destruct (starGreedy cls (Some c) (a ++ s') k); [discriminate | contradiction].
Qed.

Lemma starLazy_complete (a s' : string) (prev : option ascii)
    (k : option ascii -> string -> option R) :
  allIn cls a = true -> k (lastOf prev a) s' <> None ->
  starLazy cls prev (a ++ s') k <> None.
Proof.
  revert prev; induction a as [|c a IH]; intros prev A K.
  - cbn [append lastOf] in *.
    destruct s' as [|d s']; cbn [starLazy];
      destruct (k prev _); [discriminate | contradiction | discriminate | contradiction].
  - cbn [allIn] in A. apply andb_true_iff in A as [C A].
    cbn [append starLazy]. rewrite C.
    destruct (k prev (String c (a ++ s'))); [discriminate|].
    now apply IH.
Qed.

Lemma plus_complete (g : bool) (a s' : string)
    (k : option ascii -> string -> option R) :
  a <> "" -> allIn cls a = true ->
  (forall prev, k (lastOf prev a) s' <> None) ->
  plus g cls (a ++ s') k <> None.
Proof.
  intros N A K. destruct a as [|c a]; [contradiction|].
  cbn [allIn] in A. apply andb_true_iff in A as [C A].
  cbn [append plus]. rewrite C.
  destruct g; [apply starGreedy_complete | apply starLazy_complete]; auto;
    apply (K None).
Qed.

(** The lazy repetition stops at the first split its continuation
    accepts. *)
Lemma starLazy_first (a s' : string) (prev : option ascii)
    (k : option ascii -> string -> option R) (x : R) :
  allIn cls a = true ->
  (forall a1 a2, a = a1 ++ a2 -> a2 <> "" -> k (lastOf prev a1) (a2 ++ s') = None) ->
  k (lastOf prev a) s' = Some x ->
  starLazy cls prev (a ++ s') k = Some x.
Proof.
  revert prev; induction a as [|c a IH]; intros prev A F K.
  - cbn [append lastOf] in *. destruct s'; cbn [starLazy]; now rewrite K.
  - cbn [allIn] in A. apply andb_true_iff in A as [C A].
    cbn [append starLazy].
    pose proof (F "" (String c a) eq_refl ltac:(discriminate)) as F0.
    cbn [append lastOf] in F0. rewrite F0, C.
    apply IH; auto. intros a1 a2 E N.
    apply (F (String c a1) a2); [now rewrite E | exact N].
Qed.

End Repetitions.

(** *** The matcher returns matches only *)

Lemma run_sound {R : Type} (r : regex) :
  forall (prev : option ascii) (s : string) (c : caps)
         (k : option ascii -> string -> caps -> option R) (x : R),
  run r prev s c k = Some x ->
  exists a s' c', s = a ++ s' /\ matches r prev a s' c c' /\
                  k (lastOf prev a) s' c' = Some x.
Proof.
  induction r as [p|g cls|n r IH|r IH|r1 IH1 r2 IH2| | | |];
    intros prev s c k x H; cbn [run] in H.
  - destruct (strip p s) as [[o s']|] eqn:S; [|discriminate].
    destruct (strip_sound _ _ _ _ S) as (-> & ->).
    exists p, s', c. split; [reflexivity|]. split; [constructor|].
    rewrite (lastOf_Some prev p). now destruct (lastOf None p).
  - apply plus_sound in H as (a & s' & -> & N & A & K).
    exists a, s', c. split; [reflexivity|]. split; [now constructor | apply K].
  - apply IH in H as (a & s' & c' & -> & M & K).
    rewrite take_length_app in K.
    exists a, s', ((n, a) :: c'). split; [reflexivity|]. split; [now constructor | exact K].
  - destruct (run r prev s c k) as [y|] eqn:E.
    + injection H as ->. apply IH in E as (a & s' & c' & -> & M & K).
      exists a, s', c'. split; [reflexivity|]. split; [now constructor | exact K].
    + exists "", s, c. split; [reflexivity|].
      split; [apply matches_Opt_skipped | exact H].
  - apply IH1 in H as (a1 & s1 & c1 & -> & M1 & K1).
    apply IH2 in K1 as (a2 & s' & c2 & -> & M2 & K2).
    exists (a1 ++ a2), s', c2. split; [now rewrite append_assoc|].
    split; [eapply matches_Seq; eassumption | now rewrite lastOf_app].
  - exists "", s, c. split; [reflexivity|].
    destruct prev as [b|].
    + destruct (Ascii.eqb b nl) eqn:E; [|discriminate].
      apply Ascii.eqb_eq in E. subst b. split; [constructor; auto | exact H].
    + split; [constructor; auto | exact H].
  - exists "", s, c. split; [reflexivity|].
    destruct s as [|b s].
    + split; [constructor; auto | exact H].
    + destruct (Ascii.eqb b nl) eqn:E; [|discriminate].
      apply Ascii.eqb_eq in E. subst b. split; [constructor; eauto | exact H].
  - exists "", s, c. split; [reflexivity|].
    destruct prev; [discriminate|]. split; [constructor | exact H].
  - exists "", s, c. split; [reflexivity|].
    destruct s; [|discriminate]. split; [constructor | exact H].
Qed.

(** *** The matcher finds a match when there is one *)

Lemma run_complete {R : Type} (r : regex) (prev : option ascii) (a rest : string)
    (c c' : caps) :
  matches r prev a rest c c' ->
  forall (c0 : caps) (k : option ascii -> string -> caps -> option R),
  (forall c'', k (lastOf prev a) rest c'' <> None) ->
  run r prev (a ++ rest) c0 k <> None.
Proof.
  induction 1 as [p prev rest c|g cls prev a rest c N A|n r prev a rest c c' M IH
                  |r prev a rest c c' M IH|r prev rest c
                  |r1 r2 prev a1 a2 rest c c1 c2 M1 IH1 M2 IH2
                  |prev rest c P|prev rest c P|rest c|prev c]; intros c0 k K.
  - rewrite run_Lit. apply K.
  - cbn [run]. apply plus_complete; auto. intros pv.
    rewrite (lastOf_nonempty pv prev a N). apply K.
  - cbn [run]. apply IH. intros c''. apply K.
  - cbn [run]. specialize (IH c0 k K).
    destruct (run r prev (a ++ rest) c0 k); [discriminate | contradiction].
  - cbn [run append lastOf] in *.
    destruct (run r prev rest c0 k); [discriminate | apply K].
  - cbn [run]. rewrite append_assoc. apply IH1. intros c''.
    apply IH2. intros c3. rewrite <- lastOf_app. apply K.
  - cbn [run append lastOf] in *.
    destruct P as [-> | ->]; [apply K|]. rewrite Ascii.eqb_refl. apply K.
  - cbn [run append lastOf] in *.
    destruct P as [-> | (t & ->)]; [apply K|]. rewrite Ascii.eqb_refl. apply K.
  - cbn [run append lastOf] in *. apply K.
  - cbn [run append lastOf] in *. apply K.
Qed.

End MatcherFacts.

Import MatcherFacts.

(* ================================================================== *)
(** ** Blocks read back *)
(* ================================================================== *)

Module CodecFacts.

Lemma append_cancel_l (p x y : string) : p ++ x = p ++ y -> x = y.
Proof. induction p as [|c p IH]; cbn; [auto|]. intros [= H]. auto. Qed.

Lemma append_cancel_r (a b p : string) : a ++ p = b ++ p -> a = b.
Proof.
  intros H.
  assert (L : String.length a = String.length b).
  { apply (f_equal String.length) in H. rewrite !length_append in H. lia. }
  apply (f_equal (take (String.length a + 0))) in H.
  rewrite take_app in H. rewrite L, take_app in H.
  replace (take 0 p) with "" in H by (now destruct p).
  now rewrite !append_nil_r in H.
Qed.

(** Two runs of a class, each followed by a byte outside it, that begin
    the same text are the same run. *)
Lemma class_run_unique (cls : ascii -> bool) (a a' : string) (d d' : ascii)
    (s s' : string) :
  allIn cls a = true -> allIn cls a' = true ->
  cls d = false -> cls d' = false ->
  a ++ String d s = a' ++ String d' s' ->
  a = a' /\ d = d' /\ s = s'.
Proof.
  revert a'; induction a as [|c a IH]; intros a' A A' D D' E.
  - destruct a' as [|c' a']; cbn in E.
    + injection E as -> ->. auto.
    + injection E as -> _. cbn in A'. rewrite D in A'. discriminate.
  - destruct a' as [|c' a']; cbn in E.
    + injection E as -> _. cbn in A. rewrite D' in A. discriminate.
    + injection E as -> E. cbn in A, A'.
      apply andb_true_iff in A as [_ A]. apply andb_true_iff in A' as [_ A'].
      destruct (IH a' A A' D D' E) as (-> & -> & ->). auto.
Qed.

Lemma allIn_noChar (c : ascii) (s : string) :
  allIn (fun d => negb (Ascii.eqb d c)) s = noChar c s.
Proof. induction s as [|d s IH]; cbn; [reflexivity | now rewrite IH]. Qed.

Lemma append_nil_l (s : string) : "" ++ s = s.
Proof. reflexivity. Qed.

(** The same with a delimiter of several bytes. *)
Lemma class_run_delim (cls : ascii -> bool) (a a' : string) (d : ascii)
    (p s s' : string) :
  allIn cls a = true -> allIn cls a' = true -> cls d = false ->
  a ++ String d p ++ s = a' ++ String d p ++ s' ->
  a = a' /\ s = s'.
Proof.
  intros A A' D E. cbn [append] in E.
  destruct (class_run_unique cls a a' d d _ _ A A' D D E) as (-> & _ & E').
  split; [reflexivity | now apply append_cancel_l in E'].
Qed.

(** *** Reading a derivation *)

Lemma matches_Lit_inv (p : string) prev a rest c c' :
  matches (Lit p) prev a rest c c' -> a = p /\ c' = c.
Proof. intros H. inversion H; subst. auto. Qed.

Lemma matches_Seq_inv (r1 r2 : regex) prev a rest c c2 :
  matches (Seq r1 r2) prev a rest c c2 ->
  exists a1 a2 c1, a = a1 ++ a2 /\ matches r1 prev a1 (a2 ++ rest) c c1 /\
                   matches r2 (lastOf prev a1) a2 rest c1 c2.
Proof. intros H. inversion H; subst. eauto 8. Qed.

Lemma matches_Group_Plus_inv (n : nat) (g : bool) (cls : ascii -> bool)
    prev a rest c c' :
  matches (Group n (Plus g cls)) prev a rest c c' ->
  a <> "" /\ allIn cls a = true /\ c' = (n, a) :: c.
Proof.
  intros H. inversion H; subst.
  match goal with M : matches (Plus _ _) _ _ _ _ _ |- _ => inversion M; subst end.
  auto.
Qed.

Lemma matches_BeginLine_inv prev a rest c c' :
  matches BeginLine prev a rest c c' ->
  a = "" /\ c' = c /\ (prev = None \/ prev = Some nl).
Proof. intros H. inversion H; subst. auto. Qed.

Lemma matches_EndLine_inv prev a rest c c' :
  matches EndLine prev a rest c c' ->
  a = "" /\ c' = c /\ (rest = "" \/ exists t, rest = String nl t).
Proof. intros H. inversion H; subst. auto. Qed.

Lemma matches_BeginText_inv prev a rest c c' :
  matches BeginText prev a rest c c' -> a = "" /\ c' = c /\ prev = None.
Proof. intros H. inversion H; subst. auto. Qed.

Lemma matches_EndText_inv prev a rest c c' :
  matches EndText prev a rest c c' -> a = "" /\ c' = c /\ rest = "".
Proof. intros H. inversion H; subst. auto. Qed.

(** The optional rationale of either pattern. *)
Lemma matches_rationale_inv (n : nat) prev a rest c c' :
  matches (Opt (Lit " (*Rationale:" +++ Group n (Plus false clsNotNewline)
                +++ Lit "*)")) prev a rest c c' ->
  (a = "" /\ c' = c) \/
  (exists g, g <> "" /\ allIn clsNotNewline g = true /\
             a = " (*Rationale:" ++ g ++ "*)" /\ c' = (n, g) :: c).
Proof.
  intros H. inversion H; subst; [|now left]. right.
  match goal with M : matches (Seq _ _) _ _ _ _ _ |- _ =>
    apply matches_Seq_inv in M as (a1 & a2 & c1 & -> & M1 & M2) end.
  apply matches_Lit_inv in M1 as (-> & ->).
  apply matches_Seq_inv in M2 as (a3 & a4 & c3 & -> & M3 & M4).
  apply matches_Group_Plus_inv in M3 as (N & A & ->).
  apply matches_Lit_inv in M4 as (-> & ->).
  exists a3. auto.
Qed.

(** *** The timestamp *)

Lemma nl_uint (u : Decimal.uint) : noChar nl (NilEmpty.string_of_uint u) = true.
Proof. induction u; cbn; auto. Qed.

Lemma nl_zeros (n : nat) : noChar nl (zeros n) = true.
Proof. induction n; cbn; auto. Qed.

Lemma nl_appendInt (x : Z) (width : nat) : noChar nl (appendInt x width) = true.
Proof.
  unfold appendInt, digits. rewrite !noChar_append, nl_zeros, nl_uint.
  now destruct (x <? 0).
Qed.

Lemma nl_formatZone (off : Z) : noChar nl (formatZone off) = true.
Proof.
  unfold formatZone. destruct (off =? 0); [reflexivity|].
  rewrite !noChar_append, !nl_appendInt. now destruct (off <? 0).
Qed.

(** A formatted timestamp is one line, and not the empty text. *)
Lemma FormatRFC3339_line (t : Time) :
  FormatRFC3339 t <> "" /\ allIn clsNotNewline (FormatRFC3339 t) = true.
Proof.
  split.
  - unfold FormatRFC3339. intros E. apply (f_equal String.length) in E.
    rewrite !length_append in E. cbn in E. lia.
  - change (allIn clsNotNewline (FormatRFC3339 t))
      with (allIn (fun d => negb (Ascii.eqb d nl)) (FormatRFC3339 t)).
    rewrite allIn_noChar. unfold FormatRFC3339.
    now rewrite !noChar_append, !nl_appendInt, nl_formatZone.
Qed.

End CodecFacts.

Import CodecFacts.

Section AnchoredBlock.

Variable entry : Entry.
Hypothesis ok : anchoredOk entry = true.

Lemma anchoredOk_fields :
  ID entry <> "" /\ allIn clsHexDash (ID entry) = true /\
  Tag entry = "[" ++ unbracket (Tag entry) ++ "]" /\
  unbracket (Tag entry) <> "" /\ allIn clsNotRBracket (unbracket (Tag entry)) = true /\
  TagName entry <> "" /\ allIn clsNotRBracket (TagName entry) = true /\
  Content entry <> "" /\ allIn clsNotNewline (Content entry) = true /\
  allIn clsNotNewline (Rationale entry) = true.
Proof.
  pose proof ok as H. unfold anchoredOk, nonEmpty in H.
  repeat (apply andb_true_iff in H as [H ?]).
  repeat match goal with
         | E : negb (String.eqb _ "") = true |- _ =>
             apply negb_true_iff, String.eqb_neq in E
         | E : String.eqb _ _ = true |- _ => apply String.eqb_eq in E
         end.
  repeat split; assumption.
Qed.

Lemma renderEntry_shape :
  renderEntry entry =
  "<!-- entry-id: " ++ ID entry ++ ", tag: [" ++ unbracket (Tag entry)
  ++ "], time: " ++ FormatRFC3339 (CreatedAt entry) ++ " -->" ++ LF
  ++ "* **[" ++ TagName entry ++ "]** " ++ bodyLine entry ++ LF
  ++ "<!-- entry-end -->".
Proof.
  destruct anchoredOk_fields as (_ & _ & E & _).
  unfold renderEntry, bodyLine, LF.
  remember (unbracket (Tag entry)) as T eqn:HT. rewrite E. clear E HT.
  destruct (negb (String.eqb (Rationale entry) ""));
    repeat (rewrite ?append_assoc; cbn [append]); rewrite ?append_nil_r.
  all: reflexivity.
Qed.

Lemma bodyLine_line :
  bodyLine entry <> "" /\ allIn clsNotNewline (bodyLine entry) = true.
Proof.
  destruct anchoredOk_fields as (_ & _ & _ & _ & _ & _ & _ & C & CA & RA).
  unfold bodyLine. split.
  - destruct (Content entry); [contradiction | discriminate].
  - destruct (negb (String.eqb (Rationale entry) ""));
      rewrite !allIn_app, CA, ?RA; reflexivity.
Qed.

(** The pattern has a match on the block. *)
Lemma anchored_derivation (prev : option ascii) (Z : string) :
  prev = None \/ prev = Some nl ->
  Z = "" \/ (exists t, Z = String nl t) ->
  exists c',
    matches (prog anchoredEntryRegex) prev
      ("" ++ "<!-- entry-id: " ++ ID entry ++ ", tag: [" ++ unbracket (Tag entry)
       ++ "], time: " ++ FormatRFC3339 (CreatedAt entry) ++ " -->" ++ LF
       ++ "" ++ "* **[" ++ TagName entry ++ "]** " ++ bodyLine entry ++ "" ++ LF
       ++ "" ++ "<!-- entry-end -->" ++ "") Z [] c'.
Proof.
  intros P HZ.
  destruct anchoredOk_fields as (I & IA & _ & T & TA & N & NA & _).
  destruct (FormatRFC3339_line (CreatedAt entry)) as (S & SA).
  destruct bodyLine_line as (B & BA).
  eexists. cbn [prog anchoredEntryRegex].
  repeat (eapply matches_Seq;
          [ first [ apply matches_Lit
                  | apply matches_Group, matches_Plus; assumption
                  | apply matches_BeginLine
                  | apply matches_Opt_skipped ] | ]).
  - exact P.
  - right. reflexivity.
  - right. reflexivity.
  - apply matches_EndLine. exact HZ.
Qed.

(** Any match of the pattern at the front of the block is the block,
    with the groups the block determines. *)
Lemma anchored_reading (prev : option ascii) (Z a s' : string) (c' : caps) :
  Z = "" \/ (exists t, Z = String nl t) ->
  matches (prog anchoredEntryRegex) prev a s' [] c' ->
  renderEntry entry ++ Z = a ++ s' ->
  s' = Z /\ a = renderEntry entry /\
  lookup 1 c' = ID entry /\ lookup 2 c' = unbracket (Tag entry) /\
  lookup 3 c' = FormatRFC3339 (CreatedAt entry) /\ lookup 4 c' = TagName entry.
Proof.
  intros HZ M E.
  destruct anchoredOk_fields as (I & IA & _ & T & TA & N & NA & _).
  destruct (FormatRFC3339_line (CreatedAt entry)) as (S & SA).
  destruct bodyLine_line as (B & BA).
  cbn [prog anchoredEntryRegex] in M.
  repeat
    (let a1 := fresh "a" in let a2 := fresh "b" in let c1 := fresh "c" in
     let M1 := fresh "M" in
     apply matches_Seq_inv in M as (a1 & a2 & c1 & -> & M1 & M);
     first [ apply matches_Lit_inv in M1 as (-> & ->)
           | apply matches_BeginLine_inv in M1 as (-> & -> & _)
           | apply matches_Group_Plus_inv in M1 as (? & ? & ->)
           | apply matches_rationale_inv in M1 ]).
  apply matches_EndLine_inv in M as (-> & -> & _).
  assert (A4 : allIn clsNotNewline (a3 ++ a4) = true).
  { rewrite allIn_app, H8.
    destruct M0 as [(-> & _)|(g & _ & G & -> & _)]; [reflexivity|].
    rewrite !allIn_app, G. reflexivity. }
  assert (L : lookup 1 c = a /\ lookup 2 c = a0 /\ lookup 3 c = a1 /\ lookup 4 c = a2)
    by (destruct M0 as [(_ & ->)|(g & _ & _ & _ & ->)]; repeat split; reflexivity).
  clear M0. destruct L as (L1 & L2 & L3 & L4). rewrite L1, L2, L3, L4. clear L1 L2 L3 L4.
  rewrite renderEntry_shape in E |- *.
  rewrite ?append_assoc, ?append_nil_l, ?append_nil_r in E.
  apply append_cancel_l in E.
  apply (class_run_delim clsHexDash _ _ "," " tag: [") in E as (<- & E);
    [|assumption|assumption|reflexivity].
  apply (class_run_delim clsNotRBracket _ _ "]" ", time: ") in E as (<- & E);
    [|assumption|assumption|reflexivity].
  rewrite <- (append_assoc (FormatRFC3339 (CreatedAt entry)) " -->"),
          <- (append_assoc a1 " -->") in E.
  unfold LF in E at 1 3.
  apply (class_run_delim clsNotNewline _ _ nl "") in E as (E1 & E);
    [|rewrite allIn_app, SA; reflexivity|rewrite allIn_app, H4; reflexivity|reflexivity].
  apply append_cancel_r in E1. subst a1.
  rewrite ?append_nil_l in E. apply append_cancel_l in E.
  apply (class_run_delim clsNotRBracket _ _ "]" "** ") in E as (<- & E);
    [|assumption|assumption|reflexivity].
  rewrite <- (append_assoc a3 a4) in E. unfold LF in E.
  apply (class_run_delim clsNotNewline _ _ nl "") in E as (E1 & E);
    [|assumption|assumption|reflexivity].
  rewrite ?append_nil_l in E. apply append_cancel_l in E. subst s'.
  rewrite ?append_nil_l, ?append_nil_r.
  rewrite <- (append_assoc a3 a4), <- E1.
  repeat split; reflexivity.
Qed.

Lemma anchored_matchHere (prev : option ascii) (Z : string) :
  prev = None \/ prev = Some nl ->
  Z = "" \/ (exists t, Z = String nl t) ->
  exists c',
    matchHere (prog anchoredEntryRegex) prev (renderEntry entry ++ Z) = Some (Z, c') /\
    lookup 1 c' = ID entry /\ lookup 2 c' = unbracket (Tag entry) /\
    lookup 3 c' = FormatRFC3339 (CreatedAt entry) /\ lookup 4 c' = TagName entry.
Proof.
  intros P HZ. unfold matchHere.
  destruct (run (prog anchoredEntryRegex) prev (renderEntry entry ++ Z) []
              (fun _ s' c => Some (s', c))) as [[s' c']|] eqn:R.
  - apply run_sound in R as (a & s'' & c'' & E & M & K).
    injection K as -> ->.
    destruct (anchored_reading prev Z a s' c' HZ M E) as (-> & _ & L).
    exists c'. split; [reflexivity | exact L].
  - exfalso. destruct (anchored_derivation prev Z P HZ) as (c' & M).
    pose proof (run_complete _ _ _ _ _ _ M [] (fun _ s' c => Some (s', c))
                  ltac:(discriminate)) as C.
    apply C. rewrite <- R. f_equal. rewrite renderEntry_shape.
    now rewrite ?append_assoc, ?append_nil_l, ?append_nil_r.
Qed.

End AnchoredBlock.

Module ParserFacts.

(** Bytes still covered by the last match are passed over. *)
Lemma findAllFrom_skip (re : Regexp) (a Z : string) (prev : option ascii) :
  findAllFrom re prev (a ++ Z) (String.length a)
  = findAllFrom re (lastOf prev a) Z 0.
Proof.
  revert prev; induction a as [|c a IH]; intros prev.
  - destruct Z; reflexivity.
  - cbn [append String.length findAllFrom lastOf]. apply IH.
Qed.

(** A match at the front, and the search goes on behind it. *)
Lemma findAllFrom_match (re : Regexp) (a Z : string) (prev : option ascii)
    (c' : caps) :
  a <> "" ->
  matchHere (prog re) prev (a ++ Z) = Some (Z, c') ->
  findAllFrom re prev (a ++ Z) 0
  = submatches (numSubexp re) (a ++ Z) (Z, c')
      :: findAllFrom re (lastOf prev a) Z 0.
Proof.
  intros N H. destruct a as [|ch a]; [contradiction|].
  cbn [append] in *. cbn [findAllFrom]. rewrite H. cbn [fst].
  f_equal. cbn [lastOf]. rewrite <- findAllFrom_skip. f_equal.
  cbn [String.length]. rewrite length_append. lia.
Qed.

Lemma findAllFrom_miss (re : Regexp) (c : ascii) (s : string) (prev : option ascii) :
  matchHere (prog re) prev (String c s) = None ->
  findAllFrom re prev (String c s) 0 = findAllFrom re (Some c) s 0.
Proof. intros H. cbn [findAllFrom]. now rewrite H. Qed.

Lemma lastOf_renderEntry (entry : Entry) (prev : option ascii) :
  lastOf prev (renderEntry entry) = Some ">"%char.
Proof.
  unfold renderEntry. rewrite !lastOf_app. reflexivity.
Qed.

Lemma renderEntry_nonempty (entry : Entry) : renderEntry entry <> "".
Proof.
  intros E. apply (f_equal (lastOf None)) in E.
  rewrite lastOf_renderEntry in E. discriminate.
Qed.

Lemma findAllFrom_blocks (entries : list Entry) :
  Forall (fun e => anchoredOk e = true) entries ->
  forall prev, prev = None \/ prev = Some nl ->
  Forall2 captured (findAllFrom anchoredEntryRegex prev (blocks entries) 0) entries.
Proof.
  induction 1 as [|e es He Hes IH]; intros prev P.
  - cbn [blocks findAllFrom].
    replace (matchHere (prog anchoredEntryRegex) prev "") with (@None outcome)
      by (destruct P as [-> | ->]; reflexivity).
    constructor.
  - cbn [blocks].
    destruct (anchored_matchHere e He prev (LF ++ blocks es) P
                ltac:(right; eexists; reflexivity))
      as (c' & MH & L1 & L2 & L3 & L4).
    rewrite (findAllFrom_match _ _ _ _ _ (renderEntry_nonempty e) MH).
    rewrite lastOf_renderEntry.
    change (LF ++ blocks es) with (String nl (blocks es)).
    rewrite findAllFrom_miss by reflexivity.
    constructor; [|apply IH; now right].
    unfold captured, submatches, at_. cbn [numSubexp anchoredEntryRegex seq map nth List.length].
    auto.
Qed.

(** The entries the anchored parser builds from such captures. *)
Lemma fold_captured (ms : list (list string)) (entries : list Entry) :
  Forall2 captured ms entries ->
  Forall (fun e => anchoredOk e = true) entries ->
  forall acc,
  fold_left
    (fun entries m =>
       if (List.length m <? 6)%nat then entries
       else
         let tag := at_ m 2 in
         app entries [mkEntry (at_ m 1) ("[" ++ tag ++ "]") tag
                              (at_ m 3) (at_ m 4) zeroTime])
    ms acc
  = app acc (map asRead entries).
Proof.
  induction 1 as [|m e ms es C _ IH]; intros HOk acc; cbn [fold_left map].
  - now rewrite app_nil_r.
  - inversion HOk as [|? ? He Hes]; subst.
    destruct C as (L & C1 & C2 & C3 & C4). rewrite L. cbn [Nat.ltb Nat.leb].
    cbv zeta. rewrite IH by assumption. rewrite <- app_assoc. cbn [app].
    f_equal. f_equal. unfold asRead. rewrite C1, C2, C3, C4.
    destruct (anchoredOk_fields e He) as (_ & _ & <- & _). reflexivity.
Qed.

(** The section text [extractSection] hands to the parsers after a run
    of appends: a line feed and the blocks. *)
Lemma parseV1Anchored_blocks (entries : list Entry) :
  Forall (fun e => anchoredOk e = true) entries -> entries <> [] ->
  parseV1Anchored (LF ++ blocks entries) = Ok (map asRead entries).
Proof.
  intros HOk NE. unfold parseV1Anchored, FindAllStringSubmatch.
  change (LF ++ blocks entries) with (String nl (blocks entries)).
  rewrite findAllFrom_miss by reflexivity.
  pose proof (findAllFrom_blocks entries HOk (Some nl) ltac:(now right)) as F.
  destruct (findAllFrom anchoredEntryRegex (Some nl) (blocks entries) 0) as [|m ms].
  - inversion F; subst. contradiction.
  - exact (f_equal Ok (fold_captured _ _ F HOk [])).
Qed.

End ParserFacts.

Import ParserFacts.

Module ReadBackFacts.

Lemma blocks_end (entries : list Entry) :
  entries <> [] -> exists b, blocks entries = b ++ LF.
Proof.
  induction entries as [|e es IH]; intros N; [contradiction|].
  cbn [blocks]. destruct es as [|e2 es].
  - exists (renderEntry e). reflexivity.
  - destruct (IH ltac:(discriminate)) as (b & ->).
    exists (renderEntry e ++ LF ++ b). now rewrite !append_assoc.
Qed.

Lemma noChar_init (c : ascii) (b t : string) :
  noChar c (b ++ t) = true -> noChar c b = true.
Proof. rewrite noChar_append. intros H. now apply andb_true_iff in H as [H _]. Qed.

(** The text of a section that holds the blocks of [entries] and
    nothing else, as [extractSection] cuts it out. *)
Lemma extractSection_blocks (pre tail : string) (st : SectionType)
    (entries : list Entry) :
  let D := pre ++ "## " ++ (capitalize st ++ LF) ++ String nl (blocks entries ++ tail) in
  findSectionStart D (capitalize st) = len pre ->
  noChar hash (capitalize st) = true ->
  Forall (fun e => hashFree e = true) entries ->
  HasPrefix tail "## " = true ->
  extractSection D st = Some (LF ++ blocks entries).
Proof.
  intros D FS Hs He Ht. pose proof (len_nonneg pre) as Lp.
  assert (exists x, (capitalize st ++ LF) ++ String nl (blocks entries) = x ++ LF
                    /\ noChar hash x = true) as (x & Ex & Hx).
  { destruct entries as [|e es].
    - exists (capitalize st ++ LF). split; [reflexivity|].
      rewrite noChar_append, Hs. reflexivity.
    - destruct (blocks_end (e :: es) ltac:(discriminate)) as (b & Eb).
      exists ((capitalize st ++ LF) ++ String nl b). split.
      + rewrite Eb. rewrite !append_assoc. reflexivity.
      + pose proof (noChar_blocks _ He) as Hb. rewrite Eb in Hb.
        apply noChar_init in Hb.
        rewrite !noChar_append, Hs. cbn [noChar LF]. now rewrite Hb. }
  assert (ED : D = pre ++ "## " ++ x ++ String nl tail).
  { subst D. f_equal. f_equal.
    change (String nl (blocks entries ++ tail))
      with (String nl (blocks entries) ++ tail).
    rewrite <- append_assoc, Ex. now rewrite append_assoc. }
  unfold extractSection. rewrite FS.
  replace (len pre =? -1) with false by (symmetry; apply Z.eqb_neq; lia).
  rewrite ED at 1. rewrite findSectionEnd_before_heading by assumption.
  replace (len pre + 3 + len x + 1 =? -1) with false
    by (symmetry; apply Z.eqb_neq; pose proof (len_nonneg x); lia).
  replace D with (pre ++ ("## " ++ x ++ LF) ++ tail)
    by (rewrite ED; rewrite !append_assoc; reflexivity).
  replace (len pre + 3 + len x + 1) with (len pre + len ("## " ++ x ++ LF))
    by (rewrite !len_append; change (len "## ") with 3; change (len LF) with 1; lia).
  rewrite slice_mid. f_equal.
  rewrite <- Ex.
  replace ("## " ++ (capitalize st ++ LF) ++ String nl (blocks entries))
    with (("## " ++ capitalize st ++ LF) ++ LF ++ blocks entries)
    by (rewrite !append_assoc; reflexivity).
  unfold TrimPrefix, HasPrefix. rewrite prefix_app.
  rewrite <- (Nat.add_0_r (String.length _)), drop_app. reflexivity.
Qed.

(** [GetSection], no system call failing, on a document whose section
    text the anchored parser reads. *)
Lemma GetSection_anchored (r : MarkdownMemoryRepository) (ctx : Context)
    (st : SectionType) (w : World) (block : string) (entries : list Entry) :
  faults w = [] ->
  String.eqb (stored r w) "" = false ->
  extractSection (stored r w) st = Some block ->
  String.eqb block "" = false ->
  parseV1Anchored block = Ok entries ->
  GetSection r ctx st w = (Ok (mkSection st entries), w).
Proof.
  intros NF N E B P. unfold GetSection. unfold bind at 1.
  rewrite readFile_nofault by exact NF. rewrite N.
  unfold bind at 1. rewrite E. cbn [orPanic ret]. rewrite B, P. reflexivity.
Qed.

End ReadBackFacts.

Import ReadBackFacts.

Section ReadBack.

Variable r : MarkdownMemoryRepository.
Variable ctx : Context.

(** Appends to a section of the synthesized document, then a read of
    that section. *)
Lemma appendAll_then_GetSection (st : SectionType) (before tail : string)
    (entries : list Entry) (w : World) (ctx' : Context) :
  faults w = [] -> stored r w = "" ->
  headings = before ++ "## " ++ (capitalize st ++ LF) ++ String nl tail ->
  findSectionStart (before ++ "## " ++ (capitalize st ++ LF) ++ LF) (capitalize st)
  = len before ->
  noChar hash (capitalize st) = true -> HasPrefix tail "## " = true ->
  Forall (fun e => hashFree e = true) entries ->
  Forall (fun e => anchoredOk e = true) entries -> entries <> [] ->
  exists w',
    appendAll r ctx st entries w = (Ok tt, w') /\
    GetSection r ctx' st w' = (Ok (mkSection st (map asRead entries)), w').
Proof.
  intros NF Em Hh FS Hs Ht He HOk NE.
  set (now := FormatRFC3339 (Now (timeProvider r) w)).
  pose proof (len_nonneg before) as Lb.
  assert (Hn : noChar hash (frontMatter now) = true)
    by (apply noChar_frontMatter, noChar_FormatRFC3339).
  assert (Hx : noChar hash (capitalize st ++ LF) = true)
    by (rewrite noChar_append, Hs; reflexivity).
  assert (WD : workingDocument r w
               = (frontMatter now ++ before) ++ "## " ++ (capitalize st ++ LF)
                 ++ String nl tail).
  { rewrite (workingDocument_fresh r w Em), Hh. symmetry. apply append_assoc. }
  assert (FS' : findSectionStart
                  ((frontMatter now ++ before) ++ "## " ++ (capitalize st ++ LF) ++ LF)
                  (capitalize st) = len (frontMatter now ++ before)).
  { rewrite append_assoc, findSectionStart_front by exact Hn.
    rewrite FS, len_append.
    replace (len before =? -1) with false by (symmetry; apply Z.eqb_neq; lia).
    reflexivity. }
  destruct (appendAll_before_heading r ctx st _ tail entries Ht He _ w NF WD FS' Hx)
    as (w' & Run & NF' & W' & N).
  exists w'. split; [exact Run|].
  assert (N' : String.eqb (stored r w') "" = false) by (apply N; now right).
  assert (St : stored r w'
               = (frontMatter now ++ before) ++ "## " ++ (capitalize st ++ LF)
                 ++ String nl (blocks entries ++ tail))
    by (now rewrite <- (workingDocument_stored r w' N')).
  apply (GetSection_anchored r ctx' st w' (LF ++ blocks entries));
    [exact NF' | exact N' | | reflexivity | now apply parseV1Anchored_blocks].
  rewrite St. apply extractSection_blocks; try assumption.
  replace ((frontMatter now ++ before) ++ "## " ++ (capitalize st ++ LF)
           ++ String nl (blocks entries ++ tail))
    with (((frontMatter now ++ before) ++ "## " ++ (capitalize st ++ LF) ++ LF)
          ++ (blocks entries ++ tail))
    by (rewrite !append_assoc; reflexivity).
  rewrite findSectionStart_app; [exact FS'|].
  rewrite FS'. apply len_nonneg.
Qed.

(** The same for the three sections whose heading the category finds. *)
Lemma GetSection_reads_back_core
    (st : SectionType) (entries : list Entry) (w : World) (ctx' : Context) :
  faults w = [] -> stored r w = "" ->
  In st [SectionConstraints; SectionDecisions; SectionPatterns] ->
  Forall (fun e => hashFree e = true) entries ->
  Forall (fun e => anchoredOk e = true) entries -> entries <> [] ->
  exists w',
    appendAll r ctx st entries w = (Ok tt, w') /\
    GetSection r ctx' st w' = (Ok (mkSection st (map asRead entries)), w').
Proof.
  intros NF Em I He HOk NE.
  destruct I as [<-|[<-|[<-|[]]]].
  - exact (appendAll_then_GetSection SectionConstraints "" "## Decisions

## Patterns

## Anti-Patterns
" entries w ctx' NF Em eq_refl eq_refl eq_refl eq_refl He HOk NE).
  - exact (appendAll_then_GetSection SectionDecisions "## Constraints

" "## Patterns

## Anti-Patterns
" entries w ctx' NF Em eq_refl eq_refl eq_refl eq_refl He HOk NE).
  - exact (appendAll_then_GetSection SectionPatterns "## Constraints

## Decisions

" "## Anti-Patterns
" entries w ctx' NF Em eq_refl eq_refl eq_refl eq_refl He HOk NE).
Qed.

(** X8.  Write, then read.  On a store without a document, no system
    call failing: after a run of one or more appends to constraints, to
    decisions or to patterns, of entries that the anchored pattern can
    read and that hold no [#], [GetSection] for that section returns one
    entry for each appended entry, in the order of the appends, and the
    store is left as it was.  Each entry comes back with its id and its
    tag, the tag name cut out of the tag, the text of its timestamp as
    content, its tag name as rationale and the zero time: content and
    rationale as they were appended do not come back. *)
Theorem GetSection_reads_back_the_appends
    (st : SectionType) (entries : list Entry) (w : World) (ctx' : Context) :
  faults w = [] -> stored r w = "" ->
  In st [SectionConstraints; SectionDecisions; SectionPatterns] ->
  Forall (fun e => hashFree e = true) entries ->
  Forall (fun e => anchoredOk e = true) entries -> entries <> [] ->
  exists w',
    appendAll r ctx st entries w = (Ok tt, w') /\
    GetSection r ctx' st w' = (Ok (mkSection st (map asRead entries)), w').
Proof. apply GetSection_reads_back_core. Qed.

(** X9.  The anchored parser on rendered blocks, for every entry the
    anchored pattern can read: a block alone, a run of blocks each
    followed by a line feed, and such a run after an empty line all
    parse to one entry per block, in order, each with the fields
    [asRead] lists. *)
Theorem parseV1Anchored_reads_blocks (entries : list Entry) :
  Forall (fun e => anchoredOk e = true) entries -> entries <> [] ->
  parseV1Anchored (blocks entries) = Ok (map asRead entries) /\
  parseV1Anchored (LF ++ blocks entries) = Ok (map asRead entries) /\
  (forall e, In e entries -> parseV1Anchored (renderEntry e) = Ok [asRead e]).
Proof.
  intros HOk NE. split; [|split].
  - unfold parseV1Anchored, FindAllStringSubmatch.
    pose proof (findAllFrom_blocks entries HOk None ltac:(now left)) as F.
    destruct (findAllFrom anchoredEntryRegex None (blocks entries) 0) as [|m ms].
    + inversion F; subst. contradiction.
    + exact (f_equal Ok (fold_captured _ _ F HOk [])).
  - now apply parseV1Anchored_blocks.
  - intros e I. rewrite Forall_forall in HOk. specialize (HOk e I).
    unfold parseV1Anchored, FindAllStringSubmatch.
    destruct (anchored_matchHere e HOk None "" ltac:(now left) ltac:(now left))
      as (c' & MH & L1 & L2 & L3 & L4).
    rewrite <- (append_nil_r (renderEntry e)).
    rewrite (findAllFrom_match _ _ _ _ _ (renderEntry_nonempty e) MH).
    rewrite lastOf_renderEntry.
    replace (findAllFrom anchoredEntryRegex (Some ">"%char) "" 0)
      with (@nil (list string)) by reflexivity.
    assert (F : Forall2 captured
                  [submatches (numSubexp anchoredEntryRegex) (renderEntry e ++ "") ("", c')]
                  [e]).
    { constructor; [|constructor].
      unfold captured, submatches, at_.
      cbn [numSubexp anchoredEntryRegex seq map nth List.length]. auto. }
    exact (f_equal Ok (fold_captured _ _ F (Forall_cons _ HOk (Forall_nil _)) [])).
Qed.

End ReadBack.

(* ================================================================== *)
(** ** Legacy lines *)
(* ================================================================== *)

Module LegacyFacts.

Lemma strip_none (p s : string) : String.prefix p s = false -> strip p s = None.
Proof.
  revert s; induction p as [|a p IH]; intros s H; [destruct s; discriminate|].
  destruct s as [|b s]; [reflexivity|]. cbn [String.prefix strip] in *.
  destruct (ascii_dec a b) as [<-|N].
  - rewrite Ascii.eqb_refl, (IH _ H). reflexivity.
  - apply Ascii.eqb_neq in N. now rewrite N.
Qed.

(** No suffix of a text without [sub] begins with [sub]. *)
Lemma index_nat_none_suffix (a1 a2 sub : string) :
  index_nat (a1 ++ a2) sub = None -> String.prefix sub a2 = false.
Proof.
  induction a1 as [|c a1 IH]; cbn [append]; intros H.
  - destruct a2 as [|d a2].
    + rewrite index_nat_nil in H. now destruct (String.prefix sub "").
    + rewrite index_nat_cons in H. now destruct (String.prefix sub (String d a2)).
  - rewrite index_nat_cons in H.
    destruct (String.prefix sub (String c (a1 ++ a2))); [discriminate|].
    apply IH. now destruct (index_nat (a1 ++ a2) sub).
Qed.

Lemma Contains_false_suffix (s a1 a2 sub : string) :
  Contains s sub = false -> s = a1 ++ a2 -> String.prefix sub a2 = false.
Proof.
  unfold Contains, Index. intros H ->.
  destruct (index_nat (a1 ++ a2) sub) as [n|] eqn:E.
  - apply Z.leb_gt in H. lia.
  - now apply index_nat_none_suffix in E.
Qed.

(** The greedy repetition takes the whole run when the run cannot go
    on and what follows it is accepted. *)
Lemma starGreedy_exact {R : Type} (cls : ascii -> bool) (a s' : string)
    (prev : option ascii) (k : option ascii -> string -> option R) (x : R) :
  allIn cls a = true ->
  match s' with String e _ => cls e = false | EmptyString => True end ->
  k (lastOf prev a) s' = Some x ->
  starGreedy cls prev (a ++ s') k = Some x.
Proof.
  revert prev; induction a as [|c a IH]; intros prev A E K.
  - cbn [append lastOf] in *. destruct s' as [|e s']; cbn [starGreedy]; [exact K|].
    now rewrite E.
  - cbn [allIn] in A. apply andb_true_iff in A as [C A].
    cbn [append starGreedy]. rewrite C. now rewrite (IH (Some c) A E K).
Qed.

Lemma plus_greedy_exact {R : Type} (cls : ascii -> bool) (a s' : string)
    (k : option ascii -> string -> option R) (x : R) :
  a <> "" -> allIn cls a = true ->
  match s' with String e _ => cls e = false | EmptyString => True end ->
  k (lastOf None a) s' = Some x ->
  plus true cls (a ++ s') k = Some x.
Proof.
  intros N A E K. destruct a as [|c a]; [contradiction|].
  cbn [allIn] in A. apply andb_true_iff in A as [C A].
  cbn [append plus]. rewrite C. now apply starGreedy_exact.
Qed.

(** The lazy one stops at the first split that is accepted. *)
Lemma plus_lazy_first {R : Type} (cls : ascii -> bool) (a s' : string)
    (k : option ascii -> string -> option R) (x : R) :
  a <> "" -> allIn cls a = true ->
  (forall a1 a2, a = a1 ++ a2 -> a1 <> "" -> a2 <> "" ->
                 k (lastOf None a1) (a2 ++ s') = None) ->
  k (lastOf None a) s' = Some x ->
  plus false cls (a ++ s') k = Some x.
Proof.
  intros N A F K. destruct a as [|c a]; [contradiction|].
  cbn [allIn] in A. apply andb_true_iff in A as [C A].
  cbn [append plus]. rewrite C. apply starLazy_first; [exact A | | exact K].
  intros a1 a2 E N2. apply (F (String c a1) a2); [now rewrite E | discriminate | exact N2].
Qed.

(** A proper, non-empty beginning of the rationale marker, followed by a
    blank, is not the marker. *)
Lemma marker_overlap (a2 Y : string) :
  a2 <> "" -> (String.length a2 < 13)%nat ->
  String.prefix " (*Rationale:" (a2 ++ String " " Y) = false.
Proof.
  intros N L.
  do 13 (destruct a2 as [|? a2];
         [ try contradiction; cbn [append String.prefix];
           repeat match goal with
                  | |- context [ascii_dec ?a ?b] =>
                      let E := fresh "E" in
                      destruct (ascii_dec a b) as [E|E];
                      [try discriminate E | reflexivity]
                  end
         | ]).
  cbn [String.length] in L. lia.
Qed.

(** *** [TrimSpace] on a text without white space at its ends *)

Lemma rev_string_app (acc s : string) :
  rev_string acc s = rev_string "" s ++ acc.
Proof.
  revert acc; induction s as [|c s IH]; intros acc; cbn [rev_string]; [reflexivity|].
  rewrite (IH (String c acc)), (IH (String c "")).
  now rewrite append_assoc.
Qed.

Lemma reverse_app (a b : string) : reverse (a ++ b) = reverse b ++ reverse a.
Proof.
  unfold reverse. induction a as [|c a IH]; cbn [append rev_string].
  - now rewrite append_nil_r.
  - rewrite (rev_string_app (String c "") (a ++ b)), IH.
    rewrite (rev_string_app (String c "") a). now rewrite append_assoc.
Qed.

Lemma reverse_involutive (s : string) : reverse (reverse s) = s.
Proof.
  induction s as [|c s IH]; [reflexivity|].
  change (String c s) with (String c "" ++ s) at 1.
  rewrite reverse_app, reverse_app, IH. reflexivity.
Qed.

Lemma trimLeft_id (fuel : nat) (s : string) :
  leadingSpace s = None -> trimLeft fuel s = s.
Proof. intros H. destruct fuel; cbn [trimLeft]; [reflexivity | now rewrite H]. Qed.

Lemma trimRightRev_id (fuel : nat) (r : string) :
  trailingSpace r = None -> trimRightRev fuel r = r.
Proof. intros H. destruct fuel; cbn [trimRightRev]; [reflexivity | now rewrite H]. Qed.

Lemma TrimSpace_id (s : string) :
  leadingSpace s = None -> trailingSpace (reverse s) = None -> TrimSpace s = s.
Proof.
  intros L T. unfold TrimSpace. rewrite (trimLeft_id _ _ L).
  rewrite (trimRightRev_id _ _ T). apply reverse_involutive.
Qed.

Lemma Split_single (s : string) (sep : ascii) :
  noChar sep s = true -> Split s sep = [s].
Proof.
  induction s as [|c s IH]; [reflexivity|].
  cbn [noChar Split]. intros H. apply andb_true_iff in H as [H1 H2].
  apply negb_true_iff in H1. rewrite H1, (IH H2). reflexivity.
Qed.

End LegacyFacts.

Import LegacyFacts.

Section LegacyLine.

Variables T C : string.
Hypothesis T_nonempty : T <> "".
Hypothesis T_class : allIn clsNotRBracket T = true.
Hypothesis C_nonempty : C <> "".
Hypothesis C_class : allIn clsNotNewline C = true.
Hypothesis C_plain : Contains C rationaleMarker = false.

(** After a proper part of the text, the rest of the line does not
    begin with the marker. *)
Lemma marker_not_inside (a1 a2 S : string) :
  C = a1 ++ a2 -> a2 <> "" ->
  S = "" \/ (exists Y, S = String " " Y) ->
  String.prefix rationaleMarker (a2 ++ S) = false.
Proof.
  intros E N HS.
  pose proof (Contains_false_suffix _ _ _ _ C_plain E) as P.
  destruct HS as [-> | (Y & ->)]; [now rewrite append_nil_r|].
  destruct (Nat.lt_ge_cases (String.length a2) 13) as [L|L].
  - now apply marker_overlap.
  - apply prefix_app_false; [exact P | exact L].
Qed.

(** What follows the text when the text stops early is not accepted. *)
Lemma legacy_early_stop {R : Type} (a1 a2 S : string) (k1 : string -> option R)
    (k2 : option R) :
  C = a1 ++ a2 -> a2 <> "" ->
  S = "" \/ (exists Y, S = String " " Y) ->
  match
    match strip " (*Rationale:" (a2 ++ S) with
    | Some (Some _, s) | Some (None, s) => k1 s
    | None => None
    end
  with
  | Some x => Some x
  | None => match a2 ++ S with
            | "" => k2
            | String _ _ => None
            end
  end = None.
Proof.
  intros E N HS.
  rewrite (strip_none " (*Rationale:" (a2 ++ S) (marker_not_inside a1 a2 S E N HS)).
  destruct a2; [contradiction | reflexivity].
Qed.

Lemma legacy_with_rationale (X : string) :
  X <> "" -> allIn clsNotNewline X = true ->
  matchHere (prog legacyEntryRegex) None
    (legacyLine T (C ++ rationaleMarker ++ X ++ "*)"))
  = Some ("", [(3%nat, X); (2%nat, C); (1%nat, T)]).
Proof.
  intros XN XA. unfold matchHere, legacyLine.
  cbn [prog legacyEntryRegex run].
  rewrite strip_app. cbn [lastOf].
  apply plus_greedy_exact; [exact T_nonempty | exact T_class | reflexivity|].
  rewrite strip_app. cbn [lastOf].
  apply plus_lazy_first; [exact C_nonempty | exact C_class | |].
  - intros a1 a2 E N1 N2.
    apply (legacy_early_stop a1 a2 (rationaleMarker ++ X ++ "*)")); auto.
    right. eexists. reflexivity.
  - cbv beta. unfold rationaleMarker.
    rewrite (strip_app " (*Rationale:" (X ++ "*)")). cbn [lastOf].
    match goal with
    | |- context [plus false clsNotNewline (X ++ "*)") ?k] =>
        assert (P : plus false clsNotNewline (X ++ "*)") k
                    = Some ("", [(3%nat, X); (2%nat, C); (1%nat, T)]))
    end.
    { apply plus_lazy_first; [exact XN | exact XA | |].
      - intros x1 x2 E N1 N2.
        destruct (strip "*)" (x2 ++ "*)")) as [[o s5]|] eqn:S; [|reflexivity].
        apply strip_sound in S as (S & _).
        apply (f_equal String.length) in S. rewrite !length_append in S.
        destruct s5 as [|d s5].
        + destruct x2; [contradiction | cbn in S; lia].
        + destruct o; reflexivity.
      - cbv beta.
        replace (strip "*)" "*)") with (Some (Some ")"%char, "")) by reflexivity.
        rewrite !take_length_app. reflexivity. }
    rewrite P. reflexivity.
Qed.

Lemma legacy_without_rationale :
  matchHere (prog legacyEntryRegex) None (legacyLine T C)
  = Some ("", [(2%nat, C); (1%nat, T)]).
Proof.
  unfold matchHere, legacyLine.
  cbn [prog legacyEntryRegex run].
  rewrite strip_app. cbn [lastOf].
  apply plus_greedy_exact; [exact T_nonempty | exact T_class | reflexivity|].
  rewrite strip_app. cbn [lastOf].
  rewrite <- (append_nil_r C) at 1 2.
  apply plus_lazy_first; [exact C_nonempty | exact C_class | |].
  - intros a1 a2 E N1 N2.
    apply (legacy_early_stop a1 a2 ""); auto.
  - cbv beta. cbn [strip]. rewrite !append_nil_r.
    replace (take (String.length C - String.length "") C) with C
      by (cbn [String.length]; rewrite Nat.sub_0_r; symmetry; now apply take_all).
    rewrite take_length_app. reflexivity.
Qed.

Lemma legacy_FindStringSubmatch (text : string) (c : caps) :
  matchHere (prog legacyEntryRegex) None (legacyLine T text) = Some ("", c) ->
  FindStringSubmatch legacyEntryRegex (legacyLine T text)
  = Some [legacyLine T text; lookup 1 c; lookup 2 c; lookup 3 c].
Proof.
  intros H. unfold FindStringSubmatch.
  unfold legacyLine in *. cbn [append] in *. cbn [findFrom]. rewrite H.
  unfold submatches. cbn [numSubexp legacyEntryRegex seq map String.length].
  rewrite Nat.sub_0_r. f_equal. f_equal.
  change (take (S (String.length _)) (String "*" ?s)) with (take (String.length (String "*" s)) (String "*" s)).
  apply take_all. reflexivity.
Qed.

End LegacyLine.

(** X10.  The legacy pattern on a line made of the list marker, the tag
    in brackets and bold, and the content, with or without a rationale
    in parentheses and stars, where the tag is not empty and holds no
    right bracket and no line feed, and the content is not empty, is
    one line and does not hold the marker that opens a rationale.
    Without rationale the groups are tag and content, the third being
    empty.  With one, tag and content come back as they are, and the
    rationale is everything between the colon of the marker and the
    closing star and parenthesis: for a line written the way
    [renderEntry] writes it, with a blank after the colon, the rationale
    comes back with that blank in front, from the pattern and from
    [parseLegacyInline]. *)
Theorem legacy_line_read_back (T C R : string) :
  T <> "" -> allIn clsNotRBracket T = true -> allIn clsNotNewline T = true ->
  C <> "" -> allIn clsNotNewline C = true ->
  Contains C rationaleMarker = false ->
  allIn clsNotNewline R = true ->
  FindStringSubmatch legacyEntryRegex (legacyLine T C)
  = Some [legacyLine T C; T; C; ""] /\
  (forall X, X <> "" -> allIn clsNotNewline X = true ->
     FindStringSubmatch legacyEntryRegex (legacyLine T (C ++ " (*Rationale:" ++ X ++ "*)"))
     = Some [legacyLine T (C ++ " (*Rationale:" ++ X ++ "*)"); T; C; X]) /\
  parseLegacyInline (legacyLine T (C ++ " (*Rationale: " ++ R ++ "*)"))
  = [mkEntry "" ("[" ++ T ++ "]") T C (" " ++ R) zeroTime].
Proof.
  intros TN TA TL CN CA CP RA.
  assert (W : forall X, X <> "" -> allIn clsNotNewline X = true ->
     FindStringSubmatch legacyEntryRegex (legacyLine T (C ++ " (*Rationale:" ++ X ++ "*)"))
     = Some [legacyLine T (C ++ " (*Rationale:" ++ X ++ "*)"); T; C; X]).
  { intros X XN XA.
    exact (legacy_FindStringSubmatch T _ _
             (legacy_with_rationale T C TN TA CN CA CP X XN XA)). }
  split; [|split; [exact W|]].
  - exact (legacy_FindStringSubmatch T _ _
             (legacy_without_rationale T C TN TA CN CA CP)).
  - set (line := legacyLine T (C ++ " (*Rationale: " ++ R ++ "*)")).
    assert (NL : noChar nl line = true).
    { subst line. unfold legacyLine.
      rewrite <- !allIn_noChar.
      change (fun d => negb (Ascii.eqb d nl)) with clsNotNewline.
      rewrite !allIn_app, TL, CA, RA. reflexivity. }
    assert (TS : TrimSpace line = line).
    { apply TrimSpace_id.
      - reflexivity.
      - subst line. unfold legacyLine.
        rewrite !reverse_app. reflexivity. }
    unfold parseLegacyInline. rewrite (Split_single _ _ NL).
    cbn [fold_left]. rewrite TS.
    replace (HasPrefix line "* **[") with true
      by (symmetry; apply (prefix_app "* **[")).
    subst line.
    change (C ++ " (*Rationale: " ++ R ++ "*)")
      with (C ++ " (*Rationale:" ++ (" " ++ R) ++ "*)").
    rewrite (W (" " ++ R)); [reflexivity | discriminate | exact RA].
Qed.

(* ================================================================== *)
(** ** From the input to the entry *)
(* ================================================================== *)

Module InputFacts.

Lemma noChar_reverse (c : ascii) (s : string) :
  noChar c (reverse s) = noChar c s.
Proof.
  induction s as [|d s IH]; [reflexivity|].
  change (String d s) with (String d "" ++ s) at 1.
  rewrite reverse_app, noChar_append, IH. cbn [reverse rev_string noChar].
  rewrite andb_true_r. apply andb_comm.
Qed.

Lemma reverse_nonempty (s : string) : s <> "" -> reverse s <> "".
Proof.
  intros N E. apply N. rewrite <- (reverse_involutive s), E. reflexivity.
Qed.

Lemma trimLeftCut_plain (s : string) :
  plainTag s = true -> trimLeftCut "[]" s = s.
Proof.
  destruct s as [|c s]; [reflexivity|].
  unfold plainTag. cbn [noChar trimLeftCut inCutset list_ascii_of_string existsb].
  intros H. apply andb_true_iff in H as [H1 H2].
  apply andb_true_iff in H1 as [H1 _]. apply andb_true_iff in H2 as [H2 _].
  apply negb_true_iff in H1, H2. now rewrite H1, H2.
Qed.

Lemma plainTag_reverse (s : string) : plainTag (reverse s) = plainTag s.
Proof. unfold plainTag. now rewrite !noChar_reverse. Qed.

Lemma Trim_bracketed (tag : string) :
  tag <> "" -> plainTag tag = true -> Trim ("[" ++ tag ++ "]") "[]" = tag.
Proof.
  intros N P. unfold Trim.
  replace (trimLeftCut "[]" ("[" ++ tag ++ "]")) with (tag ++ "]").
  - rewrite reverse_app.
    replace (trimLeftCut "[]" (reverse "]" ++ reverse tag)) with (reverse tag).
    + apply reverse_involutive.
    + change (reverse "]" ++ reverse tag) with (String "]" (reverse tag)).
      cbn [trimLeftCut inCutset list_ascii_of_string existsb Ascii.eqb Bool.eqb orb].
      symmetry. apply trimLeftCut_plain. now rewrite plainTag_reverse.
  - change ("[" ++ tag ++ "]") with (String "[" (tag ++ "]")).
    cbn [trimLeftCut inCutset list_ascii_of_string existsb Ascii.eqb Bool.eqb orb].
    destruct tag as [|c tag]; [contradiction|].
    unfold plainTag in P. cbn [noChar] in P.
    apply andb_true_iff in P as [P1 P2].
    apply andb_true_iff in P1 as [P1 _]. apply andb_true_iff in P2 as [P2 _].
    apply negb_true_iff in P1, P2.
    cbn [append trimLeftCut inCutset list_ascii_of_string existsb].
    now rewrite P1, P2.
Qed.

Lemma unbracket_bracketed (tag : string) : unbracket ("[" ++ tag ++ "]") = tag.
Proof.
  unfold unbracket. cbn [append drop String.length].
  rewrite length_append. cbn [String.length].
  replace (S (String.length tag + 1) - 2)%nat with (String.length tag + 0)%nat by lia.
  rewrite take_app. cbn [take]. apply append_nil_r.
Qed.

(** What [PrepareEntry] makes of a tag without brackets. *)
Lemma PrepareEntry_plain (input : AppendInput) (id : string) (now : Time) :
  InTag input <> "" -> plainTag (InTag input) = true ->
  PrepareEntry input id now
  = mkEntry id ("[" ++ InTag input ++ "]") (InTag input)
            (InContent input) (InRationale input) now.
Proof.
  intros N P. unfold PrepareEntry.
  assert (H : HasPrefix (InTag input) "[" = false).
  { destruct (InTag input) as [|c t]; [contradiction|].
    unfold plainTag in P. cbn [noChar] in P.
    apply andb_true_iff in P as [P _]. apply andb_true_iff in P as [P _].
    apply negb_true_iff, Ascii.eqb_neq in P.
    unfold HasPrefix. cbn [String.prefix].
    destruct (ascii_dec "[" c); [congruence | reflexivity]. }
  rewrite H. cbn [negb]. now rewrite Trim_bracketed.
Qed.

(** A text does not contain the one-byte text [c] when none of its
    bytes is [c]. *)
Lemma index_nat_char (c : ascii) (s : string) :
  index_nat s (String c "") = None -> noChar c s = true.
Proof.
  induction s as [|d s IH]; [reflexivity|].
  rewrite index_nat_cons. cbn [String.prefix noChar].
  destruct (ascii_dec c d) as [<-|N].
  - destruct s; discriminate.
  - intros H. destruct (index_nat s (String c "")); [discriminate|].
    rewrite (IH eq_refl), andb_true_r.
    apply negb_true_iff, Ascii.eqb_neq. congruence.
Qed.

Lemma Contains_char (c : ascii) (s : string) :
  Contains s (String c "") = false -> noChar c s = true.
Proof.
  unfold Contains, Index. intros H. apply index_nat_char.
  destruct (index_nat s (String c "")); [apply Z.leb_gt in H; lia | reflexivity].
Qed.

(** Accepted content is one line. *)
Lemma ValidateContent_line (content : string) :
  ValidateContent content = None -> allIn clsNotNewline content = true.
Proof.
  intros H. apply ValidateContent_None in H as (H & _).
  change (allIn clsNotNewline content)
    with (allIn (fun d => negb (Ascii.eqb d nl)) content).
  rewrite allIn_noChar. apply Contains_char. apply (H LF). now left.
Qed.

End InputFacts.

Import InputFacts.

Section CaptureThenRead.

Variable r : MarkdownMemoryRepository.
Variable ctx : Context.

Lemma hexDash_hashFree (s : string) :
  allIn clsHexDash s = true -> noChar hash s = true.
Proof.
  induction s as [|c s IH]; [reflexivity|]. cbn [allIn noChar].
  intros H. apply andb_true_iff in H as [C A]. rewrite (IH A), andb_true_r.
  apply negb_true_iff, Ascii.eqb_neq. intros ->. discriminate.
Qed.

(** The entry of an accepted input with a plain tag, a rationale of one
    line and an id of hexadecimal digits and dashes is one the anchored
    pattern reads. *)
Lemma PrepareEntry_anchoredOk (input : AppendInput) (id : string) (now : Time) :
  ValidateInput input = None ->
  plainTag (InTag input) = true ->
  allIn clsNotNewline (InRationale input) = true ->
  id <> "" -> allIn clsHexDash id = true ->
  anchoredOk (PrepareEntry input id now) = true.
Proof.
  intros V P RA IN IA.
  apply ValidateInput_None in V as ((_ & TL) & CL & VC & _).
  assert (TN : InTag input <> "")
    by (intros E; rewrite E in TL; cbn in TL; lia).
  assert (CN : InContent input <> "")
    by (intros E; rewrite E in CL; cbn in CL; lia).
  rewrite (PrepareEntry_plain input id now TN P).
  unfold anchoredOk, nonEmpty. cbn [ID Tag TagName Content Rationale].
  rewrite unbracket_bracketed, String.eqb_refl.
  assert (TB : allIn clsNotRBracket (InTag input) = true).
  { change (allIn clsNotRBracket (InTag input))
      with (allIn (fun d => negb (Ascii.eqb d "]")) (InTag input)).
    rewrite allIn_noChar. unfold plainTag in P.
    now apply andb_true_iff in P as [_ P]. }
  rewrite IA, TB, (ValidateContent_line _ VC), RA.
  apply String.eqb_neq in IN, TN, CN. now rewrite IN, TN, CN.
Qed.

Lemma PrepareEntry_hashFree (input : AppendInput) (id : string) (now : Time) :
  InTag input <> "" -> plainTag (InTag input) = true ->
  hashFreeInput input = true -> allIn clsHexDash id = true ->
  hashFree (PrepareEntry input id now) = true.
Proof.
  intros TN P H IA. rewrite (PrepareEntry_plain input id now TN P).
  unfold hashFreeInput in H. apply andb_true_iff in H as [H HR].
  apply andb_true_iff in H as [HT HC].
  unfold hashFree. cbn [ID Tag TagName Content Rationale].
  rewrite !noChar_append, (hexDash_hashFree _ IA), HT, HC, HR. reflexivity.
Qed.

(** X11.  Capture, then read the section.  An input that
    [ValidateInput] accepts, for constraints, decisions or patterns,
    with a tag without brackets, a rationale of one line and no [#] in
    its fields, captured under an id of hexadecimal digits and dashes
    on a store without a document, no system call failing:
    [AppendMemory] succeeds, and [ReadSection] for the category then
    returns exactly one entry, with the id and the tag in brackets, but
    with the text of the timestamp as content and the tag as rationale,
    whatever content and rationale were captured. *)
Theorem AppendMemory_then_ReadSection
    (input : AppendInput) (id : string) (now : Time) (w : World) (ctx' : Context) :
  ValidateInput input = None ->
  In (Category input) [SectionConstraints; SectionDecisions; SectionPatterns] ->
  plainTag (InTag input) = true ->
  allIn clsNotNewline (InRationale input) = true ->
  hashFreeInput input = true ->
  id <> "" -> allIn clsHexDash id = true ->
  faults w = [] -> stored r w = "" ->
  exists w',
    AppendMemory (service r) ctx input id now w = (Ok tt, w') /\
    ReadSection (service r) ctx' (Category input) w'
    = (Ok (mkSection (Category input)
             [mkEntry id ("[" ++ InTag input ++ "]") (InTag input)
                      (FormatRFC3339 now) (InTag input) zeroTime]), w').
Proof.
  intros V I P RA HF IN IA NF Em.
  pose proof (PrepareEntry_anchoredOk input id now V P RA IN IA) as HOk.
  assert (TN : InTag input <> "").
  { apply ValidateInput_None in V as ((_ & TL) & _).
    intros E. rewrite E in TL. cbn in TL. lia. }
  pose proof (PrepareEntry_hashFree input id now TN P HF IA) as HH.
  destruct (GetSection_reads_back_core r ctx (Category input)
              [PrepareEntry input id now] w ctx' NF Em I
              (Forall_cons _ HH (Forall_nil _)) (Forall_cons _ HOk (Forall_nil _))
              ltac:(discriminate))
    as (w' & Run & G).
  exists w'. split.
  - unfold AppendMemory, service. cbn [repo asRepository Domain.AppendEntry].
    cbn [appendAll] in Run. unfold bind in Run.
    destruct (AppendEntry r ctx (Category input) (PrepareEntry input id now) w)
      as [[[]| |] w1]; cbv [ret] in Run; congruence.
  - unfold ReadSection, service. cbn [repo asRepository Domain.GetSection].
    rewrite G. cbn [map]. unfold asRead.
    rewrite (PrepareEntry_plain input id now TN P).
    cbn [ID Tag TagName Content Rationale CreatedAt].
    now rewrite unbracket_bracketed.
Qed.

End CaptureThenRead.

(* ================================================================== *)
(** ** The two tools *)
(* ================================================================== *)

Module ToolFacts.

(** One append to the synthesized document, with the world it leaves. *)
Lemma AppendEntry_fresh_run (r : MarkdownMemoryRepository) (ctx : Context)
    (st : SectionType) (entry : Entry) (w : World) (before x tail : string) :
  faults w = [] -> stored r w = "" ->
  headings = before ++ "## " ++ x ++ String nl tail ->
  findSectionStart headings (capitalize st) = len before ->
  noChar hash x = true -> HasPrefix tail "## " = true ->
  exists w',
    AppendEntry r ctx st entry w = (Ok tt, w') /\ faults w' = [] /\
    stored r w' = frontMatter (FormatRFC3339 (Now (Persistence.timeProvider r) w))
                  ++ before ++ "## " ++ x
                  ++ String nl (renderEntry entry ++ LF ++ tail).
Proof.
  intros NF Em Hh FS Hx Ht.
  set (now := FormatRFC3339 (Now (Persistence.timeProvider r) w)).
  pose proof (len_nonneg before) as Lb.
  assert (WD : workingDocument r w
               = (frontMatter now ++ before) ++ "## " ++ x ++ String nl tail).
  { rewrite (workingDocument_fresh r w Em), Hh. symmetry. apply append_assoc. }
  assert (FS' : findSectionStart (workingDocument r w) (capitalize st)
                = len (frontMatter now ++ before)).
  { rewrite (findSectionStart_fresh r w Em), FS, len_append.
    replace (len before =? -1) with false by (symmetry; apply Z.eqb_neq; lia).
    reflexivity. }
  destruct (AppendEntry_clean r ctx st entry w _ x tail NF WD FS' Hx)
    as (w' & Run & NF' & _ & St & _).
  exists w'. split; [exact Run|]. split; [exact NF'|].
  rewrite (St Ht). apply append_assoc.
Qed.

(** The four categories that find a heading in the synthesized
    document, the empty one among them. *)
Lemma AppendEntry_fresh_document (r : MarkdownMemoryRepository) (ctx : Context)
    (st : SectionType) (entry : Entry) (w : World) :
  faults w = [] -> stored r w = "" ->
  In st [""; SectionConstraints; SectionDecisions; SectionPatterns] ->
  exists w',
    AppendEntry r ctx st entry w = (Ok tt, w') /\ faults w' = [] /\
    let now := FormatRFC3339 (Now (Persistence.timeProvider r) w) in
    let block := renderEntry entry ++ LF in
    stored r w' =
    if String.eqb st SectionDecisions then freshDocument now "" block ""
    else if String.eqb st SectionPatterns then freshDocument now "" "" block
    else freshDocument now block "" "".
Proof.
  intros NF Em I. cbv zeta.
  destruct I as [<-|[<-|[<-|[<-|[]]]]]; cbn [String.eqb Ascii.eqb Bool.eqb];
    unfold freshDocument.
  - destruct (AppendEntry_fresh_run r ctx "" entry w "" "Constraints
" "## Decisions

## Patterns

## Anti-Patterns
" NF Em eq_refl eq_refl eq_refl eq_refl) as (w' & Run & NF' & St).
    exists w'. repeat (split; [assumption|]). rewrite St.
    now rewrite !append_assoc.
  - destruct (AppendEntry_fresh_run r ctx SectionConstraints entry w "" "Constraints
" "## Decisions

## Patterns

## Anti-Patterns
" NF Em eq_refl eq_refl eq_refl eq_refl) as (w' & Run & NF' & St).
    exists w'. repeat (split; [assumption|]). rewrite St.
    now rewrite !append_assoc.
  - destruct (AppendEntry_fresh_run r ctx SectionDecisions entry w "## Constraints

" "Decisions
" "## Patterns

## Anti-Patterns
" NF Em eq_refl eq_refl eq_refl eq_refl) as (w' & Run & NF' & St).
    exists w'. repeat (split; [assumption|]). rewrite St.
    now rewrite !append_assoc.
  - destruct (AppendEntry_fresh_run r ctx SectionPatterns entry w "## Constraints

## Decisions

" "Patterns
" "## Anti-Patterns
" NF Em eq_refl eq_refl eq_refl eq_refl) as (w' & Run & NF' & St).
    exists w'. repeat (split; [assumption|]). rewrite St.
    now rewrite !append_assoc.
Qed.

End ToolFacts.

Import ToolFacts.

Section Tools.

Variable osText : string -> string.
Variable basePath : string.
Variable uuid : M string.
Variable ctx : Context.

Let h := fst (Usecase.NewServer basePath uuid).
Let r := snd (Usecase.NewServer basePath uuid).

Lemma stored_slog (l : Level) (m : string) (a : list (string * string)) (w : World) :
  stored r (slog l m a w) = stored r w.
Proof. reflexivity. Qed.

(** X12.  Capture, then read the file.  In the server [NewServer]
    builds, on a store without a document and with no system call
    failing: a capture whose input [ValidateInput] accepts, with no
    category or with constraints, decisions or patterns, for which the
    generator yields [id], answers with the text naming the category as
    the caller gave it, and the read that follows answers with the
    synthesized document, dated by the clock, in which the block of the
    entry stands under the heading of the category; with no category
    the block stands under Constraints. *)
Theorem capture_then_read
    (request request' : Usecase.CallToolRequest) (id : string) (w : World) (ctx' : Context) :
  faults w = [] -> stored r w = "" ->
  uuid w = (Ok id, w) ->
  ValidateInput (Usecase.inputOf request) = None ->
  In (Usecase.GetString request "category" "")
     [""; SectionConstraints; SectionDecisions; SectionPatterns] ->
  let category := Usecase.GetString request "category" "" in
  let now := FormatRFC3339 (clock w) in
  let block := renderEntry (PrepareEntry (Usecase.inputOf request) id (clock w)) ++ LF in
  exists w',
    Usecase.handleCaptureMemory osText h ctx request w
    = (Ok (Usecase.NewToolResultText
             ("Successfully captured entry to '" ++ category ++ "' category.")), w') /\
    Usecase.handleReadMemory osText h ctx' request' w'
    = (Ok (Usecase.NewToolResultText
             (if String.eqb category SectionDecisions then freshDocument now "" block ""
              else if String.eqb category SectionPatterns then freshDocument now "" "" block
              else freshDocument now block "" "")), w').
Proof.
  intros NF Em U V I category now block.
  destruct (AppendEntry_fresh_document r ctx category
              (PrepareEntry (Usecase.inputOf request) id (clock w)) w NF Em I)
    as (w1 & Run & NF1 & St).
  cbv zeta in St.
  eexists. split.
  - unfold Usecase.handleCaptureMemory. cbv zeta.
    change (mkInput (Usecase.GetString request "category" "")
                    (Usecase.GetString request "tag" "")
                    (Usecase.GetString request "content" "")
                    (Usecase.GetString request "rationale" ""))
      with (Usecase.inputOf request).
    rewrite V.
    change (Usecase.uuidGen h w) with (uuid w). rewrite U.
    change (AppendMemory (Usecase.memoryService h) ctx (Usecase.inputOf request) id
              (Now (Usecase.timeProvider h) w) w)
      with (AppendEntry r ctx category
              (PrepareEntry (Usecase.inputOf request) id (clock w)) w).
    rewrite Run. reflexivity.
  - unfold Usecase.handleReadMemory.
    change (ReadMemory (Usecase.memoryService h) ctx')
      with (readFile r).
    rewrite readFile_nofault by exact NF1.
    rewrite stored_slog, St. reflexivity.
Qed.


(** X14.  The two handlers turn every failure into an answer.  Whatever
    the system calls do, [handleReadMemory] returns a tool result and no
    error, and leaves files, clock and history as they were; so does
    [handleCaptureMemory] when the generator of ids does not panic.
    When [ValidateInput] rejects the input, the answer is the error text
    "Validation failed: " followed by the text of the error, the
    generator is not called, no system call is made and the store is
    left as it was. *)
Theorem handlers_always_answer (request : Usecase.CallToolRequest) (w : World) :
  (exists result,
     fst (Usecase.handleReadMemory osText h ctx request w) = Ok result) /\
  frame w (snd (Usecase.handleReadMemory osText h ctx request w)) /\
  (fst (uuid w) <> Panic ->
   exists result,
     fst (Usecase.handleCaptureMemory osText h ctx request w) = Ok result) /\
  (forall e, ValidateInput (Usecase.inputOf request) = Some e ->
     fst (Usecase.handleCaptureMemory osText h ctx request w)
     = Ok (Usecase.NewToolResultError
             ("Validation failed: " ++ Usecase.ErrorText osText e)) /\
     frame w (snd (Usecase.handleCaptureMemory osText h ctx request w)) /\
     faults (snd (Usecase.handleCaptureMemory osText h ctx request w)) = faults w).
Proof.
  split; [|split; [|split]].
  - unfold Usecase.handleReadMemory.
    change (ReadMemory (Usecase.memoryService h) ctx) with (readFile r).
    destruct (readFile_spec r w) as [_ R].
    destruct (readFile r w) as [[content|e|] w1]; cbn [fst] in *;
      [eauto | eauto | contradiction].
  - unfold Usecase.handleReadMemory.
    change (ReadMemory (Usecase.memoryService h) ctx) with (readFile r).
    destruct (readFile_spec r w) as [F _].
    destruct (readFile r w) as [[content|e|] w1]; cbn [fst snd] in *;
      [exact F | eapply frame_trans; [exact F | apply slog_frame] | exact F].
  - intros NP. unfold Usecase.handleCaptureMemory. cbv zeta.
    destruct (ValidateInput _); [cbn [fst]; eauto|].
    change (Usecase.uuidGen h w) with (uuid w).
    destruct (uuid w) as [[id|e|] w1]; cbn [fst] in *;
      [|eauto|contradiction].
    match goal with
    | |- context [AppendMemory ?s ?c ?i ?d ?n ?w0] =>
        change (AppendMemory s c i d n w0)
          with (AppendEntry r c (Category i) (PrepareEntry i d n) w0);
        pose proof (AppendEntry_outcome r c (Category i) (PrepareEntry i d n) w0) as O;
        destruct (AppendEntry r c (Category i) (PrepareEntry i d n) w0) as [[[]|e|] w2]
    end; cbn [fst] in *; [eauto | eauto | contradiction].
  - intros e V. unfold Usecase.handleCaptureMemory. cbv zeta.
    change (mkInput (Usecase.GetString request "category" "")
                    (Usecase.GetString request "tag" "")
                    (Usecase.GetString request "content" "")
                    (Usecase.GetString request "rationale" ""))
      with (Usecase.inputOf request).
    rewrite V. cbn [fst snd]. split; [reflexivity|]. split; [apply slog_frame | reflexivity].
Qed.

End Tools.

(* ================================================================== *)
(** ** The generated memory file *)
(* ================================================================== *)

Module TemplateFacts.

Import Templates.

Lemma mapCategoryToSection_names (category : string) :
  In (mapCategoryToSection category) sectionNames.
Proof.
  unfold mapCategoryToSection, sectionNames.
  repeat match goal with
         | |- context [String.eqb ?a ?b] => destruct (String.eqb a b)
         end; cbn; auto.
Qed.

Lemma mapCategoryToSection_nonempty (category : string) :
  String.eqb (mapCategoryToSection category) "" = false.
Proof.
  unfold mapCategoryToSection.
  repeat match goal with
         | |- context [String.eqb category ?b] => destruct (String.eqb category b)
         end; reflexivity.
Qed.

(** The loop over the files, from any state of the map. *)
Lemma collect_from (files : list MemoryTemplateFile) (sections : Sections)
    (name : string) :
  fold_left
    (fun sections file =>
       let section := mapCategoryToSection (Category file) in
       if negb (String.eqb section "")
       then setSection sections section (app (sections section) [Content file])
       else sections)
    files sections name
  = app (sections name)
        (map Content
             (filter (fun file => String.eqb (mapCategoryToSection (Category file)) name)
                     files)).
Proof.
  revert sections; induction files as [|f files IH]; intros sections;
    cbn [fold_left filter map].
  - now rewrite app_nil_r.
  - rewrite IH. cbv zeta. rewrite mapCategoryToSection_nonempty. cbn [negb].
    unfold setSection. rewrite (String.eqb_sym name).
    destruct (String.eqb (mapCategoryToSection (Category f)) name) eqn:E.
    + apply String.eqb_eq in E. subst name. cbn [map].
      now rewrite <- app_assoc.
    + reflexivity.
Qed.

Lemma write_contents (contents : list string) (sb : string) :
  fold_left (fun sb content => sb ++ content ++ LF) contents sb
  = sb ++ fold_right (fun content text => content ++ LF ++ text) "" contents.
Proof.
  revert sb; induction contents as [|c cs IH]; intros sb; cbn [fold_left fold_right].
  - now rewrite append_nil_r.
  - rewrite IH. now rewrite !append_assoc.
Qed.

Lemma write_section (files : list MemoryTemplateFile) (name sb : string) :
  fold_left (fun sb content => sb ++ content ++ LF) (collect files name) sb
  = sb ++ sectionText files name.
Proof.
  rewrite write_contents. f_equal. unfold collect, sectionText.
  rewrite collect_from. cbn [noSections app].
  induction (filter _ files) as [|f l IH]; cbn [map fold_right]; [reflexivity|].
  now rewrite IH.
Qed.

(** [generateMemoryContent] in closed form. *)
Lemma generateMemoryContent_sections (template : Template) (info : option ProjectInfo) :
  generateMemoryContent template info
  = writeFrontMatter info
    ++ "## Constraints" ++ LF ++ LF ++ sectionText (MemoryFiles template) "Constraints"
    ++ "## Decisions" ++ LF ++ LF ++ sectionText (MemoryFiles template) "Decisions"
    ++ "## Patterns" ++ LF ++ LF ++ sectionText (MemoryFiles template) "Patterns"
    ++ "## Anti-Patterns" ++ LF ++ LF
    ++ sectionText (MemoryFiles template) "Anti-Patterns".
Proof.
  unfold generateMemoryContent. cbv zeta. cbn [fold_left sectionNames].
  rewrite !write_section. rewrite !append_assoc. reflexivity.
Qed.

End TemplateFacts.

Import TemplateFacts.

(** X15.  The memory file [generateMemoryContent] writes is the front
    matter followed by the four headings in their order, each with an
    empty line and then the contents, each with a line feed, of the
    template files whose category maps to it, in the order of the
    template.  Every category maps to one of the four headings, every
    category other than decisions, patterns and anti-patterns to
    Constraints, so that each file of the template is written exactly
    once. *)
Theorem generated_memory_lists_every_file_once
    (template : Templates.Template) (info : option Templates.ProjectInfo) :
  let files := Templates.MemoryFiles template in
  let under name :=
    filter (fun file =>
              String.eqb (Templates.mapCategoryToSection (Templates.Category file)) name)
           files in
  Templates.generateMemoryContent template info
  = Templates.writeFrontMatter info
    ++ "## Constraints" ++ LF ++ LF ++ Templates.sectionText files "Constraints"
    ++ "## Decisions" ++ LF ++ LF ++ Templates.sectionText files "Decisions"
    ++ "## Patterns" ++ LF ++ LF ++ Templates.sectionText files "Patterns"
    ++ "## Anti-Patterns" ++ LF ++ LF ++ Templates.sectionText files "Anti-Patterns" /\
  (forall category,
     category <> "decisions" -> category <> "patterns" ->
     category <> "anti-patterns" ->
     Templates.mapCategoryToSection category = "Constraints") /\
  (List.length (under "Constraints") + List.length (under "Decisions")
   + List.length (under "Patterns") + List.length (under "Anti-Patterns")
   = List.length files)%nat.
Proof.
  cbv zeta. split; [apply generateMemoryContent_sections|]. split.
  - intros category D P A. unfold Templates.mapCategoryToSection.
    apply String.eqb_neq in D, P, A. rewrite D, P, A.
    now destruct (String.eqb category "constraints").
  - induction (Templates.MemoryFiles template) as [|f files IH]; [reflexivity|].
    cbn [filter List.length].
    pose proof (mapCategoryToSection_names (Templates.Category f)) as I.
    destruct I as [<-|[<-|[<-|[<-|[]]]]]; cbn [String.eqb Ascii.eqb Bool.eqb List.length];
      lia.
Qed.

Section InitTemplate.

Variable gitRepo : Templates.TemplateRepository.
Variable ctx : Context.
Variable info : option Templates.ProjectInfo.

Let s := Templates.NewTemplateService gitRepo Templates.NewLocalTemplateLoader.

(** What the local loader makes of a template directory. *)
Lemma LocalLoadTemplate_files (basePath : string) (w : World) :
  exists files,
    fst (Templates.LocalLoadTemplate basePath w)
    = Ok (Templates.mkTemplate basePath files "") /\
    (files = [] \/
     exists path content,
       files = [Templates.mkFile path content [] "common" "constraints"]).
Proof.
  unfold Templates.LocalLoadTemplate, Templates.loadMemoryFilesFromDir.
  destruct (ReadFile _ w) as [[content|[|]] w1]; cbn [fst app].
  - eexists. split; [reflexivity|]. right. eauto.
  - exists []. auto.
  - exists []. auto.
Qed.

(** X16.  [InitTemplate] with the local loader, whatever the template
    repository does.  Without a repository URL it fails with
    "no template repository URL provided" and touches nothing.  When it
    succeeds, the memory text it returns is the front matter and the
    four headings, with nothing under Decisions, Patterns and
    Anti-Patterns, and under Constraints either nothing or the content
    of the one file the loader reads, followed by a line feed. *)
Theorem InitTemplate_fills_constraints_only (repoURLs : list string) (w : World) :
  Templates.InitTemplate s ctx info [] w
  = (Err (ErrorfPlain "no template repository URL provided"), w) /\
  (forall memory agents w',
     Templates.InitTemplate s ctx info repoURLs w = (Ok (memory, agents), w') ->
     exists body,
       (body = "" \/ exists content, body = content ++ LF) /\
       memory = Templates.writeFrontMatter info
                ++ "## Constraints" ++ LF ++ LF ++ body
                ++ "## Decisions" ++ LF ++ LF
                ++ "## Patterns" ++ LF ++ LF
                ++ "## Anti-Patterns" ++ LF ++ LF).
Proof.
  split; [reflexivity|].
  intros memory agents w' Run.
  unfold Templates.InitTemplate in Run. unfold bind, defer in Run.
  match type of Run with
  | context [match ?fetch w with _ => _ end] => destruct (fetch w) as [[tempPath|e|] w1]
  end; [|discriminate|discriminate].
  cbn [Templates.loader s Templates.LoadTemplate Templates.LoadAgents
       Templates.NewLocalTemplateLoader] in Run.
  destruct (LocalLoadTemplate_files tempPath w1) as (files & L & Hf).
  destruct (Templates.LocalLoadTemplate tempPath w1) as [res w2].
  cbn [fst] in L. subst res.
  destruct (Templates.LocalLoadAgents tempPath w2) as [[a|e|] w3];
    [|discriminate|discriminate].
  injection Run as <- _ _.
  rewrite generateMemoryContent_sections. cbn [Templates.MemoryFiles].
  destruct Hf as [-> | (path & content & ->)].
  - exists "". split; [now left|]. reflexivity.
  - exists (content ++ LF). split; [right; eauto|].
    unfold Templates.sectionText.
    cbn [filter Templates.Category Templates.mapCategoryToSection String.eqb
         Ascii.eqb Bool.eqb fold_right Templates.Content].
    now rewrite !append_assoc, ?append_nil_r.
Qed.

End InitTemplate.

(* ================================================================== *)
(** ** The project detector *)
(* ================================================================== *)

Module DetectorFacts.

Import Detector.

Lemma contained_nil (table : Table) (goMod : string) :
  contained table goMod = [] <->
  (forall e, In e table -> Contains goMod (fst e) = false).
Proof.
  unfold contained. induction table as [|e table IH]; cbn [filter].
  - split; [intros _ e [] | reflexivity].
  - destruct (Contains goMod (fst e)) eqn:C.
    + split; [discriminate|]. intros H. rewrite (H e) in C; [discriminate | now left].
    + rewrite IH. split.
      * intros H e' [<-|I]; auto.
      * intros H e' I. apply H. now right.
Qed.

Lemma firstContained_miss (visit : Table) (goMod : string) :
  (forall e, In e visit -> Contains goMod (fst e) = false) ->
  firstContained visit goMod = "".
Proof.
  induction visit as [|[pkg name] visit IH]; intros H; [reflexivity|].
  cbn [firstContained]. pose proof (H (pkg, name) ltac:(now left)) as C.
  cbn [fst] in C. rewrite C.
  apply IH. intros e I. apply H. now right.
Qed.

(** The name returned is that of a package the file contains, or the
    empty name after a visit in which no package was contained. *)
Lemma firstContained_cases (visit : Table) (goMod : string) :
  (firstContained visit goMod = "" /\
   forall e, In e visit -> Contains goMod (fst e) = false \/ snd e = "") \/
  (exists pkg, In (pkg, firstContained visit goMod) visit /\
               Contains goMod pkg = true).
Proof.
  induction visit as [|[pkg name] visit IH]; cbn [firstContained].
  - left. split; [reflexivity | intros e []].
  - destruct (Contains goMod pkg) eqn:C.
    + right. exists pkg. split; [now left | exact C].
    + destruct IH as [(E & H)|(p & I & Cp)].
      * left. split; [exact E|]. intros e [<-|I]; [now left | now apply H].
      * right. exists p. split; [now right | exact Cp].
Qed.

(** The first match, for a table without empty names visited in any
    order. *)
Lemma firstContained_spec (table visit : Table) (goMod : string) :
  Permutation visit table ->
  (forall e, In e table -> snd e <> "") ->
  (firstContained visit goMod = "" <-> contained table goMod = []) /\
  (firstContained visit goMod <> "" ->
   exists pkg, In (pkg, firstContained visit goMod) table /\
               Contains goMod pkg = true) /\
  (forall name,
     contained table goMod <> [] ->
     (forall e, In e (contained table goMod) -> snd e = name) ->
     firstContained visit goMod = name).
Proof.
  intros P N.
  assert (S : firstContained visit goMod <> "" ->
              exists pkg, In (pkg, firstContained visit goMod) table /\
                          Contains goMod pkg = true).
  { intros NE. destruct (firstContained_cases visit goMod) as [(E & _)|(p & I & C)];
      [contradiction|].
    exists p. split; [eapply Permutation_in; eassumption | exact C]. }
  assert (Z0 : firstContained visit goMod = "" <-> contained table goMod = []).
  { rewrite contained_nil. split.
    - intros E e I.
      destruct (firstContained_cases visit goMod) as [(_ & H)|(p & Ip & C)].
      + destruct (H e (Permutation_in _ (Permutation_sym P) I)) as [?|Em];
          [assumption|]. now apply N in Em.
      + rewrite E in Ip. apply (Permutation_in _ P) in Ip. now apply N in Ip.
    - intros H. apply firstContained_miss. intros e I. apply H.
      eapply Permutation_in; eassumption. }
  split; [exact Z0|]. split; [exact S|].
  intros name NE Same.
  destruct (string_dec (firstContained visit goMod) "") as [E|E].
  - apply Z0 in E. contradiction.
  - destruct (S E) as (p & I & C).
    apply (Same (p, firstContained visit goMod)).
    unfold contained. apply filter_In. split; assumption.
Qed.

Lemma detectFeatures_map (visit : Table) (goMod : string) :
  detectFeatures visit goMod = map snd (contained visit goMod).
Proof.
  unfold contained. induction visit as [|[pkg f] visit IH]; [reflexivity|].
  cbn [detectFeatures filter fst]. destruct (Contains goMod pkg); cbn [map snd];
    now rewrite IH.
Qed.

Lemma contained_Permutation (visit table : Table) (goMod : string) :
  Permutation visit table ->
  Permutation (contained visit goMod) (contained table goMod).
Proof.
  unfold contained. induction 1 as [|e l l' P IH|e1 e2 l|l1 l2 l3 P1 IH1 P2 IH2];
    cbn [filter].
  - constructor.
  - destruct (Contains goMod (fst e)); [now constructor | exact IH].
  - destruct (Contains goMod (fst e1)), (Contains goMod (fst e2));
      try apply Permutation_refl. apply perm_swap.
  - eapply Permutation_trans; eassumption.
Qed.

(** A text that contains [big] contains every part of [big]. *)
Lemma Contains_part (s a small b : string) :
  Contains s (a ++ small ++ b) = true -> Contains s small = true.
Proof.
  unfold Contains, Index. intros H.
  destruct (index_nat s (a ++ small ++ b)) as [n|] eqn:E; [|discriminate].
  apply index_nat_sound in E.
  apply Z.leb_le.
  assert (R : s = (take n s ++ a) ++ small
                  ++ (b ++ drop (n + String.length (a ++ small ++ b)) s)).
  { rewrite E at 1. now rewrite !append_assoc. }
  rewrite R. apply Index_found.
Qed.

End DetectorFacts.

Import DetectorFacts.

(** X17.  [detectFramework] and [detectDatabase], whatever the order in
    which [range] visits the map.  The name returned is empty exactly
    when [goMod] contains none of the packages of the map; a name that
    is not empty is the name of a package [goMod] contains; and when
    all the packages [goMod] contains carry one name, as the two redis
    clients do, that name is returned. *)
Theorem detected_name_is_that_of_a_contained_package
    (visit : Detector.Table) (goMod : string) :
  let spec (table : Detector.Table) (result : string) :=
    (result = "" <-> Detector.contained table goMod = []) /\
    (result <> "" ->
     exists pkg, In (pkg, result) table /\ Contains goMod pkg = true) /\
    (forall name,
       Detector.contained table goMod <> [] ->
       (forall e, In e (Detector.contained table goMod) -> snd e = name) ->
       result = name) in
  (Permutation visit Detector.frameworks ->
   spec Detector.frameworks (Detector.detectFramework visit goMod)) /\
  (Permutation visit Detector.databases ->
   spec Detector.databases (Detector.detectDatabase visit goMod)).
Proof.
  cbv zeta. split; intros P.
  - apply (firstContained_spec Detector.frameworks visit goMod P).
    intros e I. cbn in I.
    repeat (destruct I as [<-|I]; [discriminate|]). contradiction.
  - apply (firstContained_spec Detector.databases visit goMod P).
    intros e I. cbn in I.
    repeat (destruct I as [<-|I]; [discriminate|]). contradiction.
Qed.

(** X18.  [detectFeatures], whatever the order of the visit: the
    features returned are, up to their order, those of the packages of
    the map that [goMod] contains, one for each such package; so a
    feature is returned exactly when a package that carries it is
    contained, and with both gRPC packages in [goMod] the feature grpc
    is returned twice. *)
Theorem detected_features_one_per_package
    (visit : Detector.Table) (goMod : string) :
  Permutation visit Detector.featureMap ->
  let features := Detector.detectFeatures visit goMod in
  Permutation features (map snd (Detector.contained Detector.featureMap goMod)) /\
  (forall feature,
     In feature features <->
     exists pkg, In (pkg, feature) Detector.featureMap /\ Contains goMod pkg = true) /\
  (Contains goMod "google.golang.org/grpc" = true ->
   Contains goMod "github.com/grpc-ecosystem" = true ->
   ~ NoDup features).
Proof.
  intros P features.
  assert (PF : Permutation features
                 (map snd (Detector.contained Detector.featureMap goMod))).
  { subst features. rewrite detectFeatures_map.
    apply Permutation_map. now apply contained_Permutation. }
  split; [exact PF|]. split.
  - intros feature. split.
    + intros I. apply (Permutation_in _ PF) in I.
      apply in_map_iff in I as ([pkg f] & E & I). cbn [snd] in E. subst f.
      unfold Detector.contained in I. apply filter_In in I as [I C].
      exists pkg. auto.
    + intros (pkg & I & C).
      apply (Permutation_in _ (Permutation_sym PF)).
      apply in_map_iff. exists (pkg, feature). split; [reflexivity|].
      unfold Detector.contained. apply filter_In. auto.
  - intros G1 G2 ND.
    apply (Permutation_NoDup PF) in ND.
    unfold Detector.contained, Detector.featureMap in ND.
    cbn [filter fst] in ND. rewrite G1, G2 in ND. cbn [map snd] in ND.
    inversion ND as [|? ? NI _]; subst. apply NI. now left.
Qed.

Section Detect.

Variable exists_ : string -> bool.
Variable isDir : string -> bool.
Variable readFile : string -> option string.
Variable v : Detector.Visits.
Variable rootPath : string.

Let info :=
  Detector.CompositeDetect
    (Detector.NewCompositeDetector exists_ isDir readFile v) rootPath.

(** X19.  [CompositeDetector.Detect] on the detectors of
    [NewCompositeDetector].  The language reported is go when [go.mod]
    exists under the root and unknown when it does not, never the empty
    one, and the root path reported is the root given.  Without
    [go.mod] nothing else is reported; with a [go.mod] that cannot be
    read the language is all that is reported.  The project type is one
    of backend, cli and library once [go.mod] was read.  And whatever
    the order in which the map of frameworks is visited, a project with
    a [cmd] directory for which echo, gin or fiber is reported is
    reported as a backend. *)
Theorem Detect_reports_go_or_unknown :
  let goMod := Join [rootPath; "go.mod"] in
  Templates.RootPath info = rootPath /\
  (exists_ goMod = true -> Templates.Language info = "go") /\
  (exists_ goMod = false ->
   info = Templates.mkProjectInfo "unknown" "" "" "" [] rootPath) /\
  (exists_ goMod = true -> readFile goMod = None ->
   info = Templates.mkProjectInfo "go" "" "" "" [] rootPath) /\
  (exists_ goMod = true -> readFile goMod <> None ->
   In (Templates.ProjectType info) ["backend"; "cli"; "library"]) /\
  (Permutation (Detector.visitFrameworks v) Detector.frameworks ->
   In (Templates.Framework info) ["echo"; "gin"; "fiber"] ->
   Detector.dirExists exists_ isDir (Join [rootPath; "cmd"]) = true ->
   Templates.ProjectType info = "backend").
Proof.
  cbv zeta. subst info.
  unfold Detector.NewCompositeDetector, Detector.NewGoDetector.
  cbn [Detector.CompositeDetect Detector.Detect].
  unfold Detector.GoDetect, Detector.fileExists.
  destruct (exists_ (Join [rootPath; "go.mod"])) eqn:E; cbn [negb].
  - destruct (readFile (Join [rootPath; "go.mod"])) as [goMod|] eqn:R;
      cbn [Templates.IsDetected Templates.Language String.eqb Ascii.eqb Bool.eqb
           negb andb Templates.RootPath Templates.ProjectType Templates.Framework].
    + split; [reflexivity|]. split; [reflexivity|]. split; [discriminate|].
      split; [discriminate|]. split.
      * intros _ _. unfold Detector.detectProjectType.
        destruct (Detector.dirExists exists_ isDir (Join [rootPath; "cmd"]));
          [destruct (_ || _)|destruct (Detector.dirExists exists_ isDir _)];
          cbn; auto.
      * intros P F D. unfold Detector.detectProjectType. rewrite D.
        assert (NE : Detector.detectFramework (Detector.visitFrameworks v) goMod <> "")
          by (intros Z0; rewrite Z0 in F; cbn in F; intuition discriminate).
        destruct (firstContained_spec Detector.frameworks _ goMod P) as (_ & S & _).
        { intros e I. cbn in I.
          repeat (destruct I as [<-|I]; [discriminate|]). contradiction. }
        destruct (S NE) as (pkg & I & C).
        unfold Detector.detectFramework in F.
        set (name := Detector.firstContained (Detector.visitFrameworks v) goMod) in *.
        cbn in I.
        destruct I as [I|[I|[I|[I|[I|[]]]]]]; injection I as <- Hn;
          rewrite <- Hn in F.
        -- rewrite (Contains_part goMod "github.com/labstack/" "echo" "" C).
           reflexivity.
        -- rewrite (Contains_part goMod "github.com/" "gin" "-gonic/gin" C).
           now rewrite orb_true_r.
        -- rewrite (Contains_part goMod "github.com/gofiber/" "fiber" "" C).
           now rewrite !orb_true_r.
        -- cbn in F. intuition discriminate.
        -- cbn in F. intuition discriminate.
    + split; [reflexivity|]. split; [reflexivity|]. split; [discriminate|].
      split; [reflexivity|]. split; [intros _ N; now contradiction N|].
      intros _ F. cbn in F. intuition discriminate.
  - cbn [Templates.IsDetected Templates.Language String.eqb negb andb
         Templates.RootPath Templates.ProjectType Templates.Framework].
    split; [reflexivity|]. split; [discriminate|]. split; [reflexivity|].
    split; [discriminate|]. split; [discriminate|].
    intros _ F. cbn in F. intuition discriminate.
Qed.

End Detect.

(* ================================================================== *)
(** ** Tags and categories *)
(* ================================================================== *)

(** X20.  [PrepareEntry] wraps a tag once.  For a tag that is not empty
    and holds no bracket, the entry carries the tag in brackets and the
    tag itself as tag name, with id, content, rationale and time as
    given; and the same tag handed over already in brackets gives the
    same entry. *)
Theorem PrepareEntry_wraps_the_tag_once
    (input : AppendInput) (id : string) (now : Time) :
  InTag input <> "" -> plainTag (InTag input) = true ->
  PrepareEntry input id now
  = mkEntry id ("[" ++ InTag input ++ "]") (InTag input)
            (InContent input) (InRationale input) now /\
  PrepareEntry (mkInput (Category input) ("[" ++ InTag input ++ "]")
                        (InContent input) (InRationale input)) id now
  = PrepareEntry input id now.
Proof.
  intros N P. rewrite (PrepareEntry_plain input id now N P).
  split; [reflexivity|].
  unfold PrepareEntry. cbn [InTag InContent InRationale].
  replace (HasPrefix ("[" ++ InTag input ++ "]") "[") with true
    by (symmetry; apply (prefix_app "[")).
  cbn [negb]. now rewrite Trim_bracketed.
Qed.

(** X21.  The category check.  [IsValid] holds of exactly the section
    types [ValidSections] lists.  [ValidateInput] reports the invalid
    category, whatever tag, content and rationale are, exactly for the
    inputs whose category is neither empty nor one of those: the error
    then wraps [ErrInvalidCategory], and no other error of
    [ValidateInput] does. *)
Theorem category_check_follows_ValidSections :
  (forall s, IsValid s = true <-> In s ValidSections) /\
  (forall input,
     (exists e, ValidateInput input = Some e /\ Is e "invalid category" = true) <->
     (Category input <> "" /\ ~ In (Category input) ValidSections)).
Proof.
  assert (V : forall s, IsValid s = true <-> In s ValidSections).
  { intros s. unfold IsValid, ValidSections. split.
    - repeat match goal with
             | |- context [String.eqb s ?b] =>
                 let E := fresh "E" in
                 destruct (String.eqb s b) eqn:E;
                 [apply String.eqb_eq in E; subst s; intros _; cbn; tauto|]
             end. discriminate.
    - intros I. cbn in I.
      repeat (destruct I as [<-|I]; [reflexivity|]). contradiction. }
  split; [exact V|]. intros input. split.
  - intros (e & H & I). unfold ValidateInput in H.
    destruct (String.eqb (Category input) "") eqn:C.
    + exfalso. cbn [Category InTag InContent InRationale withCategory] in H.
      change (IsValid "note") with true in H. cbn [negb] in H.
      destruct (len (InTag input) =? 0); [injection H as <-; discriminate|].
      destruct (50 <? len (InTag input)); [injection H as <-; discriminate|].
      destruct (len (InContent input) =? 0); [injection H as <-; discriminate|].
      destruct (2000 <? len (InContent input)); [injection H as <-; discriminate|].
      unfold ValidateContent in H.
      destruct (find _ forbidden); [injection H as <-; discriminate|].
      destruct (_ || _); [injection H as <-; discriminate|].
      destruct (500 <? len (InRationale input)); [injection H as <-; discriminate|].
      discriminate.
    + apply String.eqb_neq in C. split; [exact C|].
      intros In'. apply V in In'. rewrite In' in H. cbn [negb] in H.
      destruct (len (InTag input) =? 0); [injection H as <-; discriminate|].
      destruct (50 <? len (InTag input)); [injection H as <-; discriminate|].
      destruct (len (InContent input) =? 0); [injection H as <-; discriminate|].
      destruct (2000 <? len (InContent input)); [injection H as <-; discriminate|].
      unfold ValidateContent in H.
      destruct (find _ forbidden); [injection H as <-; discriminate|].
      destruct (_ || _); [injection H as <-; discriminate|].
      destruct (500 <? len (InRationale input)); [injection H as <-; discriminate|].
      discriminate.
  - intros (C & N). apply String.eqb_neq in C.
    assert (F : IsValid (Category input) = false).
    { destruct (IsValid (Category input)) eqn:E; [|reflexivity].
      apply V in E. contradiction. }
    unfold ValidateInput. rewrite C, F. cbn [negb].
    eexists. split; [reflexivity|]. reflexivity.
Qed.

(* ================================================================== *)
(** ** The theorems above at sample inputs *)
(* ================================================================== *)

Lemma findSectionEnd_on_clean_text_witness :
  noChar hash "Constraints
" = true /\
  let content := "" ++ "## " ++ "Constraints
" ++ String nl "## Decisions
" in
  (HasPrefix "## Decisions
" "## " = true ->
   exists end_, findSectionEnd content (len "") = Some end_ /\
                slice_to content end_ = Some ("" ++ "## " ++ "Constraints
" ++ String nl "") /\
                slice_from content end_ = Some "## Decisions
") /\
  (noChar hash "## Decisions
" = true ->
   findSectionEnd content (len "") = Some (len content)).
Proof.
  split; [reflexivity|].
  apply (findSectionEnd_on_clean_text "" "Constraints
" "## Decisions
"). reflexivity.
Defined.

Lemma ReadAll_after_AppendEntry_witness :
  let w := emptyWorld in
  let w' := snd (AppendEntry repository Background SectionConstraints apiEntry w) in
  faults w = [] /\
  AppendEntry repository Background SectionConstraints apiEntry w = (Ok tt, w') /\
  exists end_,
    findSectionEnd (workingDocument repository w)
      (findSectionStart (workingDocument repository w)
         (capitalize SectionConstraints)) = Some end_ /\
    ReadAll repository Background w'
    = (Ok (spliced (workingDocument repository w) end_ apiEntry), w').
Proof.
  cbv zeta.
  assert (NF : faults emptyWorld = []) by reflexivity.
  assert (Run : AppendEntry repository Background SectionConstraints apiEntry emptyWorld
                = (Ok tt, snd (AppendEntry repository Background SectionConstraints
                                 apiEntry emptyWorld)))
    by (vm_compute; reflexivity).
  split; [exact NF|]. split; [exact Run|].
  exact (ReadAll_after_AppendEntry repository Background SectionConstraints apiEntry
           emptyWorld _ Background NF Run).
Defined.

Lemma appended_blocks_keep_their_order_witness :
  let pre := frontMatter stampText in
  let x := "Constraints
" in
  let tail := "## Decisions

## Patterns

## Anti-Patterns
" in
  faults emptyWorld = [] /\
  workingDocument repository emptyWorld = pre ++ "## " ++ x ++ String nl tail /\
  findSectionStart (pre ++ "## " ++ x ++ LF) (capitalize SectionConstraints) = len pre /\
  noChar hash x = true /\
  Forall (fun e => hashFree e = true) twoEntries /\
  (HasPrefix tail "## " = true ->
   exists w',
     appendAll repository Background SectionConstraints twoEntries emptyWorld
     = (Ok tt, w') /\
     workingDocument repository w'
     = pre ++ "## " ++ x ++ String nl (blocks twoEntries ++ tail) /\
     (twoEntries <> [] -> stored repository w' = workingDocument repository w')) /\
  (noChar hash tail = true ->
   exists w',
     appendAll repository Background SectionConstraints twoEntries emptyWorld
     = (Ok tt, w') /\
     workingDocument repository w'
     = pre ++ "## " ++ x ++ String nl (tail ++ blocks twoEntries) /\
     (twoEntries <> [] -> stored repository w' = workingDocument repository w')).
Proof.
  cbv zeta.
  assert (H1 : faults emptyWorld = []) by reflexivity.
  assert (H2 : workingDocument repository emptyWorld
               = frontMatter stampText ++ "## " ++ "Constraints
" ++ String nl "## Decisions

## Patterns

## Anti-Patterns
") by (vm_compute; reflexivity).
  assert (H3 : findSectionStart (frontMatter stampText ++ "## " ++ "Constraints
" ++ LF) (capitalize SectionConstraints) = len (frontMatter stampText))
    by (vm_compute; reflexivity).
  assert (H4 : noChar hash "Constraints
" = true) by reflexivity.
  assert (H5 : Forall (fun e => hashFree e = true) twoEntries)
    by (repeat constructor).
  repeat (split; [assumption|]).
  exact (appended_blocks_keep_their_order repository Background SectionConstraints
           _ _ _ twoEntries emptyWorld H1 H2 H3 H4 H5).
Defined.

Lemma fresh_store_collects_entries_in_order_witness :
  faults emptyWorld = [] /\ stored repository emptyWorld = "" /\
  Forall (fun e => hashFree e = true) twoEntries /\ twoEntries <> [] /\
  let now := FormatRFC3339 (Now (Persistence.timeProvider repository) emptyWorld) in
  (exists w',
     appendAll repository Background SectionConstraints twoEntries emptyWorld
     = (Ok tt, w') /\
     stored repository w' = frontMatter now ++ "## Constraints

" ++ blocks twoEntries ++ "## Decisions

## Patterns

## Anti-Patterns
") /\
  (exists w',
     appendAll repository Background SectionDecisions twoEntries emptyWorld
     = (Ok tt, w') /\
     stored repository w' = frontMatter now ++ "## Constraints

## Decisions

" ++ blocks twoEntries ++ "## Patterns

## Anti-Patterns
") /\
  (exists w',
     appendAll repository Background SectionPatterns twoEntries emptyWorld
     = (Ok tt, w') /\
     stored repository w' = frontMatter now ++ "## Constraints

## Decisions

## Patterns

" ++ blocks twoEntries ++ "## Anti-Patterns
").
Proof.
  assert (H1 : faults emptyWorld = []) by reflexivity.
  assert (H2 : stored repository emptyWorld = "") by reflexivity.
  assert (H3 : Forall (fun e => hashFree e = true) twoEntries)
    by (repeat constructor).
  assert (H4 : twoEntries <> []) by discriminate.
  repeat (split; [assumption|]).
  exact (fresh_store_collects_entries_in_order repository Background twoEntries
           emptyWorld H1 H2 H3 H4).
Defined.

Lemma GetSection_reads_back_the_appends_witness :
  faults emptyWorld = [] /\ stored repository emptyWorld = "" /\
  In SectionDecisions [SectionConstraints; SectionDecisions; SectionPatterns] /\
  Forall (fun e => hashFree e = true) twoEntries /\
  Forall (fun e => anchoredOk e = true) twoEntries /\ twoEntries <> [] /\
  exists w',
    appendAll repository Background SectionDecisions twoEntries emptyWorld
    = (Ok tt, w') /\
    GetSection repository Background SectionDecisions w'
    = (Ok (mkSection SectionDecisions (map asRead twoEntries)), w').
Proof.
  assert (H1 : faults emptyWorld = []) by reflexivity.
  assert (H2 : stored repository emptyWorld = "") by reflexivity.
  assert (H3 : In SectionDecisions [SectionConstraints; SectionDecisions; SectionPatterns])
    by (simpl; auto).
  assert (H4 : Forall (fun e => hashFree e = true) twoEntries)
    by (repeat constructor).
  assert (H5 : Forall (fun e => anchoredOk e = true) twoEntries)
    by (repeat constructor).
  assert (H6 : twoEntries <> []) by discriminate.
  repeat (split; [assumption|]).
  exact (GetSection_reads_back_the_appends repository Background SectionDecisions
           twoEntries emptyWorld Background H1 H2 H3 H4 H5 H6).
Defined.

Lemma parseV1Anchored_reads_blocks_witness :
  Forall (fun e => anchoredOk e = true) twoEntries /\ twoEntries <> [] /\
  parseV1Anchored (blocks twoEntries) = Ok (map asRead twoEntries) /\
  parseV1Anchored (LF ++ blocks twoEntries) = Ok (map asRead twoEntries) /\
  (forall e, In e twoEntries -> parseV1Anchored (renderEntry e) = Ok [asRead e]).
Proof.
  assert (H1 : Forall (fun e => anchoredOk e = true) twoEntries)
    by (repeat constructor).
  assert (H2 : twoEntries <> []) by discriminate.
  repeat (split; [assumption|]).
  exact (parseV1Anchored_reads_blocks twoEntries H1 H2).
Defined.

Lemma legacy_line_read_back_witness :
  let T := "DB" in
  let C := "Use PostgreSQL as primary database" in
  let R := "ACID compliance" in
  T <> "" /\ allIn clsNotRBracket T = true /\ allIn clsNotNewline T = true /\
  C <> "" /\ allIn clsNotNewline C = true /\
  Contains C rationaleMarker = false /\
  allIn clsNotNewline R = true /\
  FindStringSubmatch legacyEntryRegex (legacyLine T C)
  = Some [legacyLine T C; T; C; ""] /\
  (forall X, X <> "" -> allIn clsNotNewline X = true ->
     FindStringSubmatch legacyEntryRegex (legacyLine T (C ++ " (*Rationale:" ++ X ++ "*)"))
     = Some [legacyLine T (C ++ " (*Rationale:" ++ X ++ "*)"); T; C; X]) /\
  parseLegacyInline (legacyLine T (C ++ " (*Rationale: " ++ R ++ "*)"))
  = [mkEntry "" ("[" ++ T ++ "]") T C (" " ++ R) zeroTime].
Proof.
  cbv zeta.
  assert (H1 : "DB" <> "") by discriminate.
  assert (H2 : allIn clsNotRBracket "DB" = true) by reflexivity.
  assert (H3 : allIn clsNotNewline "DB" = true) by reflexivity.
  assert (H4 : "Use PostgreSQL as primary database" <> "") by discriminate.
  assert (H5 : allIn clsNotNewline "Use PostgreSQL as primary database" = true)
    by reflexivity.
  assert (H6 : Contains "Use PostgreSQL as primary database" rationaleMarker = false)
    by (vm_compute; reflexivity).
  assert (H7 : allIn clsNotNewline "ACID compliance" = true) by reflexivity.
  repeat (split; [assumption|]).
  exact (legacy_line_read_back "DB" "Use PostgreSQL as primary database"
           "ACID compliance" H1 H2 H3 H4 H5 H6 H7).
Defined.

Lemma AppendMemory_then_ReadSection_witness :
  ValidateInput dbInput = None /\
  In (Category dbInput) [SectionConstraints; SectionDecisions; SectionPatterns] /\
  plainTag (InTag dbInput) = true /\
  allIn clsNotNewline (InRationale dbInput) = true /\
  hashFreeInput dbInput = true /\
  sampleId <> "" /\ allIn clsHexDash sampleId = true /\
  faults emptyWorld = [] /\ stored repository emptyWorld = "" /\
  exists w',
    AppendMemory (service repository) Background dbInput sampleId stamp emptyWorld
    = (Ok tt, w') /\
    ReadSection (service repository) Background (Category dbInput) w'
    = (Ok (mkSection (Category dbInput)
             [mkEntry sampleId ("[" ++ InTag dbInput ++ "]") (InTag dbInput)
                      (FormatRFC3339 stamp) (InTag dbInput) zeroTime]), w').
Proof.
  assert (H1 : ValidateInput dbInput = None) by (vm_compute; reflexivity).
  assert (H2 : In (Category dbInput) [SectionConstraints; SectionDecisions; SectionPatterns])
    by (simpl; auto).
  assert (H3 : plainTag (InTag dbInput) = true) by reflexivity.
  assert (H4 : allIn clsNotNewline (InRationale dbInput) = true) by reflexivity.
  assert (H5 : hashFreeInput dbInput = true) by reflexivity.
  assert (H6 : sampleId <> "") by discriminate.
  assert (H7 : allIn clsHexDash sampleId = true) by reflexivity.
  assert (H8 : faults emptyWorld = []) by reflexivity.
  assert (H9 : stored repository emptyWorld = "") by reflexivity.
  repeat (split; [assumption|]).
  exact (AppendMemory_then_ReadSection repository Background dbInput sampleId stamp
           emptyWorld Background H1 H2 H3 H4 H5 H6 H7 H8 H9).
Defined.

Lemma capture_then_read_witness :
  let server := Usecase.NewServer "/project" fixedUUID in
  faults emptyWorld = [] /\ stored (snd server) emptyWorld = "" /\
  fixedUUID emptyWorld = (Ok sampleId, emptyWorld) /\
  ValidateInput (Usecase.inputOf captureRequest) = None /\
  In (Usecase.GetString captureRequest "category" "")
     [""; SectionConstraints; SectionDecisions; SectionPatterns] /\
  let category := Usecase.GetString captureRequest "category" "" in
  let now := FormatRFC3339 (clock emptyWorld) in
  let block :=
    renderEntry (PrepareEntry (Usecase.inputOf captureRequest) sampleId
                   (clock emptyWorld)) ++ LF in
  exists w',
    Usecase.handleCaptureMemory osPlain (fst server) Background captureRequest emptyWorld
    = (Ok (Usecase.NewToolResultText
             ("Successfully captured entry to '" ++ category ++ "' category.")), w') /\
    Usecase.handleReadMemory osPlain (fst server) Background readRequest w'
    = (Ok (Usecase.NewToolResultText
             (if String.eqb category SectionDecisions then freshDocument now "" block ""
              else if String.eqb category SectionPatterns then freshDocument now "" "" block
              else freshDocument now block "" "")), w').
Proof.
  cbv zeta.
  assert (H1 : faults emptyWorld = []) by reflexivity.
  assert (H2 : stored (snd (Usecase.NewServer "/project" fixedUUID)) emptyWorld = "")
    by reflexivity.
  assert (H3 : fixedUUID emptyWorld = (Ok sampleId, emptyWorld)) by reflexivity.
  assert (H4 : ValidateInput (Usecase.inputOf captureRequest) = None)
    by (vm_compute; reflexivity).
  assert (H5 : In (Usecase.GetString captureRequest "category" "")
                  [""; SectionConstraints; SectionDecisions; SectionPatterns])
    by (simpl; auto).
  repeat (split; [assumption|]).
  exact (capture_then_read osPlain "/project" fixedUUID Background captureRequest
           readRequest sampleId emptyWorld Background H1 H2 H3 H4 H5).
Defined.


Lemma detected_features_one_per_package_witness :
  let goMod := "google.golang.org/grpc github.com/grpc-ecosystem/go-grpc-middleware" in
  Permutation featuresBackwards Detector.featureMap /\
  let features := Detector.detectFeatures featuresBackwards goMod in
  Permutation features (map snd (Detector.contained Detector.featureMap goMod)) /\
  (forall feature,
     In feature features <->
     exists pkg, In (pkg, feature) Detector.featureMap /\ Contains goMod pkg = true) /\
  (Contains goMod "google.golang.org/grpc" = true ->
   Contains goMod "github.com/grpc-ecosystem" = true ->
   ~ NoDup features).
Proof.
  cbv zeta.
  assert (H1 : Permutation featuresBackwards Detector.featureMap)
    by (apply Permutation_sym, Permutation_rev).
  split; [exact H1|].
  exact (detected_features_one_per_package featuresBackwards
           "google.golang.org/grpc github.com/grpc-ecosystem/go-grpc-middleware" H1).
Defined.

Lemma PrepareEntry_wraps_the_tag_once_witness :
  InTag dbInput <> "" /\ plainTag (InTag dbInput) = true /\
  PrepareEntry dbInput sampleId stamp
  = mkEntry sampleId ("[" ++ InTag dbInput ++ "]") (InTag dbInput)
            (InContent dbInput) (InRationale dbInput) stamp /\
  PrepareEntry (mkInput (Category dbInput) ("[" ++ InTag dbInput ++ "]")
                        (InContent dbInput) (InRationale dbInput)) sampleId stamp
  = PrepareEntry dbInput sampleId stamp.
Proof.
  assert (H1 : InTag dbInput <> "") by discriminate.
  assert (H2 : plainTag (InTag dbInput) = true) by reflexivity.
  repeat (split; [assumption|]).
  exact (PrepareEntry_wraps_the_tag_once dbInput sampleId stamp H1 H2).
Defined.
